(** * Frametide: extraction, caching and session-tracking core

    A shallow embedding of the TypeScript sources (the session manager and
    the cache service of src/services, the component extractor and the design
    token extractor of src/extractors, the validators, the sanitizer and the
    rate limiter of src/utils) and of the properties the specification states
    about them, followed by further properties that the code itself shows.

    Conventions of the embedding
    - a JS [string] is a [string] of 8-bit code units (the Latin-1 range);
    - a JS [number] is a rational [Q], the value of a double; the result of
      an arithmetic operation is rounded to the nearest double, ties to
      even ([JS.double]), a number read from the document is rounded the
      same way where the code computes with it or prints it, and a number
      is printed as [Number.prototype.toString] prints that double; [NaN],
      the infinities and the sign of zero are not represented;
    - wall-clock instants ([Date.now()], ISO timestamps) are integers of
      milliseconds, one reading [now] per public call;
    - a JS [Map] or object used as a dictionary is a [gmap];
    - mutation of a shared object is explicit state passing. *)

From Stdlib Require Import ZArith QArith Qround Qpower Lqa.
From Stdlib Require Import List Ascii String Permutation.
From Stdlib Require Import DecimalString HexadecimalString.
From stdpp Require Import gmap strings list fin_maps.
Import ListNotations.

Close Scope Q_scope.
Local Open Scope string_scope.
Local Open Scope Z_scope.
Local Open Scope list_scope.

(** * The program *)

(** ** JavaScript primitives shared by the modules *)

Module JS.

(** [Math.round]: nearest integer, halves towards +infinity. *)
Definition Math_round (x : Q) : Z := Qfloor (x + (1 # 2))%Q.

(** *** Binary64 arithmetic

    [binade q] is the integer part of the binary logarithm of a positive
    [q], corrected from the lengths of numerator and denominator. *)
Definition pow2 (e : Z) : Q := Qpower 2 e.
Definition pow10 (e : Z) : Q := Qpower 10 e.

Definition binade (q : Q) : Z :=
  let e0 := Z.log2 (Qnum q) - Z.log2 (Z.pos (Qden q)) in
  if Qle_bool (pow2 e0) q then e0 else e0 - 1.

Definition round_half_even (x : Q) : Z :=
  let f := Qfloor x in
  match Qcompare (x - inject_Z f) (1 # 2) with
  | Lt => f
  | Gt => f + 1
  | Eq => if Z.even f then f else f + 1
  end.

(** The unit in the last place of the 53-bit significand; below [2^-1022]
    the doubles are evenly spaced (subnormal). *)
Definition ulp (q : Q) : Q := pow2 (Z.max (binade q) (-1022) - 52).

(** The double nearest to [q], ties to even. Beyond the largest double the
    code would see an infinity, which is not represented. *)
Definition double (q : Q) : Q :=
  match Qnum q with
  | 0 => 0%Q
  | Z.pos _ => Qred (inject_Z (round_half_even (q / ulp q)) * ulp q)
  | Z.neg _ => Qred (- (inject_Z (round_half_even (- q / ulp (- q))) * ulp (- q)))
  end.

(** [a * b] and [a / b] on doubles. *)
Definition fmul (a b : Q) : Q := double (a * b).
Definition fdiv (a b : Q) : Q := double (a / b).

(** [x || d] on numbers: 0 is falsy. *)
Definition num_or (x d : Q) : Q := if Qeq_bool x 0 then d else x.

(** [s || d] on strings: the empty string is falsy. *)
Definition str_or (s d : string) : string :=
  match s with EmptyString => d | _ => s end.

(** The decimal digits of an integer. *)
Definition string_of_Z (z : Z) : string :=
  DecimalString.NilZero.string_of_int (Z.to_int z).

(** [String.prototype.toLowerCase] on one code unit: A-Z and the Latin-1
    capitals (all of 192-222 but the multiplication sign) move up by 32. *)
Definition lower_ascii (c : ascii) : ascii :=
  let n := nat_of_ascii c in
  if ((65 <=? n) && (n <=? 90)
      || (192 <=? n) && (n <=? 222) && negb (n =? 215))%nat
  then ascii_of_nat (n + 32) else c.

Fixpoint toLowerCase (s : string) : string :=
  match s with
  | EmptyString => EmptyString
  | String c s' => String (lower_ascii c) (toLowerCase s')
  end.

Fixpoint startsWith (s p : string) {struct p} : bool :=
  match p, s with
  | EmptyString, _ => true
  | String a p', String b s' => Ascii.eqb a b && startsWith s' p'
  | String _ _, EmptyString => false
  end.

Fixpoint includes (s p : string) : bool :=
  startsWith s p
  || match s with
     | EmptyString => false
     | String _ s' => includes s' p
     end.

Fixpoint endsWith (s p : string) : bool :=
  String.eqb s p
  || match s with
     | EmptyString => false
     | String _ s' => endsWith s' p
     end.

(** [Array.prototype.includes] on strings. *)
Definition array_includes (l : list string) (x : string) : bool :=
  existsb (String.eqb x) l.

(** [Array.prototype.join]. *)
Fixpoint join (sep : string) (l : list string) : string :=
  match l with
  | [] => ""
  | [x] => x
  | x :: rest => x +:+ sep +:+ join sep rest
  end.

(** The class [\s] within the Latin-1 range. *)
Definition is_space (c : ascii) : bool :=
  let n := nat_of_ascii c in
  ((9 <=? n) && (n <=? 13) || (n =? 32) || (n =? 160))%nat.

Fixpoint drop (n : nat) (s : string) : string :=
  match n, s with
  | O, _ => s
  | S n', String _ s' => drop n' s'
  | S _, EmptyString => EmptyString
  end.

(** *** [Number.prototype.toString]

    ECMAScript prints a double [x] from integers [n], [k], [s] with [k] as
    small as possible such that [s] has [k] digits and [s * 10^(n-k)] reads
    back as [x]; where two [s] qualify the one nearer to [x] is taken.
    [decimal_exponent x] is the [n] with [10^(n-1) <= x < 10^n]. *)
Definition decimal_exponent (x : Q) : Z :=
  let e0 := Z.of_nat (String.length (string_of_Z (Qnum x)))
            - Z.of_nat (String.length (string_of_Z (Z.pos (Qden x)))) in
  if Qle_bool (pow10 e0) x then e0 + 1 else e0.

(** The decimal of [k] digits next to [x] that reads back as [x]. *)
Definition candidate (x : Q) (n k : Z) : option (Z * Z) :=
  let scale := pow10 (n - k) in
  let lo := Qfloor (x / scale) in
  let hi := lo + 1 in
  let ok s := Qeq_bool (double (inject_Z s * scale)) x in
  let pick s := if s =? 10 ^ k then Some (10 ^ (k - 1), n + 1) else Some (s, n) in
  match ok lo, ok hi with
  | true, true =>
      match Qcompare (x - inject_Z lo * scale) (inject_Z hi * scale - x) with
      | Lt => pick lo
      | Gt => pick hi
      | Eq => if Z.even lo then pick lo else pick hi
      end
  | true, false => pick lo
  | false, true => pick hi
  | false, false => None
  end.

(** Seventeen digits tell any two doubles apart. *)
Fixpoint shortest (fuel : nat) (x : Q) (n k : Z) : Z * Z :=
  match fuel with
  | O => (Qfloor (x / pow10 (n - k)), n)
  | S fuel' =>
      match candidate x n k with
      | Some r => r
      | None => shortest fuel' x n (k + 1)
      end
  end.

Fixpoint zeros (n : nat) : string :=
  match n with
  | O => EmptyString
  | S n' => String "0" (zeros n')
  end.

Definition positive_toString (x : Q) : string :=
  let '(s, n) := shortest 17 x (decimal_exponent x) 1 in
  let digits := string_of_Z s in
  let k := Z.of_nat (String.length digits) in
  if (k <=? n) && (n <=? 21) then digits +:+ zeros (Z.to_nat (n - k))
  else if (0 <? n) && (n <=? 21) then
    substring 0 (Z.to_nat n) digits +:+ "." +:+ drop (Z.to_nat n) digits
  else if (-6 <? n) && (n <=? 0) then "0." +:+ zeros (Z.to_nat (- n)) +:+ digits
  else
    let e := n - 1 in
    let exponent := (if e <? 0 then "-" else "+") +:+ string_of_Z (Z.abs e) in
    if k =? 1 then digits +:+ "e" +:+ exponent
    else substring 0 1 digits +:+ "." +:+ drop 1 digits +:+ "e" +:+ exponent.

(** Template interpolation of a number. *)
Definition Number_toString (q : Q) : string :=
  let x := double q in
  match Qnum x with
  | 0 => "0"
  | Z.pos _ => positive_toString x
  | Z.neg _ => "-" +:+ positive_toString (- x)
  end.

End JS.

(** ** Session / implementation tracker (src/services/session.ts) *)

Module Session.

Inductive Status := Pending | InProgress | Implemented | NeedsUpdate.

Definition Status_eqb (a b : Status) : bool :=
  match a, b with
  | Pending, Pending | InProgress, InProgress
  | Implemented, Implemented | NeedsUpdate, NeedsUpdate => true
  | _, _ => false
  end.

Record ComponentImplementationStatus := {
  componentId : string;
  componentName : string;
  status : Status;
  lastModified : option Z;
  implementedAt : option Z;
  notes : option string;
  framework : option string;
}.

Record WorkingFile := {
  fileId : string;
  fileName : option string;
  url : string;
  setAt : Z;
  lastAccessed : Z;
  componentCount : option nat;
  implementationStatus : gmap string ComponentImplementationStatus;
}.

Inductive ComponentType := COMPONENT | COMPONENT_SET.

Record ComponentListItem := {
  id : string;
  name : string;
  type : ComponentType;
  description : option string;
  variantCount : option nat;
  item_lastModified : string;
  published : bool;
  thumbnail : option string;
}.

Record ImplementationQueue := {
  pending : list ComponentListItem;
  inProgress : list ComponentListItem;
  implemented : list ComponentListItem;
  needsUpdate : list ComponentListItem;
  total : nat;
}.

Record ParsedFigmaUrl := {
  parsed_fileId : string;
  parsed_fileName : option string;
  parsed_url : string;
}.

(** The private field [sessions]. *)
Abbreviation sessions := (gmap string WorkingFile).

Definition SESSION_TTL : Z := 24 * 60 * 60 * 1000.

Definition touch (now : Z) (s : WorkingFile) : WorkingFile :=
  {| fileId := fileId s; fileName := fileName s; url := url s;
     setAt := setAt s; lastAccessed := now;
     componentCount := componentCount s;
     implementationStatus := implementationStatus s |}.

Definition with_status (m : gmap string ComponentImplementationStatus)
    (now : Z) (s : WorkingFile) : WorkingFile :=
  {| fileId := fileId s; fileName := fileName s; url := url s;
     setAt := setAt s; lastAccessed := now;
     componentCount := componentCount s;
     implementationStatus := m |}.

(** [fileName || parsedUrl.fileName]: an empty name is falsy. *)
Definition name_or (a b : option string) : option string :=
  match a with
  | Some EmptyString | None => b
  | Some _ => a
  end.

Definition setWorkingFile (st : sessions) (clientId : string)
    (parsedUrl : ParsedFigmaUrl) (fileName' : option string) (now : Z)
    : WorkingFile * sessions :=
  let workingFile :=
    {| fileId := parsed_fileId parsedUrl;
       fileName := name_or fileName' (parsed_fileName parsedUrl);
       url := parsed_url parsedUrl;
       setAt := now; lastAccessed := now;
       componentCount := None;
       implementationStatus := ∅ |} in
  (workingFile, <[clientId := workingFile]> st).

Definition getWorkingFile (st : sessions) (clientId : string) (now : Z)
    : option WorkingFile * sessions :=
  match st !! clientId with
  | None => (None, st)
  | Some session =>
      if now - setAt session >? SESSION_TTL
      then (None, delete clientId st)
      else let session' := touch now session in
           (Some session', <[clientId := session']> st)
  end.

Definition updateComponentStatus (st : sessions) (clientId componentId' componentName' : string)
    (status' : Status) (notes' framework' : option string) (now : Z)
    : bool * sessions :=
  match getWorkingFile st clientId now with
  | (None, st') => (false, st')
  | (Some session, st') =>
      let existing := implementationStatus session !! componentId' in
      let statusUpdate :=
        {| componentId := componentId';
           componentName := componentName';
           status := status';
           lastModified := Some now;
           notes := notes';
           framework := framework';
           implementedAt :=
             if Status_eqb status' Implemented then Some now
             else existing ≫= implementedAt |} in
      let session' :=
        with_status (<[componentId' := statusUpdate]> (implementationStatus session))
                    now session in
      (true, <[clientId := session']> st')
  end.

Definition getComponentStatus (st : sessions) (clientId componentId' : string) (now : Z)
    : option ComponentImplementationStatus * sessions :=
  match getWorkingFile st clientId now with
  | (None, st') => (None, st')
  | (Some session, st') => (implementationStatus session !! componentId', st')
  end.

Definition emptyQueue (n : nat) : ImplementationQueue :=
  {| pending := []; inProgress := []; implemented := []; needsUpdate := []; total := n |}.

(** One iteration of the [for (const component of components)] loop. *)
Definition enqueue (session : option WorkingFile)
    (queue : ImplementationQueue) (component : ComponentListItem) : ImplementationQueue :=
  let status' := session ≫= (fun s => implementationStatus s !! id component) in
  match status <$> status' with
  | None | Some Pending =>
      {| pending := pending queue ++ [component]; inProgress := inProgress queue;
         implemented := implemented queue; needsUpdate := needsUpdate queue;
         total := total queue |}
  | Some InProgress =>
      {| pending := pending queue; inProgress := inProgress queue ++ [component];
         implemented := implemented queue; needsUpdate := needsUpdate queue;
         total := total queue |}
  | Some Implemented =>
      {| pending := pending queue; inProgress := inProgress queue;
         implemented := implemented queue ++ [component]; needsUpdate := needsUpdate queue;
         total := total queue |}
  | Some NeedsUpdate =>
      {| pending := pending queue; inProgress := inProgress queue;
         implemented := implemented queue; needsUpdate := needsUpdate queue ++ [component];
         total := total queue |}
  end.

Definition getImplementationQueue (st : sessions) (clientId : string)
    (components : list ComponentListItem) (now : Z)
    : ImplementationQueue * sessions :=
  let '(session, st') := getWorkingFile st clientId now in
  (fold_left (enqueue session) components (emptyQueue (length components)), st').

Record Stats := {
  stats_total : nat;
  stats_pending : nat;
  stats_inProgress : nat;
  stats_implemented : nat;
  stats_needsUpdate : nat;
  completionPercentage : Z;
}.

Record Summary := {
  hasWorkingFile : bool;
  workingFile : option WorkingFile;
  stats : Stats;
}.

Definition count_status (x : Status) (statuses : list ComponentImplementationStatus) : nat :=
  length (List.filter (fun s => Status_eqb (status s) x) statuses).

Definition getImplementationSummary (st : sessions) (clientId : string) (now : Z)
    : Summary * sessions :=
  match getWorkingFile st clientId now with
  | (None, st') =>
      ({| hasWorkingFile := false; workingFile := None;
          stats := {| stats_total := 0; stats_pending := 0; stats_inProgress := 0;
                      stats_implemented := 0; stats_needsUpdate := 0;
                      completionPercentage := 0 |} |}, st')
  | (Some session, st') =>
      let statuses := snd <$> map_to_list (implementationStatus session) in
      ({| hasWorkingFile := true; workingFile := Some session;
          stats :=
            {| stats_total := length statuses;
               stats_pending := count_status Pending statuses;
               stats_inProgress := count_status InProgress statuses;
               stats_implemented := count_status Implemented statuses;
               stats_needsUpdate := count_status NeedsUpdate statuses;
               completionPercentage :=
                 if (0 <? length statuses)%nat
                 then JS.Math_round
                        (JS.fmul
                           (JS.fdiv (inject_Z (Z.of_nat (count_status Implemented statuses)))
                                    (inject_Z (Z.of_nat (length statuses))))
                           100)
                 else 0 |} |}, st')
  end.

Definition clearWorkingFile (st : sessions) (clientId : string) : bool * sessions :=
  (bool_decide (is_Some (st !! clientId)), delete clientId st).

End Session.

(** *** Specification-side notions for the tracker *)

Module SessionSpec.
Import Session.

(** The status a component is filed under: its tracked status, [Pending]
    when it has none or when there is no live session. *)
Definition bucket (session : option WorkingFile) (c : ComponentListItem) : Status :=
  default Pending (status <$> (session ≫= (fun s => implementationStatus s !! id c))).

Definition in_bucket (session : option WorkingFile) (x : Status) (c : ComponentListItem) : bool :=
  Status_eqb (bucket session c) x.

Definition item (i : string) : ComponentListItem :=
  {| id := i; name := i; type := COMPONENT; description := None;
     variantCount := None; item_lastModified := "2024-01-01T00:00:00Z";
     published := true; thumbnail := None |}.

Definition url0 : ParsedFigmaUrl :=
  {| parsed_fileId := "F1"; parsed_fileName := Some "Kit";
     parsed_url := "https://www.figma.com/file/F1/Kit" |}.

(** A client sets a working file at 0 and marks component [a] implemented at 1000. *)
Definition st_one_implemented : sessions :=
  snd (updateComponentStatus (snd (setWorkingFile ∅ "client" url0 None 0))
         "client" "a" "A" Implemented None None 1000).

(** The session object that results. *)
Definition session_a : WorkingFile :=
  {| fileId := "F1"; fileName := Some "Kit";
     url := "https://www.figma.com/file/F1/Kit";
     setAt := 0; lastAccessed := 1000; componentCount := None;
     implementationStatus :=
       {[ "a" := {| componentId := "a"; componentName := "A"; status := Implemented;
                    lastModified := Some 1000; implementedAt := Some 1000;
                    notes := None; framework := None |} ]} |}.

End SessionSpec.

(** ** Cache (src/services/cache.ts) *)

Module Cache.

Section CacheService.

Context {T : Type}.

Record CacheEntry := {
  data : T;
  timestamp : Z;
  ttl : Z;
}.

(** *** The [lru-cache] package *)

(** Modelled from the spec: the [lru-cache] package is a dependency and not
    part of the sources. The spec gives its role, a store bounded by a maximum
    entry count with least-recently-used eviction on insertion past capacity;
    the options the constructor below passes add a time-to-live [ttl] counted
    from [start], [updateAgeOnGet: true] (a hit restarts the entry's age) and
    [allowStale: false] (a stale entry is dropped on access and reads as
    [undefined]). Entries are kept most recently used first. The package's
    clock and [Date.now()] are taken to advance together. *)
Record LRUItem := {
  key : string;
  value : CacheEntry;
  start : Z;
}.

Record LRUCache := {
  max : nat;
  lru_ttl : Z;
  items : list LRUItem;
}.

Definition has_key (k : string) (it : LRUItem) : bool := String.eqb (key it) k.

Definition without (k : string) (l : list LRUItem) : list LRUItem :=
  List.filter (fun it => negb (has_key k it)) l.

Definition with_items (m : LRUCache) (l : list LRUItem) : LRUCache :=
  {| max := max m; lru_ttl := lru_ttl m; items := l |}.

Definition isStale (m : LRUCache) (it : LRUItem) (now : Z) : bool :=
  now - start it >? lru_ttl m.

(** Modelled from the spec: [LRUCache.get], which drops a stale entry and
    otherwise makes the entry the most recent one with a fresh age. *)
Definition lru_get (m : LRUCache) (k : string) (now : Z) : option CacheEntry * LRUCache :=
  match List.find (has_key k) (items m) with
  | None => (None, m)
  | Some it =>
      if isStale m it now
      then (None, with_items m (without k (items m)))
      else (Some (value it),
            with_items m ({| key := k; value := value it; start := now |}
                          :: without k (items m)))
  end.

(** Modelled from the spec: [LRUCache.set], which replaces the entry of a
    known key and otherwise inserts, evicting the least recently used entry of
    a full cache. *)
Definition lru_set (m : LRUCache) (k : string) (v : CacheEntry) (now : Z) : LRUCache :=
  let fresh := {| key := k; value := v; start := now |} in
  match List.find (has_key k) (items m) with
  | Some _ => with_items m (fresh :: without k (items m))
  | None =>
      if (max m <=? length (items m))%nat
      then with_items m (fresh :: removelast (items m))
      else with_items m (fresh :: items m)
  end.

Definition lru_delete (m : LRUCache) (k : string) : LRUCache :=
  with_items m (without k (items m)).

Definition lru_clear (m : LRUCache) : LRUCache := with_items m [].

(** *** [CacheService] *)

Record CacheService := {
  memoryCache : LRUCache;
  defaultTtl : Z;
}.

Record CacheOptions := {
  maxSize : option nat;
  opt_defaultTtl : option Z;
}.

(** [x || d] for an optional number. *)
Definition Z_or (x : option Z) (d : Z) : Z :=
  match x with
  | Some v => if v =? 0 then d else v
  | None => d
  end.

Definition nat_or (x : option nat) (d : nat) : nat :=
  match x with
  | Some O | None => d
  | Some n => n
  end.

(** The constructor; [None] when [new LRUCache] throws (its [ttl] has to be
    a positive integer). *)
Definition new_CacheService (options : CacheOptions) : option CacheService :=
  let defaultTtl' := Z_or (opt_defaultTtl options) 3600000 in
  if 0 <? defaultTtl'
  then Some {| defaultTtl := defaultTtl';
               memoryCache := {| max := nat_or (maxSize options) 1000;
                                 lru_ttl := defaultTtl';
                                 items := [] |} |}
  else None.

Definition with_cache (c : CacheService) (m : LRUCache) : CacheService :=
  {| memoryCache := m; defaultTtl := defaultTtl c |}.

Definition isExpired (entry : CacheEntry) (now : Z) : bool :=
  now - timestamp entry >? ttl entry.

Definition get (c : CacheService) (k : string) (now : Z) : option T * CacheService :=
  match lru_get (memoryCache c) k now with
  | (None, m) => (None, with_cache c m)
  | (Some entry, m) =>
      if isExpired entry now
      then (None, with_cache c (lru_delete m k))
      else (Some (data entry), with_cache c m)
  end.

Definition set (c : CacheService) (k : string) (data' : T) (ttl' : option Z) (now : Z)
    : CacheService :=
  let entry := {| data := data'; timestamp := now; ttl := Z_or ttl' (defaultTtl c) |} in
  with_cache c (lru_set (memoryCache c) k entry now).

Definition has (c : CacheService) (k : string) (now : Z) : bool * CacheService :=
  match lru_get (memoryCache c) k now with
  | (None, m) => (false, with_cache c m)
  | (Some entry, m) =>
      if isExpired entry now
      then (false, with_cache c (lru_delete m k))
      else (true, with_cache c m)
  end.

Definition delete (c : CacheService) (k : string) : CacheService :=
  with_cache c (lru_delete (memoryCache c) k).

Definition clear (c : CacheService) : CacheService :=
  with_cache c (lru_clear (memoryCache c)).

(** What the constructor establishes and every operation keeps. *)
Definition well_formed (c : CacheService) : Prop :=
  0 < defaultTtl c /\ lru_ttl (memoryCache c) = defaultTtl c.

End CacheService.

Arguments CacheEntry : clear implicits.
Arguments LRUItem : clear implicits.
Arguments LRUCache : clear implicits.
Arguments CacheService : clear implicits.

(** Predefined keys and TTLs. *)
Definition key_component (fileId componentId : string) : string :=
  "component:" +:+ fileId +:+ ":" +:+ componentId.
Definition key_componentList (fileId : string) : string := "components:" +:+ fileId.
Definition key_designTokens (fileId : string) : string := "tokens:" +:+ fileId.
Definition key_componentSpec (fileId componentId : string) : string :=
  "spec:" +:+ fileId +:+ ":" +:+ componentId.
Definition ttl_component : Z := 3600000.
Definition ttl_componentList : Z := 1800000.
Definition ttl_designTokens : Z := 86400000.
Definition ttl_componentSpec : Z := 3600000.

(** A cache built with the default options. *)
Definition default_cache (T : Type) : CacheService T :=
  {| defaultTtl := 3600000;
     memoryCache := {| max := 1000; lru_ttl := 3600000; items := [] |} |}.

End Cache.

(** ** Component extractor (src/extractors/component.ts) *)

Module Extractor.

(** *** State inference *)

Definition statePatterns : list string :=
  ["hover"; "focus"; "active"; "pressed"; "disabled"; "selected";
   "loading"; "error"; "success"; "warning"; "visited"].

(** The disjunction tested for one [pattern] inside the loop. *)
Definition matches_pattern (name pattern : string) : bool :=
  String.eqb name pattern
  || JS.includes name pattern
  || JS.includes name ("state=" +:+ pattern)
  || JS.includes name ("_" +:+ pattern)
  || JS.includes name ("-" +:+ pattern)
  || JS.includes name (pattern +:+ "_")
  || JS.includes name (pattern +:+ "-")
  || JS.startsWith name (pattern +:+ ":")
  || JS.endsWith name (":" +:+ pattern).

(** The longest prefix matching [[^,\s]*]. *)
Fixpoint run_of_value (s : string) : string :=
  match s with
  | EmptyString => EmptyString
  | String c s' =>
      if Ascii.eqb c "," || JS.is_space c then EmptyString
      else String c (run_of_value s')
  end.

(** [name.match(/state=([^,\s]+)/)]: the capture group of the leftmost
    match, [None] when there is no match. *)
Fixpoint match_state (s : string) : option string :=
  match s with
  | EmptyString => None
  | String _ s' =>
      if JS.startsWith s "state="
      then match run_of_value (JS.drop 6 s) with
           | EmptyString => match_state s'
           | run => Some run
           end
      else match_state s'
  end.

Definition parseStateFromLayerName (layerName : string) (statePatterns : list string)
    : option string :=
  let name := JS.toLowerCase layerName in
  match List.find (matches_pattern name) statePatterns with
  | Some pattern => Some pattern
  | None =>
      if JS.includes name "state="
      then match match_state name with
           | Some m => if JS.array_includes statePatterns m then Some m else None
           | None => None
           end
      else None
  end.

(** *** Effects *)

Record RGBA := { r : Q; g : Q; b : Q; a : option Q }.

Record Vector := { x : Q; y : Q }.

(** An effect as the document has it. *)
Record Effect := {
  type : string;
  visible : option bool;
  radius : option Q;
  color : option RGBA;
  offset : option Vector;
  spread : option Q;
}.

(** An effect as [extractEffects] returns it. *)
Record ExtractedEffect := {
  e_type : string;
  e_color : option string;
  e_offset : option Vector;
  e_radius : option Q;
  e_spread : Q;
  e_visible : bool;
}.

Record EffectCSS := {
  boxShadow : option string;
  filter : option string;
  backdropFilter : option string;
}.

(** [Math.round(rgba.r * 255)] and its fellows; the template prints the
    numbers as [Number.prototype.toString] does. *)
Definition rgbaToCSS (rgba : RGBA) : string :=
  let r' := JS.Math_round (JS.fmul (JS.double (r rgba)) 255) in
  let g' := JS.Math_round (JS.fmul (JS.double (g rgba)) 255) in
  let b' := JS.Math_round (JS.fmul (JS.double (b rgba)) 255) in
  let a' := match a rgba with Some v => v | None => 1%Q end in
  "rgba(" +:+ JS.Number_toString (inject_Z r') +:+ ", "
  +:+ JS.Number_toString (inject_Z g') +:+ ", "
  +:+ JS.Number_toString (inject_Z b') +:+ ", " +:+ JS.Number_toString a' +:+ ")".

Definition extractEffect (effect : Effect) : ExtractedEffect :=
  {| e_type := type effect;
     e_color := rgbaToCSS <$> color effect;
     e_offset := offset effect;
     e_radius := radius effect;
     e_spread := JS.num_or (default 0%Q (spread effect)) 0%Q;
     e_visible := match visible effect with Some false => false | _ => true end |}.

(** [component.effects] may be missing. *)
Definition extractEffects (effects : option (list Effect)) : list ExtractedEffect :=
  match effects with
  | Some l => List.map extractEffect l
  | None => []
  end.

(** [`${Math.round(q)}px`] *)
Definition px (q : Q) : string :=
  JS.Number_toString (inject_Z (JS.Math_round (JS.double q))) +:+ "px".

Definition shadow_text (effect : ExtractedEffect) (o : Vector) (radius' : Q) : string :=
  let color' := JS.str_or (default "" (e_color effect)) "rgba(0, 0, 0, 0.25)" in
  px (JS.num_or (x o) 0%Q) +:+ " " +:+ px (JS.num_or (y o) 0%Q) +:+ " "
  +:+ px (JS.num_or radius' 0%Q) +:+ " " +:+ px (JS.num_or (e_spread effect) 0%Q)
  +:+ " " +:+ color'.

Definition convertDropShadowToCSS (effect : ExtractedEffect) : option string :=
  match e_offset effect, e_radius effect with
  | Some o, Some radius' => Some (shadow_text effect o radius')
  | _, _ => None
  end.

Definition convertInnerShadowToCSS (effect : ExtractedEffect) : option string :=
  match e_offset effect, e_radius effect with
  | Some o, Some radius' => Some ("inset " +:+ shadow_text effect o radius')
  | _, _ => None
  end.

Definition convertBlurToCSS (effect : ExtractedEffect) : option string :=
  match e_radius effect with
  | Some radius' =>
      if Qle_bool radius' 0 then None
      else Some ("blur(" +:+ px radius' +:+ ")")
  | None => None
  end.

Definition convertBackgroundBlurToCSS (effect : ExtractedEffect) : option string :=
  match e_radius effect with
  | Some radius' =>
      if Qle_bool radius' 0 then None
      else Some ("blur(" +:+ px radius' +:+ ")")
  | None => None
  end.

(** The locals of [convertEffectsToCSS] the [forEach] callback writes to. *)
Record Collected := {
  shadows : list string;
  filters : list string;
  backdrop : option string;
}.

(** [if (s) list.push(s)]: null and the empty string are falsy. *)
Definition push_truthy (l : list string) (s : option string) : list string :=
  match s with
  | Some (String _ _ as v) => l ++ [v]
  | _ => l
  end.

Definition collect_effect (acc : Collected) (effect : ExtractedEffect) : Collected :=
  if negb (e_visible effect) then acc
  else if String.eqb (e_type effect) "DROP_SHADOW" then
    {| shadows := push_truthy (shadows acc) (convertDropShadowToCSS effect);
       filters := filters acc; backdrop := backdrop acc |}
  else if String.eqb (e_type effect) "INNER_SHADOW" then
    {| shadows := push_truthy (shadows acc) (convertInnerShadowToCSS effect);
       filters := filters acc; backdrop := backdrop acc |}
  else if String.eqb (e_type effect) "LAYER_BLUR" then
    {| shadows := shadows acc;
       filters := push_truthy (filters acc) (convertBlurToCSS effect);
       backdrop := backdrop acc |}
  else if String.eqb (e_type effect) "BACKGROUND_BLUR" then
    {| shadows := shadows acc; filters := filters acc;
       backdrop := match convertBackgroundBlurToCSS effect with
                   | Some (String _ _ as v) => Some v
                   | _ => backdrop acc
                   end |}
  else acc.

Definition joined (sep : string) (l : list string) : option string :=
  match l with
  | [] => None
  | _ => Some (JS.join sep l)
  end.

Definition convertEffectsToCSS (effects : list ExtractedEffect) : EffectCSS :=
  match effects with
  | [] => {| boxShadow := None; filter := None; backdropFilter := None |}
  | _ =>
      let acc := fold_left collect_effect effects
                   {| shadows := []; filters := []; backdrop := None |} in
      {| boxShadow := joined ", " (shadows acc);
         filter := joined " " (filters acc);
         backdropFilter := backdrop acc |}
  end.

(** The effect half of [extractStyling]'s [baseStyles]:
    [convertEffectsToCSS(extractEffects(component))]. *)
Definition effectsToCSS (effects : option (list Effect)) : EffectCSS :=
  convertEffectsToCSS (extractEffects effects).

Definition css_of (acc : Collected) : EffectCSS :=
  {| boxShadow := joined ", " (shadows acc);
     filter := joined " " (filters acc);
     backdropFilter := backdrop acc |}.

Definition no_effects : Collected := {| shadows := []; filters := []; backdrop := None |}.

Definition shadow_0_4_8 : Effect :=
  {| type := "DROP_SHADOW"; visible := None; radius := Some 8%Q;
     color := Some {| r := 0; g := 0; b := 0; a := Some (1 # 4)%Q |};
     offset := Some {| x := 0; y := 4 |}; spread := Some 0%Q |}.

Definition shadow_0_1_3 : Effect :=
  {| type := "DROP_SHADOW"; visible := Some true; radius := Some 3%Q;
     color := Some {| r := 0; g := 0; b := 0; a := Some (1 # 2)%Q |};
     offset := Some {| x := 0; y := 1 |}; spread := Some 0%Q |}.

(** A coloured shadow with offsets, radius and spread between the pixels,
    and a black one that is nearly transparent. *)
Definition shadow_coloured : Effect :=
  {| type := "DROP_SHADOW"; visible := None; radius := Some (16 # 5)%Q;
     color := Some {| r := 1; g := (1 # 2)%Q; b := (1 # 5)%Q; a := Some (3 # 10)%Q |};
     offset := Some {| x := (3 # 2)%Q; y := (-5 # 2)%Q |}; spread := Some (1 # 2)%Q |}.

Definition shadow_faint : Effect :=
  {| type := "DROP_SHADOW"; visible := Some true; radius := Some (12 # 5)%Q;
     color := Some {| r := 0; g := 0; b := 0; a := Some (1 # 10000000)%Q |};
     offset := Some {| x := (-1 # 2)%Q; y := (149 # 100)%Q |}; spread := None |}.

Definition hidden_shadow : Effect :=
  {| type := "DROP_SHADOW"; visible := Some false; radius := Some 3%Q;
     color := None; offset := Some {| x := 2; y := 2 |}; spread := None |}.

(** *** Tree walker

    A document is a graph of JS objects: a node holds references to its
    children. References are numbers and the heap maps each to the object it
    denotes, so that shared children and back-references can be written down.
    The recursion of the source is bounded by [fuel], the depth of the call
    stack: [None] means that this depth did not suffice. The [visited] lists
    are a ghost log of the calls, in order; the source keeps no such record. *)

Definition ref := nat.

Record FigmaNode := {
  id : string;
  name : string;
  node_type : string;
  children : option (list ref);
}.

Definition heap := ref -> FigmaNode.

Record FigmaFile := {
  document : ref;
  lastModified : string;
}.

(** The [for (const child of node.children)] loop of [findInNode], [call]
    being the recursive call. *)
Fixpoint first_found (call : ref -> list ref -> option (option ref * list ref))
    (cs : list ref) (visited : list ref) : option (option ref * list ref) :=
  match cs with
  | [] => Some (None, visited)
  | child :: rest =>
      match call child visited with
      | None => None
      | Some (Some found, visited') => Some (Some found, visited')
      | Some (None, visited') => first_found call rest visited'
      end
  end.

Fixpoint findInNode (fuel : nat) (h : heap) (componentId : string)
    (node : ref) (visited : list ref) : option (option ref * list ref) :=
  match fuel with
  | O => None
  | S fuel' =>
      let visited := visited ++ [node] in
      if String.eqb (id (h node)) componentId then Some (Some node, visited)
      else match children (h node) with
           | Some cs => first_found (findInNode fuel' h componentId) cs visited
           | None => Some (None, visited)
           end
  end.

Definition findComponentInFile (fuel : nat) (h : heap) (file : FigmaFile)
    (componentId : string) : option (option ref * list ref) :=
  findInNode fuel h componentId (document file) [].

Record Walk := {
  components : list Session.ComponentListItem;
  visited : list ref;
}.

Definition is_component (node : FigmaNode) : bool :=
  String.eqb (node_type node) "COMPONENT" || String.eqb (node_type node) "COMPONENT_SET".

(** [children?.length || 0]. *)
Definition countVariants (node : FigmaNode) : nat :=
  match children node with
  | Some cs => length cs
  | None => 0
  end.

Definition extractDescription (node : FigmaNode) : option string := None.

(** The object pushed for a COMPONENT or COMPONENT_SET node. *)
Definition list_item (file_lastModified : string) (node : FigmaNode)
    : Session.ComponentListItem :=
  {| Session.id := id node;
     Session.name := name node;
     Session.type := if String.eqb (node_type node) "COMPONENT_SET"
                     then Session.COMPONENT_SET else Session.COMPONENT;
     Session.description := extractDescription node;
     Session.variantCount := if String.eqb (node_type node) "COMPONENT_SET"
                             then Some (countVariants node) else None;
     Session.item_lastModified := file_lastModified;
     Session.published := true;
     Session.thumbnail := None |}.

(** [children.forEach(traverse)]. *)
Fixpoint for_each (call : ref -> Walk -> option Walk) (cs : list ref) (w : Walk)
    : option Walk :=
  match cs with
  | [] => Some w
  | child :: rest =>
      match call child w with
      | None => None
      | Some w' => for_each call rest w'
      end
  end.

Fixpoint traverse (fuel : nat) (h : heap) (file_lastModified : string)
    (node : ref) (w : Walk) : option Walk :=
  match fuel with
  | O => None
  | S fuel' =>
      let w1 :=
        {| components :=
             if is_component (h node)
             then components w ++ [list_item file_lastModified (h node)]
             else components w;
           visited := visited w ++ [node] |} in
      match children (h node) with
      | Some cs => for_each (traverse fuel' h file_lastModified) cs w1
      | None => Some w1
      end
  end.

Definition extractComponentList (fuel : nat) (h : heap) (file : FigmaFile) : option Walk :=
  traverse fuel h (lastModified file) (document file) {| components := []; visited := [] |}.

(** *** Shapes of inputs *)

(** A finite tree of references. *)
#[local] Unset Elimination Schemes.
Inductive shape := Shape (root : ref) (kids : list shape).

#[local] Set Elimination Schemes.

Definition root (t : shape) : ref := match t with Shape r _ => r end.

Fixpoint preorder (t : shape) : list ref :=
  match t with Shape r ks => r :: flat_map preorder ks end.

Fixpoint height (t : shape) : nat :=
  match t with Shape _ ks => S (list_max (List.map height ks)) end.

Definition refs_eqb (l1 l2 : list ref) : bool := bool_decide (l1 = l2).

(** [unfolds h t]: below [root t] the heap is laid out as [t] says. *)
Fixpoint unfolds (h : heap) (t : shape) : bool :=
  match t with
  | Shape r ks =>
      match children (h r) with
      | Some cs => refs_eqb cs (List.map root ks)
      | None => match ks with [] => true | _ => false end
      end
      && forallb (unfolds h) ks
  end.

(** The prefix of [l] through the first element satisfying [p]. *)
Fixpoint through {A} (p : A -> bool) (l : list A) : list A :=
  match l with
  | [] => []
  | a :: l' => if p a then [a] else a :: through p l'
  end.

Definition collected (h : heap) (file_lastModified : string) (l : list ref)
    : list Session.ComponentListItem :=
  flat_map (fun r => if is_component (h r) then [list_item file_lastModified (h r)] else []) l.

(** The walk [w] continued through the nodes [l]. *)
Definition extend (h : heap) (file_lastModified : string) (w : Walk) (l : list ref) : Walk :=
  {| components := components w ++ collected h file_lastModified l;
     visited := visited w ++ l |}.

Definition has_id (h : heap) (componentId : string) (r : ref) : bool :=
  String.eqb (id (h r)) componentId.

Definition file0 : FigmaFile := {| document := 0%nat; lastModified := "2024-01-01T00:00:00Z" |}.

Definition frame (i : string) (cs : list ref) : FigmaNode :=
  {| id := i; name := "Frame"; node_type := "FRAME"; children := Some cs |}.

Definition button : FigmaNode :=
  {| id := "1:2"; name := "Button"; node_type := "COMPONENT"; children := None |}.

(** A page that lists itself among its children. *)
Definition h_cycle : heap := fun _ => frame "0:1" [0%nat].

(** A page whose two children are one and the same component object. *)
Definition h_shared : heap :=
  fun r => match r with O => frame "0:1" [1%nat; 1%nat] | _ => button end.

(** A page with two frames, the second holding a component. *)
Definition h_tree : heap :=
  fun r => match r with
           | 0%nat => frame "0:1" [1%nat; 2%nat]
           | 1%nat => frame "1:1" []
           | 2%nat => frame "1:3" [3%nat]
           | _ => button
           end.

Definition t_tree : shape :=
  Shape 0%nat [Shape 1%nat []; Shape 2%nat [Shape 3%nat []]].

End Extractor.

(** *** The text of a shadow, from the format
    [offset-x offset-y blur-radius spread-radius color] *)

Module ShadowSpec.
Import Extractor.

(** A length in whole pixels: the integer nearest to the number, halves
    upwards. *)
Definition pixels (q : Q) : string :=
  JS.Number_toString (inject_Z (JS.Math_round (JS.double q))) +:+ "px".

(** A channel given between 0 and 1, on the scale from 0 to 255. *)
Definition channel (c : Q) : string :=
  JS.Number_toString (inject_Z (JS.Math_round (JS.double (JS.double c * 255)%Q))).

Definition colour (c : RGBA) : string :=
  "rgba(" +:+ channel (r c) +:+ ", " +:+ channel (g c) +:+ ", " +:+ channel (b c)
  +:+ ", " +:+ JS.Number_toString (default 1%Q (a c)) +:+ ")".

(** The shadow of an effect with offset [o] and radius [rad]: a missing
    spread is 0, a missing colour is black at a quarter. *)
Definition shadow (e : Effect) (o : Vector) (rad : Q) : string :=
  pixels (x o) +:+ " " +:+ pixels (y o) +:+ " " +:+ pixels rad +:+ " "
  +:+ pixels (default 0%Q (spread e)) +:+ " "
  +:+ match color e with
      | Some c => colour c
      | None => "rgba(0, 0, 0, 0.25)"
      end.

End ShadowSpec.

(** ** Token synthesizer (src/extractors/design-tokens.ts) *)

Module Tokens.

(** A call that may throw. *)
Inductive result (A : Type) :=
| Threw
| Returned (a : A).
Arguments Threw {A}.
Arguments Returned {A} a.

(** The values a variable holds per mode, and the values of tokens. *)
Inductive VariableValue :=
| VBoolean (b : bool)
| VNumber (q : Q)
| VString (s : string)
| VColor (c : Extractor.RGBA)
| VAlias (id : string)
| VNull.

(** JS truthiness: [false], [0], [""] and [null] are falsy, objects are not. *)
Definition truthy (v : VariableValue) : bool :=
  match v with
  | VBoolean b => b
  | VNumber q => negb (Qeq_bool q 0)
  | VString s => match s with EmptyString => false | _ => true end
  | VColor _ | VAlias _ => true
  | VNull => false
  end.

Inductive TokenType :=
| Tcolor | Ttypography | Tspacing | Teffect | Tcontent | Tboolean | Tunknown.

Record DesignToken := {
  name : string;
  value : VariableValue;
  type : TokenType;
  description : option string;
  category : option string;
  usage : option (list string);
  collectionName : option string;
  variableId : option string;
  modes : option (gmap string VariableValue);
}.

Record Metadata := {
  variablesAvailable : bool;
  variablesMessage : option string;
  planRequired : option string;
}.

Record TokenCollection := {
  colors : list DesignToken;
  typography : list DesignToken;
  spacing : list DesignToken;
  effects : list DesignToken;
  variables : list DesignToken;
  _metadata : option Metadata;
}.

Record Mode := { modeId : string; mode_name : string }.

Record VariableCollection := {
  c_id : string;
  c_name : string;
  defaultModeId : option string;
  c_modes : option (list Mode);
}.

Record FigmaVariable := {
  v_id : string;
  v_name : string;
  variableCollectionId : string;
  resolvedType : string;
  valuesByMode : option (gmap string VariableValue);
  v_description : option string;
}.

(** [n.toString(16).padStart(2, '0')]. *)
Definition hex2 (n : Z) : string :=
  let s := HexadecimalString.NilZero.string_of_int (Z.to_hex_int n) in
  match s with
  | String c EmptyString => String "0" (String c EmptyString)
  | EmptyString => "00"
  | _ => s
  end.

Definition rgbaToHex (rgba : Extractor.RGBA) : string :=
  "#" +:+ hex2 (JS.Math_round (JS.fmul (JS.double (Extractor.r rgba)) 255))
      +:+ hex2 (JS.Math_round (JS.fmul (JS.double (Extractor.g rgba)) 255))
      +:+ hex2 (JS.Math_round (JS.fmul (JS.double (Extractor.b rgba)) 255)).

(** [rgbaToHex] reads [.r], [.g], [.b]: on a value that is no colour they
    are undefined and the digits are NaN; on null the read throws. *)
Definition processVariableValue (value' : VariableValue) (type' : string)
    : result VariableValue :=
  if String.eqb type' "COLOR" then
    match value' with
    | VColor c => Returned (VString (rgbaToHex c))
    | VNull => Threw
    | _ => Returned (VString "#NaNNaNNaN")
    end
  else Returned value'.

Definition mapVariableTypeToTokenType (type' : string) : TokenType :=
  if String.eqb type' "COLOR" then Tcolor
  else if String.eqb type' "FLOAT" then Tspacing
  else if String.eqb type' "STRING" then Tcontent
  else if String.eqb type' "BOOLEAN" then Tboolean
  else Tunknown.

Definition is_slug_char (c : ascii) : bool :=
  let n := nat_of_ascii c in
  ((97 <=? n) && (n <=? 122) || (48 <=? n) && (n <=? 57))%nat.

(** [.replace(/[^a-z0-9]/g, '-')] *)
Fixpoint dash_others (s : string) : string :=
  match s with
  | EmptyString => EmptyString
  | String c s' => String (if is_slug_char c then c else "-"%char) (dash_others s')
  end.

(** [.replace(/-+/g, '-')] *)
Fixpoint squeeze_dashes (s : string) : string :=
  match s with
  | EmptyString => EmptyString
  | String c s' =>
      match s' with
      | String d _ =>
          if Ascii.eqb c "-" && Ascii.eqb d "-" then squeeze_dashes s'
          else String c (squeeze_dashes s')
      | EmptyString => String c EmptyString
      end
  end.

Fixpoint drop_last_dash (s : string) : string :=
  match s with
  | EmptyString => EmptyString
  | String c EmptyString => if Ascii.eqb c "-" then EmptyString else s
  | String c s' => String c (drop_last_dash s')
  end.

(** [.replace(/^-|-$/g, '')] *)
Definition trim_dashes (s : string) : string :=
  match s with
  | String c s' => if Ascii.eqb c "-" then drop_last_dash s' else drop_last_dash s
  | EmptyString => EmptyString
  end.

Definition normalizeTokenName (name' : string) : string :=
  trim_dashes (squeeze_dashes (dash_others (JS.toLowerCase name'))).

Definition categoryMap : list (string * list string) :=
  [("primary", ["primary"; "main"; "brand"]);
   ("secondary", ["secondary"; "accent"]);
   ("neutral", ["neutral"; "gray"; "grey"; "black"; "white"]);
   ("semantic", ["success"; "error"; "warning"; "info"; "danger"]);
   ("text", ["text"; "foreground"; "content"]);
   ("background", ["background"; "surface"; "backdrop"]);
   ("border", ["border"; "outline"; "stroke"])].

Definition inferColorCategory (name' : string) : string :=
  let lowercaseName := JS.toLowerCase name' in
  match List.find (fun entry => existsb (JS.includes lowercaseName) (snd entry)) categoryMap with
  | Some (category', _) => category'
  | None => "miscellaneous"
  end.

Definition inferVariableCategory (name' type' : string) : string :=
  let lowercaseName := JS.toLowerCase name' in
  if String.eqb type' "COLOR" then inferColorCategory name'
  else if String.eqb type' "FLOAT" then
    if JS.includes lowercaseName "spacing" || JS.includes lowercaseName "gap"
       || JS.includes lowercaseName "margin" || JS.includes lowercaseName "padding"
    then "spacing"
    else if JS.includes lowercaseName "border" || JS.includes lowercaseName "stroke"
    then "border"
    else if JS.includes lowercaseName "radius" || JS.includes lowercaseName "corner"
    then "radius"
    else "dimension"
  else if String.eqb type' "STRING" then
    if JS.includes lowercaseName "font" || JS.includes lowercaseName "family"
    then "font-family"
    else "content"
  else "miscellaneous".

(** [processModes]: every mode's value converted; throws when one does. *)
Definition processModes (valuesByMode' : gmap string VariableValue) (type' : string)
    : result (gmap string VariableValue) :=
  fold_right
    (fun kv acc =>
       match acc, processVariableValue (snd kv) type' with
       | Returned m, Returned v => Returned (<[fst kv := v]> m)
       | _, _ => Threw
       end)
    (Returned ∅) (map_to_list valuesByMode').

(** [new Map(variableCollections.map(c => [c.id, c]))]: a later collection
    with the same id replaces an earlier one. *)
Definition collections_map (variableCollections : list VariableCollection)
    : gmap string VariableCollection :=
  fold_left (fun m c => <[c_id c := c]> m) variableCollections ∅.

(** [collection?.defaultModeId || collection?.modes?.[0]?.modeId] *)
Definition default_mode_id (collection : option VariableCollection) : option string :=
  match collection with
  | None => None
  | Some c =>
      match defaultModeId c with
      | Some (String _ _ as m) => Some m
      | _ => match c_modes c with
             | Some (first :: _) => Some (modeId first)
             | _ => None
             end
      end
  end.

(** [valuesByMode[defaultModeId]]: an undefined key reads the property
    named ["undefined"]. *)
Definition default_value (variable : FigmaVariable)
    (collectionsMap : gmap string VariableCollection) : option VariableValue :=
  let collection := collectionsMap !! variableCollectionId variable in
  let valuesByMode' := default ∅ (valuesByMode variable) in
  valuesByMode' !! default "undefined" (default_mode_id collection).

(** [s || undefined] *)
Definition nonempty (s : option string) : option string :=
  match s with
  | Some (String _ _) => s
  | _ => None
  end.

Definition convertVariableToToken (variable : FigmaVariable)
    (collectionsMap : gmap string VariableCollection) : result (option DesignToken) :=
  let collection := collectionsMap !! variableCollectionId variable in
  let collectionName' := JS.str_or (default "" (c_name <$> collection)) "unknown" in
  let valuesByMode' := default ∅ (valuesByMode variable) in
  match default_value variable collectionsMap with
  | None => Returned None
  | Some defaultValue =>
      if negb (truthy defaultValue) then Returned None
      else
        let tokenName := normalizeTokenName (collectionName' +:+ "-" +:+ v_name variable) in
        match processVariableValue defaultValue (resolvedType variable) with
        | Threw => Threw
        | Returned value' =>
            let modes' :=
              if (1 <? size valuesByMode')%nat
              then match processModes valuesByMode' (resolvedType variable) with
                   | Threw => Threw
                   | Returned m => Returned (Some m)
                   end
              else Returned None in
            match modes' with
            | Threw => Threw
            | Returned modes'' =>
                Returned (Some
                  {| name := tokenName;
                     value := value';
                     type := mapVariableTypeToTokenType (resolvedType variable);
                     description := nonempty (v_description variable);
                     category := Some (inferVariableCategory (v_name variable)
                                                             (resolvedType variable));
                     usage := None;
                     collectionName := Some collectionName';
                     variableId := Some (v_id variable);
                     modes := modes'' |})
            end
        end
  end.

Inductive CollectionKey := Kcolors | Ktypography | Kspacing | Keffects.

Definition getCollectionFromCategory (category' : string) : option CollectionKey :=
  if existsb (String.eqb category')
       ["primary"; "secondary"; "neutral"; "semantic"; "text"; "background"; "border"]
  then Some Kcolors
  else if existsb (String.eqb category') ["spacing"; "dimension"; "radius"]
  then Some Kspacing
  else if String.eqb category' "font-family" then Some Ktypography
  else if existsb (String.eqb category') ["shadows"; "blur"; "glow"]
  then Some Keffects
  else None.

Definition getCollectionFromTokenType (type' : TokenType) : option CollectionKey :=
  match type' with
  | Tcolor => Some Kcolors
  | Ttypography => Some Ktypography
  | Teffect => Some Keffects
  | Tspacing | Tcontent | Tboolean | Tunknown => Some Kspacing
  end.

Definition push_into (k : CollectionKey) (token : DesignToken) (tokens : TokenCollection)
    : TokenCollection :=
  match k with
  | Kcolors =>
      {| colors := colors tokens ++ [token]; typography := typography tokens;
         spacing := spacing tokens; effects := effects tokens;
         variables := variables tokens; _metadata := _metadata tokens |}
  | Ktypography =>
      {| colors := colors tokens; typography := typography tokens ++ [token];
         spacing := spacing tokens; effects := effects tokens;
         variables := variables tokens; _metadata := _metadata tokens |}
  | Kspacing =>
      {| colors := colors tokens; typography := typography tokens;
         spacing := spacing tokens ++ [token]; effects := effects tokens;
         variables := variables tokens; _metadata := _metadata tokens |}
  | Keffects =>
      {| colors := colors tokens; typography := typography tokens;
         spacing := spacing tokens; effects := effects tokens ++ [token];
         variables := variables tokens; _metadata := _metadata tokens |}
  end.

Definition push_variable (token : DesignToken) (tokens : TokenCollection) : TokenCollection :=
  {| colors := colors tokens; typography := typography tokens;
     spacing := spacing tokens; effects := effects tokens;
     variables := variables tokens ++ [token]; _metadata := _metadata tokens |}.

Definition with_metadata (md : option Metadata) (tokens : TokenCollection) : TokenCollection :=
  {| colors := colors tokens; typography := typography tokens;
     spacing := spacing tokens; effects := effects tokens;
     variables := variables tokens; _metadata := md |}.

(** The body of the loop over the variables, its [try]/[catch] included. *)
Definition process_variable (collectionsMap : gmap string VariableCollection)
    (tokens : TokenCollection) (variable : FigmaVariable) : TokenCollection :=
  match convertVariableToToken variable collectionsMap with
  | Returned (Some token) =>
      let tokens' := push_variable token tokens in
      match category token with
      | Some (String _ _ as category') =>
          match getCollectionFromCategory category' with
          | Some k => push_into k token tokens'
          | None => tokens'
          end
      | _ => tokens'
      end
  | Returned None | Threw => tokens
  end.

Definition filterTokenTypes (tokens : TokenCollection) (tokenTypes : list string)
    : TokenCollection :=
  if JS.array_includes tokenTypes "all" then tokens
  else
    {| colors := if JS.array_includes tokenTypes "colors" then colors tokens else [];
       typography := if JS.array_includes tokenTypes "typography"
                      then typography tokens else [];
       spacing := if JS.array_includes tokenTypes "spacing" then spacing tokens else [];
       effects := if JS.array_includes tokenTypes "effects" then effects tokens else [];
       variables := if JS.array_includes tokenTypes "variables"
                    then variables tokens else [];
       _metadata := None |}.

(** A failed request of the API client. *)
Record ApiError := { status : option Z; message : option string }.

(** [error.message?.includes(s)] *)
Definition message_includes (e : ApiError) (s : string) : bool :=
  match message e with
  | Some m => JS.includes m s
  | None => false
  end.

(** The metadata the [catch] block stores in the global. *)
Definition metadata_of_error (error : ApiError) : Metadata :=
  if bool_decide (status error = Some 403) then
    if message_includes error "file_variables:read" then
      {| variablesAvailable := false;
         variablesMessage :=
           Some "Figma Variables require Enterprise plan. Using legacy styles only.";
         planRequired := Some "Enterprise" |}
    else if message_includes error "scope" then
      {| variablesAvailable := false;
         variablesMessage :=
           Some "Insufficient permissions for Variables API. May require Enterprise plan.";
         planRequired := Some "Enterprise" |}
    else
      {| variablesAvailable := false;
         variablesMessage := Some "Access denied to Variables API";
         planRequired := None |}
  else
    {| variablesAvailable := false;
       variablesMessage := Some "Variables API temporarily unavailable";
       planRequired := None |}.

(** The process: the token cache and the global
    [__figmaVariablesMetadata]. *)
Record World := {
  cache : Cache.CacheService TokenCollection;
  figmaVariablesMetadata : option Metadata;
}.

(** The arguments of [extractTokens]: an object with a string [fileId] and
    an array of strings [tokenTypes]; an absent [tokenTypes] is written as
    [["all"]], the schema's default, and [format], which the extractor does
    not read, is left out. *)
Record Args := { fileId : string; tokenTypes : list string }.

Definition tokenTypeNames : list string :=
  ["colors"; "typography"; "spacing"; "effects"; "variables"; "all"].

(** [GetDesignTokensArgsSchema.parse(args)]: a [fileId] of at least one
    character and token types of the enumeration, or a ZodError. *)
Definition GetDesignTokensArgsSchema_parse (args : Args) : result Args :=
  match fileId args with
  | EmptyString => Threw
  | String _ _ =>
      if forallb (JS.array_includes tokenTypeNames) (tokenTypes args)
      then Returned args
      else Threw
  end.

Section Synthesizer.

(** The legacy-style half of the synthesizer is a parameter: the type of the
    style records and their conversion, which may throw. *)
Context {FigmaStyle : Type}.
Variable convertStyleToToken : FigmaStyle -> result (option DesignToken).

(** The API client: the two requests the synthesizer makes. *)
Variable getFileStyles : string -> ApiError + list FigmaStyle.
Variable getLocalVariables : string -> ApiError + (list FigmaVariable * list VariableCollection).

Definition process_style (tokens : TokenCollection) (style : FigmaStyle) : TokenCollection :=
  match convertStyleToToken style with
  | Returned (Some token) =>
      match getCollectionFromTokenType (type token) with
      | Some k => push_into k token tokens
      | None => tokens
      end
  | Returned None | Threw => tokens
  end.

Definition processStylesAndVariables (styles : list FigmaStyle)
    (variables' : list FigmaVariable) (variableCollections : list VariableCollection)
    : TokenCollection :=
  let tokens :=
    {| colors := []; typography := []; spacing := []; effects := []; variables := [];
       _metadata := Some {| variablesAvailable := true; variablesMessage := None;
                            planRequired := None |} |} in
  let tokens := fold_left process_style styles tokens in
  let collectionsMap := collections_map variableCollections in
  fold_left (process_variable collectionsMap) variables' tokens.

Definition extractTokens (w : World) (args : Args) (now : Z)
    : result TokenCollection * World :=
  match GetDesignTokensArgsSchema_parse args with
  | Threw => (Threw, w)
  | Returned validatedArgs =>
  let fileId' := fileId validatedArgs in
  let tokenTypes' := tokenTypes validatedArgs in
  let cacheKey := Cache.key_designTokens fileId' in
  let '(cached, cache1) := Cache.get (cache w) cacheKey now in
  let w1 := {| cache := cache1; figmaVariablesMetadata := figmaVariablesMetadata w |} in
  match cached with
  | Some cached' => (Returned (filterTokenTypes cached' tokenTypes'), w1)
  | None =>
      match getFileStyles fileId' with
      | inl _ => (Threw, w1)
      | inr styles =>
          let '(variables', variableCollections, global) :=
            match getLocalVariables fileId' with
            | inr (vs, cs) => (vs, cs, figmaVariablesMetadata w1)
            | inl error => ([], [], Some (metadata_of_error error))
            end in
          let tokens := processStylesAndVariables styles variables' variableCollections in
          let tokens :=
            match global with
            | Some variablesMetadata => with_metadata (Some variablesMetadata) tokens
            | None => tokens
            end in
          let cache2 := Cache.set cache1 cacheKey tokens (Some Cache.ttl_designTokens) now in
          let filtered := filterTokenTypes tokens tokenTypes' in
          let filtered :=
            match _metadata tokens with
            | Some md => with_metadata (Some md) filtered
            | None => filtered
            end in
          (Returned filtered, {| cache := cache2; figmaVariablesMetadata := global |})
      end
  end
  end.

End Synthesizer.

(** A client whose token lacks the scope for variables. *)
Definition no_styles {FigmaStyle : Type} : string -> ApiError + list FigmaStyle :=
  fun _ => inr [].

Definition variables_forbidden
    : string -> ApiError + (list FigmaVariable * list VariableCollection) :=
  fun _ => inl {| status := Some 403;
                  message := Some "Invalid scope: file_variables:read is required" |}.

Definition fresh_world : World :=
  {| cache := Cache.default_cache TokenCollection; figmaVariablesMetadata := None |}.

Definition colors_only : Args := {| fileId := "F1"; tokenTypes := ["colors"] |}.

Definition enterprise_only : Metadata :=
  {| variablesAvailable := false;
     variablesMessage :=
       Some "Figma Variables require Enterprise plan. Using legacy styles only.";
     planRequired := Some "Enterprise" |}.

(** A collection with one mode and three variables that hold falsy values
    in it. *)
Definition theme : VariableCollection :=
  {| c_id := "VC1"; c_name := "Theme"; defaultModeId := Some "m1";
     c_modes := Some [{| modeId := "m1"; mode_name := "Light" |}] |}.

Definition flag_off : FigmaVariable :=
  {| v_id := "V1"; v_name := "dark-mode"; variableCollectionId := "VC1";
     resolvedType := "BOOLEAN"; valuesByMode := Some {[ "m1" := VBoolean false ]};
     v_description := None |}.

Definition flag_on : FigmaVariable :=
  {| v_id := "V2"; v_name := "rounded"; variableCollectionId := "VC1";
     resolvedType := "BOOLEAN"; valuesByMode := Some {[ "m1" := VBoolean true ]};
     v_description := None |}.

End Tokens.

(** ** Session store housekeeping (src/services/session.ts) *)

Module SessionAdmin.
Import Session.

(** [cleanup]: the loop deletes every session with [now - setAt > 24h];
    deleting the current key while iterating a [Map] is safe. *)
Definition cleanup (st : sessions) (now : Z) : sessions :=
  filter (fun kv => ~ (now - setAt kv.2 > SESSION_TTL)) st.

Definition getSessionCount (st : sessions) : nat := size st.

End SessionAdmin.

(** ** Cache invalidation (src/services/cache.ts) *)

Module CacheAdmin.
Import Cache.

Section Invalidate.

Context {T : Type}.

(** Modelled from the spec: [LRUCache.keys()], the keys of the entries
    that are not stale, most recently used first. *)
Definition lru_keys (m : LRUCache T) (now : Z) : list string :=
  List.map key (List.filter (fun it => negb (isStale m it now)) (items m)).

(** [invalidatePattern(pattern)]; [regex_test] stands for
    [new RegExp(pattern).test], a function of the key alone since the
    expression has no flags. *)
Definition invalidatePattern (regex_test : string -> bool) (c : CacheService T) (now : Z)
    : CacheService T :=
  let keysToDelete := List.filter regex_test (lru_keys (memoryCache c) now) in
  with_cache c (fold_left lru_delete keysToDelete (memoryCache c)).

(** [getStats().size] *)
Definition stats_size (c : CacheService T) : nat := length (items (memoryCache c)).

End Invalidate.

End CacheAdmin.

(** ** Shapes of token names *)

Module TokensSpec.
Import Tokens.

Definition is_dash (c : ascii) : bool := Ascii.eqb c "-".

(** Every character is a lower-case letter, a digit or a dash. *)
Fixpoint slug_chars (s : string) : bool :=
  match s with
  | EmptyString => true
  | String c s' => (is_slug_char c || is_dash c) && slug_chars s'
  end.

(** No two dashes in a row. *)
Fixpoint single_dashes (s : string) : bool :=
  match s with
  | String c (String d _ as s') => negb (is_dash c && is_dash d) && single_dashes s'
  | _ => true
  end.

Definition starts_with_dash (s : string) : bool :=
  match s with
  | String c _ => is_dash c
  | EmptyString => false
  end.

Fixpoint ends_with_dash (s : string) : bool :=
  match s with
  | EmptyString => false
  | String c EmptyString => is_dash c
  | String _ s' => ends_with_dash s'
  end.

(** A slug: lower-case letters and digits in groups separated by single
    dashes, possibly empty. *)
Definition is_slug (s : string) : bool :=
  slug_chars s && single_dashes s && negb (starts_with_dash s) && negb (ends_with_dash s).

End TokensSpec.

(** ** Scenarios for the token synthesizer *)

Module TokensScenarios.
Import Tokens.

(** A FLOAT variable named after a border, with a single mode. *)
Definition border_width : FigmaVariable :=
  {| v_id := "V3"; v_name := "border-width"; variableCollectionId := "VC1";
     resolvedType := "FLOAT"; valuesByMode := Some {[ "m1" := VNumber 2%Q ]};
     v_description := None |}.

(** A variable whose collection is not among the collections returned. *)
Definition orphan : FigmaVariable :=
  {| v_id := "V4"; v_name := "gap"; variableCollectionId := "VC9";
     resolvedType := "FLOAT"; valuesByMode := Some {[ "m1" := VNumber 8%Q ]};
     v_description := None |}.

Definition empty_tokens : TokenCollection :=
  {| colors := []; typography := []; spacing := []; effects := []; variables := [];
     _metadata := None |}.

(** A client that is refused the variables of file F1 and served those of
    every other file. *)
Definition variables_forbidden_for_F1
    : string -> ApiError + (list FigmaVariable * list VariableCollection) :=
  fun fileId' =>
    if String.eqb fileId' "F1"
    then inl {| status := Some 403;
                message := Some "Invalid scope: file_variables:read is required" |}
    else inr ([flag_on], [theme]).

Definition all_of (fileId' : string) : Args := {| fileId := fileId'; tokenTypes := ["all"] |}.

(** What a variable of a type other than COLOR converts to. *)
Definition plain_token (variable : FigmaVariable)
    (collectionsMap : gmap string VariableCollection) (v : VariableValue) : DesignToken :=
  {| name := normalizeTokenName
               (JS.str_or (default "" (c_name <$> collectionsMap !! variableCollectionId variable))
                          "unknown" +:+ "-" +:+ v_name variable);
     value := v;
     type := mapVariableTypeToTokenType (resolvedType variable);
     description := nonempty (v_description variable);
     category := Some (inferVariableCategory (v_name variable) (resolvedType variable));
     usage := None;
     collectionName :=
       Some (JS.str_or (default "" (c_name <$> collectionsMap !! variableCollectionId variable))
                       "unknown");
     variableId := Some (v_id variable);
     modes := if (1 <? size (default ∅ (valuesByMode variable)))%nat
              then Some (default ∅ (valuesByMode variable)) else None |}.

End TokensScenarios.

(** ** Component extractor: interface, accessibility and listing
    (src/extractors/component.ts) *)

Module ExtractorMore.
Import Extractor.

Definition interactiveNames : list string :=
  ["button"; "link"; "input"; "select"; "checkbox"; "radio"].

Definition isInteractiveComponent (component : FigmaNode) : bool :=
  existsb (fun name' => JS.includes (JS.toLowerCase (name component)) name') interactiveNames.

Definition inferAriaRole (component : FigmaNode) : option string :=
  let name' := JS.toLowerCase (name component) in
  if JS.includes name' "button" then Some "button"
  else if JS.includes name' "link" then Some "link"
  else if JS.includes name' "input" then Some "textbox"
  else None.

Record KeyBinding := { key : string; action : string }.

Definition extractKeyboardNavigation (component : FigmaNode) : list KeyBinding :=
  if isInteractiveComponent component
  then [{| key := "Enter"; action := "activate" |}; {| key := "Space"; action := "activate" |}]
  else [].

Record Accessibility := {
  role : option string;
  keyboardNavigation : list KeyBinding;
}.

Definition extractAccessibility (component : FigmaNode) : Accessibility :=
  {| role := inferAriaRole component;
     keyboardNavigation := extractKeyboardNavigation component |}.

Record EventSpec := { ev_name : string; ev_type : string; ev_description : string }.

(** The [events] of [generateComponentInterface]. *)
Definition interface_events (component : FigmaNode) : list EventSpec :=
  if isInteractiveComponent component
  then [{| ev_name := "click"; ev_type := "Event";
           ev_description := "Fired when component is clicked" |}]
  else [].

Definition mapFigmaTypeToGeneric (figmaType : string) : string :=
  if String.eqb figmaType "BOOLEAN" then "boolean"
  else if String.eqb figmaType "TEXT" then "string"
  else if String.eqb figmaType "INSTANCE_SWAP" then "Component"
  else if String.eqb figmaType "VARIANT" then "string"
  else "any".

(** The validated filter of [listComponents]. *)
Record ComponentFilter := {
  f_type : option Session.ComponentType;
  f_name : option string;
  f_published : option bool;
}.

Definition ComponentType_eqb (a b : Session.ComponentType) : bool :=
  match a, b with
  | Session.COMPONENT, Session.COMPONENT
  | Session.COMPONENT_SET, Session.COMPONENT_SET => true
  | _, _ => false
  end.

Section Listing.

(** [RegExp pattern] stands for [new RegExp(pattern, 'i')]: the [test] of
    the compiled expression, or nothing where the constructor throws a
    SyntaxError on a malformed pattern. *)
Variable RegExp : string -> option (string -> bool).

(** The callback of [components.filter] in [applyFilters]; the expression is
    compiled for each component that gets past the type check. *)
Definition passes (filter : ComponentFilter) (component : Session.ComponentListItem)
    : Tokens.result bool :=
  if match f_type filter with
     | Some t => negb (ComponentType_eqb (Session.type component) t)
     | None => false
     end
  then Tokens.Returned false
  else
    let published_ok :=
      if match f_published filter with
         | Some p => negb (Bool.eqb (Session.published component) p)
         | None => false
         end
      then false else true in
    match f_name filter with
    | Some (String _ _ as pattern) =>
        match RegExp pattern with
        | None => Tokens.Threw
        | Some test =>
            if negb (test (Session.name component)) then Tokens.Returned false
            else Tokens.Returned published_ok
        end
    | _ => Tokens.Returned published_ok
    end.

(** [Array.prototype.filter] with a callback that may throw. *)
Fixpoint array_filter {A} (callback : A -> Tokens.result bool) (l : list A)
    : Tokens.result (list A) :=
  match l with
  | [] => Tokens.Returned []
  | x :: rest =>
      match callback x with
      | Tokens.Threw => Tokens.Threw
      | Tokens.Returned keep =>
          match array_filter callback rest with
          | Tokens.Threw => Tokens.Threw
          | Tokens.Returned kept => Tokens.Returned (if keep then x :: kept else kept)
          end
      end
  end.

Definition applyFilters (components : list Session.ComponentListItem)
    (filter : option ComponentFilter) : Tokens.result (list Session.ComponentListItem) :=
  match filter with
  | None => Tokens.Returned components
  | Some f => array_filter (passes f) components
  end.

Record Listing := {
  listed : list Session.ComponentListItem;
  totalCount : nat;
  hasMore : bool;
}.

(** What [listComponents] answers from a list of components. *)
Definition answer (components : list Session.ComponentListItem)
    (filter : option ComponentFilter) : Tokens.result Listing :=
  match applyFilters components filter with
  | Tokens.Threw => Tokens.Threw
  | Tokens.Returned filteredComponents =>
      Tokens.Returned {| listed := filteredComponents;
                         totalCount := length filteredComponents;
                         hasMore := false |}
  end.

(** The API client's [getFile]: the document arrives as a heap of nodes and
    the file record pointing into it. *)
Variable getFile : string -> Tokens.ApiError + (heap * FigmaFile).

(** [listComponents]; the outer [None] means that the call depth [fuel] did
    not suffice for the traversal of the document. The list is put into the
    cache before the filter runs. *)
Definition listComponents (fuel : nat)
    (cache : Cache.CacheService (list Session.ComponentListItem))
    (fileId : string) (filter : option ComponentFilter) (now : Z)
    : option (Tokens.result Listing * Cache.CacheService (list Session.ComponentListItem)) :=
  let cacheKey := Cache.key_componentList fileId in
  let '(cached, cache1) := Cache.get cache cacheKey now in
  let finish components cache' :=
    match applyFilters components filter with
    | Tokens.Threw => Some (Tokens.Threw, cache')
    | Tokens.Returned filteredComponents =>
        Some (Tokens.Returned {| listed := filteredComponents;
                                 totalCount := length filteredComponents;
                                 hasMore := false |}, cache')
    end in
  match cached with
  | Some components => finish components cache1
  | None =>
      match getFile fileId with
      | inl _ => Some (Tokens.Threw, cache1)
      | inr (h, file) =>
          match extractComponentList fuel h file with
          | None => None
          | Some w =>
              finish (components w)
                     (Cache.set cache1 cacheKey (components w)
                                (Some Cache.ttl_componentList) now)
          end
      end
  end.

End Listing.

(** A layer blur without a radius, a shadow without an offset, and an effect
    of a type the converter does not know. *)
Definition blur_no_radius : Effect :=
  {| type := "LAYER_BLUR"; visible := None; radius := None; color := None;
     offset := None; spread := None |}.

Definition layer_blur_4 : Effect :=
  {| type := "LAYER_BLUR"; visible := None; radius := Some 4%Q; color := None;
     offset := None; spread := None |}.

Definition a_button : FigmaNode :=
  {| id := "1:2"; name := "Primary Button"; node_type := "COMPONENT"; children := None |}.

Definition only_unpublished : ComponentFilter :=
  {| f_type := None; f_name := None; f_published := Some false |}.

Definition serve_tree : string -> Tokens.ApiError + (heap * FigmaFile) :=
  fun _ => inr (h_tree, file0).

Definition refuse_file : string -> Tokens.ApiError + (heap * FigmaFile) :=
  fun _ => inl {| Tokens.status := Some 404; Tokens.message := Some "Not found" |}.

End ExtractorMore.

(** ** The criteria of a component filter *)

Module FiltersSpec.
Import ExtractorMore.

(** The component has the type asked for, if one is. *)
Definition type_matches (f : ComponentFilter) (c : Session.ComponentListItem) : bool :=
  match f_type f with
  | Some t => ComponentType_eqb (Session.type c) t
  | None => true
  end.

(** The component meets every criterion given; [test] is the compiled name
    pattern, consulted when a non-empty pattern is given. *)
Definition meets (test : string -> bool) (f : ComponentFilter)
    (c : Session.ComponentListItem) : bool :=
  type_matches f c
  && match f_name f with
     | Some (String _ _) => test (Session.name c)
     | _ => true
     end
  && match f_published f with
     | Some b => Bool.eqb (Session.published c) b
     | None => true
     end.

(** The filter gives no name pattern, or one that compiles to [test]. *)
Definition compiles (RegExp : string -> option (string -> bool)) (f : ComponentFilter)
    (test : string -> bool) : Prop :=
  match f_name f with
  | Some (String _ _ as pattern) => RegExp pattern = Some test
  | _ => True
  end.

End FiltersSpec.

(** ** Combining converted effects *)

Module EffectsSpec.
Import Extractor.

(** Two optional texts joined by [sep] when both are there. *)
Definition glue (sep : string) (a b : option string) : option string :=
  match a, b with
  | Some x, Some y => Some (x +:+ sep +:+ y)
  | Some x, None => Some x
  | None, _ => b
  end.

(** The styles of two runs of effects put together: shadows and filters side
    by side, the later backdrop filter in front of the earlier. *)
Definition combine (first second : EffectCSS) : EffectCSS :=
  {| boxShadow := glue ", " (boxShadow first) (boxShadow second);
     filter := glue " " (filter first) (filter second);
     backdropFilter := match backdropFilter second with
                       | Some b => Some b
                       | None => backdropFilter first
                       end |}.

Definition merge (a b : Collected) : Collected :=
  {| shadows := shadows a ++ shadows b;
     filters := filters a ++ filters b;
     backdrop := match backdrop b with Some x => Some x | None => backdrop a end |}.

Definition known_effect_type (t : string) : bool :=
  String.eqb t "DROP_SHADOW" || String.eqb t "INNER_SHADOW"
  || String.eqb t "LAYER_BLUR" || String.eqb t "BACKGROUND_BLUR".

Definition is_shadow_type (t : string) : bool :=
  String.eqb t "DROP_SHADOW" || String.eqb t "INNER_SHADOW".

Definition is_blur_type (t : string) : bool :=
  String.eqb t "LAYER_BLUR" || String.eqb t "BACKGROUND_BLUR".

(** An effect that is hidden, of a type the converter does not know, a
    shadow without offset or radius, or a blur without a positive radius. *)
Definition inert (e : Effect) : bool :=
  match visible e with Some false => true | _ => false end
  || negb (known_effect_type (type e))
  || is_shadow_type (type e)
     && (match offset e with None => true | _ => false end
         || match radius e with None => true | _ => false end)
  || is_blur_type (type e)
     && match radius e with None => true | Some q => Qle_bool q 0 end.

End EffectsSpec.

(** ** Argument validation (src/utils/validation.ts) *)

Module Validation.

Definition is_digit (c : ascii) : bool :=
  let n := nat_of_ascii c in ((48 <=? n) && (n <=? 57))%nat.

(** The class [[a-zA-Z0-9_-]]. *)
Definition is_id_char (c : ascii) : bool :=
  let n := nat_of_ascii c in
  ((97 <=? n) && (n <=? 122) || (65 <=? n) && (n <=? 90) || (48 <=? n) && (n <=? 57)
   || (n =? 95) || (n =? 45))%nat.

(** The class [[A-Fa-f0-9]]. *)
Definition is_hex_digit (c : ascii) : bool :=
  let n := nat_of_ascii c in
  ((65 <=? n) && (n <=? 70) || (97 <=? n) && (n <=? 102) || (48 <=? n) && (n <=? 57))%nat.

Fixpoint all_chars (p : ascii -> bool) (s : string) : bool :=
  match s with
  | EmptyString => true
  | String c s' => p c && all_chars p s'
  end.

(** The longest prefix of digits and what follows it. *)
Fixpoint span_digits (s : string) : string * string :=
  match s with
  | EmptyString => (EmptyString, EmptyString)
  | String c s' =>
      if is_digit c
      then let '(a, b) := span_digits s' in (String c a, b)
      else (EmptyString, s)
  end.

(** [/^[a-zA-Z0-9_-]+$/.test(fileId)] *)
Definition validateFileId (fileId : string) : bool :=
  match fileId with
  | EmptyString => false
  | _ => all_chars is_id_char fileId
  end.

(** [/^\d+:\d+$/.test(nodeId)] *)
Definition validateNodeId (nodeId : string) : bool :=
  match span_digits nodeId with
  | (String _ _, String sep (String _ _ as b)) => Ascii.eqb sep ":" && all_chars is_digit b
  | _ => false
  end.

(** [/^#([A-Fa-f0-9]{6}|[A-Fa-f0-9]{3})$/.test(color)] *)
Definition validateHexColor (color : string) : bool :=
  match color with
  | String hash digits =>
      Ascii.eqb hash "#"
      && ((String.length digits =? 6)%nat || (String.length digits =? 3)%nat)
      && all_chars is_hex_digit digits
  | EmptyString => false
  end.

End Validation.

(** ** Request screening (src/utils/security.ts) *)

Module Security.

Definition MAX_STRING_LENGTH : nat := 1000.
Definition MAX_ARRAY_LENGTH : nat := 100.

(** [/^[a-zA-Z0-9_-]{1,50}$/] after the falsy check *)
Definition validateFileId (fileId : string) : bool :=
  match fileId with
  | EmptyString => false
  | _ => (String.length fileId <=? 50)%nat && Validation.all_chars Validation.is_id_char fileId
  end.

(** [/^\d{1,10}:\d{1,10}$/] after the falsy check *)
Definition validateNodeId (nodeId : string) : bool :=
  match Validation.span_digits nodeId with
  | (String _ _ as a, String sep (String _ _ as b)) =>
      Ascii.eqb sep ":" && Validation.all_chars Validation.is_digit b
      && (String.length a <=? 10)%nat && (String.length b <=? 10)%nat
  | _ => false
  end.

(** [.replace(/[<>]/g, '')] *)
Fixpoint strip_angle (s : string) : string :=
  match s with
  | EmptyString => EmptyString
  | String c s' =>
      if Ascii.eqb c "<" || Ascii.eqb c ">" then strip_angle s' else String c (strip_angle s')
  end.

(** [.replace(/pattern/gi, '')] for a lower-case literal [pattern]: the
    matches are found from left to right without overlap; [skip] counts the
    characters of the current match still to be dropped. *)
Fixpoint remove_ci (pattern : string) (skip : nat) (s : string) : string :=
  match s with
  | EmptyString => EmptyString
  | String c s' =>
      match skip with
      | S k => remove_ci pattern k s'
      | O =>
          if JS.startsWith (JS.toLowerCase s) pattern
          then remove_ci pattern (String.length pattern - 1) s'
          else String c (remove_ci pattern 0 s')
      end
  end.

Fixpoint trimStart (s : string) : string :=
  match s with
  | EmptyString => EmptyString
  | String c s' => if JS.is_space c then trimStart s' else s
  end.

Fixpoint trimEnd (s : string) : string :=
  match s with
  | EmptyString => EmptyString
  | String c s' =>
      match trimEnd s' with
      | EmptyString => if JS.is_space c then EmptyString else String c EmptyString
      | t => String c t
      end
  end.

Definition trim (s : string) : string := trimEnd (trimStart s).

Definition sanitizeString (input : string) : Tokens.result string :=
  if (MAX_STRING_LENGTH <? String.length input)%nat then Tokens.Threw
  else Tokens.Returned
         (trim (remove_ci "data:" 0 (remove_ci "javascript:" 0 (strip_angle input)))).

Definition sanitizeArray {A} (input : list A) : Tokens.result (list A) :=
  if (MAX_ARRAY_LENGTH <? length input)%nat then Tokens.Threw else Tokens.Returned input.

(** *** Rate limiter *)

Record ClientWindow := { count : Z; resetTime : Z }.

Record RateLimiter := {
  clients : gmap string ClientWindow;
  maxRequestsPerHour : Z;
  windowMs : Z;
}.

(** [new RateLimiter(maxRequestsPerHour = 100)] *)
Definition new_RateLimiter (maxRequestsPerHour' : option Z) : RateLimiter :=
  {| clients := ∅;
     maxRequestsPerHour := default 100 maxRequestsPerHour';
     windowMs := 60 * 60 * 1000 |}.

Definition with_clients (rl : RateLimiter) (m : gmap string ClientWindow) : RateLimiter :=
  {| clients := m; maxRequestsPerHour := maxRequestsPerHour rl; windowMs := windowMs rl |}.

Record LimitResult := { allowed : bool; limit_resetTime : option Z }.

Definition checkLimit (rl : RateLimiter) (clientId : string) (now : Z)
    : LimitResult * RateLimiter :=
  match clients rl !! clientId with
  | Some client =>
      if now >? resetTime client then
        ({| allowed := true; limit_resetTime := None |},
         with_clients rl (<[clientId := {| count := 1; resetTime := now + windowMs rl |}]>
                            (clients rl)))
      else if count client >=? maxRequestsPerHour rl then
        ({| allowed := false; limit_resetTime := Some (resetTime client) |}, rl)
      else
        ({| allowed := true; limit_resetTime := None |},
         with_clients rl (<[clientId := {| count := count client + 1;
                                           resetTime := resetTime client |}]>
                            (clients rl)))
  | None =>
      ({| allowed := true; limit_resetTime := None |},
       with_clients rl (<[clientId := {| count := 1; resetTime := now + windowMs rl |}]>
                          (clients rl)))
  end.

Definition getRemainingRequests (rl : RateLimiter) (clientId : string) (now : Z) : Z :=
  match clients rl !! clientId with
  | Some client =>
      if now >? resetTime client then maxRequestsPerHour rl
      else Z.max 0 (maxRequestsPerHour rl - count client)
  | None => maxRequestsPerHour rl
  end.

Definition cleanup (rl : RateLimiter) (now : Z) : RateLimiter :=
  with_clients rl (filter (fun kv => ~ (now > resetTime kv.2)) (clients rl)).

(** A client's calls at the given times, one after the other: the answers
    and the limiter afterwards. *)
Fixpoint calls (rl : RateLimiter) (clientId : string) (times : list Z)
    : list bool * RateLimiter :=
  match times with
  | [] => ([], rl)
  | now :: rest =>
      let '(r, rl1) := checkLimit rl clientId now in
      let '(rs, rl2) := calls rl1 clientId rest in
      (allowed r :: rs, rl2)
  end.

Definition count_allowed (answers : list bool) : nat := length (List.filter id answers).

End Security.

(** ** Classes of characters used to describe the screening *)

Module ScreeningSpec.

Definition two_hex_digits (s : string) : bool :=
  match s with
  | String a (String b EmptyString) => Validation.is_hex_digit a && Validation.is_hex_digit b
  | _ => false
  end.

Definition no_angle (c : ascii) : bool := negb (Ascii.eqb c "<" || Ascii.eqb c ">").
Definition no_space (c : ascii) : bool := negb (JS.is_space c).

(** The characters of identifiers: digits, letters, "_", "-" and ":". *)
Definition plain_char (c : ascii) : bool :=
  Validation.is_id_char c || Ascii.eqb c ":".

End ScreeningSpec.

(** * Properties *)

(** ** Strings *)

Module JSFacts.
Import JS.

Lemma append_nil (t : string) : "" +:+ t = t.
Proof. reflexivity. Qed.

Lemma append_cons c (s t : string) : String c s +:+ t = String c (s +:+ t).
Proof. reflexivity. Qed.

Lemma append_assoc (a b c : string) : (a +:+ b) +:+ c = a +:+ b +:+ c.
Proof.
  induction a as [|ch a' IH]; [reflexivity|].
  rewrite !append_cons. f_equal. exact IH.
Qed.

Lemma startsWith_spec s p : startsWith s p = true <-> exists t, s = p +:+ t.
Proof.
  revert s. induction p as [|a p IH]; intros s; cbn [startsWith].
  - split; [intros _; exists s; reflexivity | reflexivity].
  - destruct s as [|b s].
    + split; [discriminate | intros [t Ht]; discriminate].
    + rewrite andb_true_iff, Ascii.eqb_eq, IH. split.
      * intros [-> [t ->]]. exists t. reflexivity.
      * intros [t Ht]. rewrite append_cons in Ht. injection Ht as -> ->.
        split; [reflexivity | exists t; reflexivity].
Qed.

Lemma includes_spec s p : includes s p = true <-> exists u t, s = u +:+ p +:+ t.
Proof.
  induction s as [|c s IH].
  - cbn [includes]. rewrite orb_false_r, startsWith_spec. split.
    + intros [t Ht]. exists "", t. exact Ht.
    + intros (u & t & Hs). destruct u; [|discriminate]. exists t. exact Hs.
  - cbn [includes]. rewrite orb_true_iff, startsWith_spec, IH. split.
    + intros [[t Ht] | (u & t & Hs)].
      * exists "", t. exact Ht.
      * exists (String c u), t. rewrite append_cons. now rewrite Hs.
    + intros (u & t & Hs). destruct u as [|d u].
      * left. exists t. exact Hs.
      * right. rewrite append_cons in Hs. injection Hs as _ Hs. exists u, t. exact Hs.
Qed.

Lemma includes_part s a p b :
  includes s (a +:+ p +:+ b) = true -> includes s p = true.
Proof.
  rewrite !includes_spec. intros (u & t & ->).
  exists (u +:+ a), (b +:+ t). now rewrite !append_assoc.
Qed.

Lemma append_empty_r (s : string) : s +:+ "" = s.
Proof.
  induction s as [|c s' IH]; [reflexivity|].
  rewrite append_cons. f_equal. exact IH.
Qed.

Lemma includes_suffix_of s a p : includes s (a +:+ p) = true -> includes s p = true.
Proof.
  intros H. apply (includes_part s a p ""). now rewrite append_empty_r.
Qed.

Lemma includes_prefix_of s p b : includes s (p +:+ b) = true -> includes s p = true.
Proof. intros H. now apply (includes_part s "" p b). Qed.

Lemma includes_refl s : includes s s = true.
Proof. apply includes_spec. exists "", "". now rewrite append_nil, append_empty_r. Qed.

Lemma startsWith_includes s p : startsWith s p = true -> includes s p = true.
Proof. destruct s; cbn [includes]; intros ->; reflexivity. Qed.

Lemma endsWith_includes s p : endsWith s p = true -> includes s p = true.
Proof.
  induction s as [|c s IH]; cbn [endsWith includes]; rewrite !orb_true_iff.
  - intros [H | H]; [|discriminate]. apply String.eqb_eq in H as <-. now left.
  - intros [H | H].
    + apply String.eqb_eq in H as <-. left.
      apply startsWith_spec. exists "". now rewrite append_empty_r.
    + right. now apply IH.
Qed.

Lemma includes_tail c s p : includes s p = true -> includes (String c s) p = true.
Proof. intros H. cbn [includes]. rewrite H. apply orb_true_r. Qed.

End JSFacts.

(** ** Rounding to doubles *)

Module DoubleFacts.
Import JS.

Lemma round_half_even_bounds x :
  (x - (1 # 2) <= inject_Z (round_half_even x) <= x + (1 # 2))%Q.
Proof.
  unfold round_half_even.
  pose proof (Qfloor_le x) as Hlo. pose proof (Qlt_floor x) as Hhi.
  set (f := Qfloor x) in *.
  rewrite inject_Z_plus in Hhi. change (inject_Z 1) with 1%Q in Hhi.
  destruct (Qcompare (x - inject_Z f) (1 # 2)) eqn:Hc.
  - apply Qeq_alt in Hc.
    destruct (Z.even f); [|rewrite inject_Z_plus; change (inject_Z 1) with 1%Q]; lra.
  - apply Qlt_alt in Hc. lra.
  - apply Qgt_alt in Hc. rewrite inject_Z_plus. change (inject_Z 1) with 1%Q. lra.
Qed.

Lemma pow2_pos e : (0 < pow2 e)%Q.
Proof. apply Qpower_0_lt. reflexivity. Qed.

Lemma pow2_le e1 e2 : e1 <= e2 -> (pow2 e1 <= pow2 e2)%Q.
Proof. intros H. apply Qpower_le_compat_l; [exact H | discriminate]. Qed.

Lemma pow2_succ e : (pow2 (e + 1) == 2 * pow2 e)%Q.
Proof.
  unfold pow2. rewrite Qpower_plus by discriminate. rewrite Qpower_1_r. ring.
Qed.

(** [binade q] is at most the binary logarithm. *)
Lemma binade_lower q : (0 < q)%Q -> (pow2 (binade q) <= q)%Q.
Proof.
  intros Hq. unfold binade.
  set (e0 := Z.log2 (Qnum q) - Z.log2 (Z.pos (Qden q))).
  destruct (Qle_bool (pow2 e0) q) eqn:Hle; [now apply Qle_bool_iff|].
  destruct q as [a b]. cbn [Qnum Qden] in *.
  assert (Ha : 0 < a) by (unfold Qlt in Hq; cbn in Hq; lia).
  destruct (Z.log2_spec a Ha) as [Ha1 _].
  destruct (Z.log2_spec (Z.pos b) eq_refl) as [_ Hb2].
  pose proof (Z.log2_nonneg a) as Hla. pose proof (Z.log2_nonneg (Z.pos b)) as Hlb.
  replace (e0 - 1) with (Z.log2 a - Z.succ (Z.log2 (Z.pos b))) by (subst e0; lia).
  unfold pow2. rewrite Qpower_minus by discriminate.
  rewrite <- !(Zpower_Qpower 2) by lia.
  set (A := 2 ^ Z.log2 a) in *. set (B := 2 ^ Z.succ (Z.log2 (Z.pos b))) in *.
  apply Qle_shift_div_r; [unfold Qlt; cbn; lia|].
  unfold Qle. cbn. nia.
Qed.

Lemma binade_upper q E : (0 < q)%Q -> (q < pow2 (E + 1))%Q -> binade q <= E.
Proof.
  intros Hq Hlt. pose proof (binade_lower q Hq) as Hlo.
  assert (H : binade q < E + 1).
  { apply (Qpower_lt_compat_l_inv 2); [|reflexivity].
    apply Qle_lt_trans with q; assumption. }
  lia.
Qed.

Lemma ulp_upper q E :
  (0 < q)%Q -> (q < pow2 (E + 1))%Q -> -1022 <= E -> (ulp q <= pow2 (E - 52))%Q.
Proof.
  intros Hq Hlt HE. unfold ulp. apply pow2_le.
  pose proof (binade_upper q E Hq Hlt). lia.
Qed.

Lemma double_positive q :
  (0 < q)%Q ->
  (double q == inject_Z (round_half_even (q / ulp q)) * ulp q)%Q.
Proof.
  intros Hq. unfold double. destruct q as [[|a|a] b]; try discriminate Hq.
  apply Qred_correct.
Qed.

Lemma double_0 q : (q == 0)%Q -> double q = 0%Q.
Proof.
  intros H. unfold double. destruct q as [[|a|a] b]; [reflexivity| |]; discriminate H.
Qed.

(** A positive number is rounded to a double within half a unit in the last
    place, and not below zero. *)
Lemma double_near q :
  (0 < q)%Q ->
  (0 <= double q)%Q /\ (double q <= q + ulp q * (1 # 2))%Q
  /\ (q - ulp q * (1 # 2) <= double q)%Q.
Proof.
  intros Hq. rewrite (double_positive q Hq).
  pose proof (pow2_pos (Z.max (binade q) (-1022) - 52)) as Hu. fold (ulp q) in Hu.
  pose proof (round_half_even_bounds (q / ulp q)) as [Hlo Hhi].
  set (m := inject_Z (round_half_even (q / ulp q))) in *.
  assert (Hx : (q / ulp q * ulp q == q)%Q) by (field; lra).
  assert (Hm0 : (0 <= m)%Q).
  { subst m. change 0%Q with (inject_Z 0). rewrite <- Zle_Qle.
    unfold round_half_even.
    assert (0 <= Qfloor (q / ulp q)).
    { change 0 with (Qfloor 0). apply Qfloor_resp_le.
      apply Qle_shift_div_l; [exact Hu | lra]. }
    destruct (Qcompare _ _); [destruct (Z.even _)| |]; lia. }
  split; [|split].
  - apply Qmult_le_0_compat; [exact Hm0 | lra].
  - apply Qle_trans with ((q / ulp q + (1 # 2)) * ulp q)%Q;
      [apply Qmult_le_compat_r; lra|].
    assert (E : ((q / ulp q + (1 # 2)) * ulp q
                 == q / ulp q * ulp q + ulp q * (1 # 2))%Q) by ring.
    rewrite E, Hx. apply Qle_refl.
  - apply Qle_trans with ((q / ulp q - (1 # 2)) * ulp q)%Q;
      [|apply Qmult_le_compat_r; lra].
    assert (E : ((q / ulp q - (1 # 2)) * ulp q
                 == q / ulp q * ulp q - ulp q * (1 # 2))%Q) by ring.
    rewrite E, Hx. apply Qle_refl.
Qed.

(** A number below [2^(E+1)] is rounded up by at most [2^(E-53)]. *)
Lemma double_upper q E :
  (0 <= q)%Q -> (q < pow2 (E + 1))%Q -> -1022 <= E ->
  (0 <= double q)%Q /\ (double q <= q + pow2 (E - 53))%Q.
Proof.
  intros Hq Hlt HE.
  destruct (Qlt_le_dec 0 q) as [Hpos|Hz].
  - destruct (double_near q Hpos) as (H0 & Hup & _).
    pose proof (ulp_upper q E Hpos Hlt HE) as Hu.
    split; [exact H0|].
    assert (H53 : (pow2 (E - 52) == 2 * pow2 (E - 53))%Q).
    { replace (E - 52) with (E - 53 + 1) by lia. apply pow2_succ. }
    lra.
  - assert (Hq0 : (q == 0)%Q) by lra.
    rewrite (double_0 q Hq0). pose proof (pow2_pos (E - 53)). lra.
Qed.

Lemma double_negative q : (q < 0)%Q -> (double q == - double (- q))%Q.
Proof.
  intros Hq. assert (Hpos : (0 < - q)%Q) by lra.
  rewrite (double_positive (- q) Hpos).
  unfold double. destruct q as [[|a|a] b]; try discriminate Hq.
  apply Qred_correct.
Qed.

Lemma double_nonpositive q : (q <= 0)%Q -> (double q <= 0)%Q.
Proof.
  intros Hq. destruct (Qlt_le_dec q 0) as [Hneg|Hz].
  - rewrite (double_negative q Hneg).
    assert (Hpos : (0 < - q)%Q) by lra.
    destruct (double_near (- q) Hpos) as (H0 & _). lra.
  - rewrite (double_0 q) by lra. apply Qle_refl.
Qed.

(** [Math.round] of the double nearest to a number between 0 and a quarter
    above the integer [n] lies between 0 and [n]. *)
Lemma Math_round_double_bound q (n : Z) :
  (0 <= q)%Q -> (q <= inject_Z n + (1 # 4))%Q -> 0 <= n -> n < 2 ^ 50 ->
  0 <= Math_round (double q) <= n.
Proof.
  intros Hq Hn Hn0 Hn50.
  assert (Hn50' : (inject_Z n < inject_Z (2 ^ 50))%Q) by now rewrite <- Zlt_Qlt.
  assert (Hlt : (q < pow2 (50 + 1))%Q).
  { change (pow2 (50 + 1)) with (inject_Z (2 ^ 51)).
    assert ((inject_Z (2 ^ 50) + 1 < inject_Z (2 ^ 51))%Q) by reflexivity. lra. }
  destruct (double_upper q 50 Hq Hlt ltac:(lia)) as [H0 Hup].
  unfold Math_round. split.
  - change 0 with (Qfloor 0). apply Qfloor_resp_le. lra.
  - assert (Hs : (double q + (1 # 2) < inject_Z (n + 1))%Q).
    { rewrite inject_Z_plus. change (inject_Z 1) with 1%Q.
      assert (Hsmall : (pow2 (50 - 53) < 1 # 4)%Q) by reflexivity. lra. }
    apply Z.lt_succ_r. rewrite <- Z.add_1_r.
    destruct (Z.lt_ge_cases (Qfloor (double q + (1 # 2))) (n + 1)) as [H|H]; [exact H|].
    exfalso. rewrite Zle_Qle in H.
    pose proof (Qfloor_le (double q + (1 # 2))). lra.
Qed.

(** The double nearest to a number between 0 and 1 exceeds 1 by less than
    [2^-53]. *)
Lemma double_unit q :
  (0 <= q)%Q -> (q <= 1)%Q -> (0 <= double q)%Q /\ (double q <= 1 + pow2 (-53))%Q.
Proof.
  intros H0 H1.
  assert (Hlt : (q < pow2 (0 + 1))%Q) by (change (pow2 (0 + 1)) with 2%Q; lra).
  destruct (double_upper q 0 H0 Hlt ltac:(lia)) as [Hd0 Hd1].
  change (pow2 (0 - 53)) with (pow2 (-53)) in Hd1. split; [exact Hd0 | lra].
Qed.

End DoubleFacts.

(** ** Session / implementation tracker *)

Module SessionFacts.
Import Session SessionSpec.

Lemma Status_eqb_eq a b : Status_eqb a b = true <-> a = b.
Proof. destruct a, b; simpl; split; intros H; congruence. Qed.

Lemma getWorkingFile_live st clientId session now :
  st !! clientId = Some session ->
  now - setAt session <= SESSION_TTL ->
  getWorkingFile st clientId now
  = (Some (touch now session), <[clientId := touch now session]> st).
Proof.
  intros Hs Hle. unfold getWorkingFile. rewrite Hs.
  destruct (Z.gtb_spec (now - setAt session) SESSION_TTL); [lia | reflexivity].
Qed.

Lemma getWorkingFile_expired st clientId session now :
  st !! clientId = Some session ->
  now - setAt session > SESSION_TTL ->
  getWorkingFile st clientId now = (None, delete clientId st).
Proof.
  intros Hs Hgt. unfold getWorkingFile. rewrite Hs.
  destruct (Z.gtb_spec (now - setAt session) SESSION_TTL); [reflexivity | lia].
Qed.

Lemma getWorkingFile_absent (st : sessions) clientId now :
  st !! clientId = None -> getWorkingFile st clientId now = (None, st).
Proof. intros Hs. unfold getWorkingFile. now rewrite Hs. Qed.

(** C9: with a session stored for the client, [getWorkingFile] returns null
    and deletes the session exactly when [now - setAt > 24h]; otherwise it
    returns the session with [lastAccessed] set to [now] and everything
    else, [setAt] included, unchanged, so that a later read past the 24 hours
    still finds the session expired. *)
Theorem getWorkingFile_absolute_ttl (st : sessions) clientId session now :
  st !! clientId = Some session ->
  (fst (getWorkingFile st clientId now) = None <-> now - setAt session > SESSION_TTL)
  /\ (snd (getWorkingFile st clientId now) !! clientId = None
      <-> now - setAt session > SESSION_TTL)
  /\ (now - setAt session > SESSION_TTL ->
      getWorkingFile st clientId now = (None, delete clientId st))
  /\ (now - setAt session <= SESSION_TTL ->
      exists session',
        getWorkingFile st clientId now = (Some session', <[clientId := session']> st)
        /\ lastAccessed session' = now
        /\ setAt session' = setAt session
        /\ fileId session' = fileId session
        /\ implementationStatus session' = implementationStatus session)
  /\ (forall later, later - setAt session > SESSION_TTL ->
      fst (getWorkingFile (snd (getWorkingFile st clientId now)) clientId later) = None).
Proof.
  intros Hs.
  destruct (Z_le_gt_dec (now - setAt session) SESSION_TTL) as [Hle | Hgt].
  - rewrite (getWorkingFile_live _ _ _ _ Hs Hle). simpl.
    rewrite lookup_insert_eq.
    repeat split; try (intros; first [discriminate | lia]).
    + exists (touch now session). repeat split.
    + intros later Hl.
      erewrite getWorkingFile_expired; [reflexivity | apply lookup_insert_eq | exact Hl].
  - rewrite (getWorkingFile_expired _ _ _ _ Hs Hgt). simpl.
    rewrite lookup_delete_eq.
    repeat split; try (intros; first [assumption | reflexivity | lia]).
    intros later Hl. rewrite getWorkingFile_absent; [reflexivity | apply lookup_delete_eq].
Qed.

Lemma getWorkingFile_absolute_ttl_witness :
  fst (getWorkingFile st_one_implemented "client" (SESSION_TTL + 1)) = None
  <-> SESSION_TTL + 1 - setAt session_a > SESSION_TTL.
Proof.
  exact (proj1 (getWorkingFile_absolute_ttl st_one_implemented "client" session_a
                  (SESSION_TTL + 1) eq_refl)).
Defined.

Lemma enqueue_spec session q c :
  let one x := if in_bucket session x c then [c] else [] in
  pending (enqueue session q c) = pending q ++ one Pending
  /\ inProgress (enqueue session q c) = inProgress q ++ one InProgress
  /\ implemented (enqueue session q c) = implemented q ++ one Implemented
  /\ needsUpdate (enqueue session q c) = needsUpdate q ++ one NeedsUpdate
  /\ total (enqueue session q c) = total q.
Proof.
  unfold enqueue, in_bucket, bucket.
  destruct (status <$> (session ≫= fun s => implementationStatus s !! id c))
    as [[]|]; simpl; rewrite ?app_nil_r; repeat split.
Qed.

(** The queue loop files every component under its bucket, in input order. *)
Lemma fold_enqueue session comps : forall q,
  let q' := fold_left (enqueue session) comps q in
  pending q' = pending q ++ List.filter (in_bucket session Pending) comps
  /\ inProgress q' = inProgress q ++ List.filter (in_bucket session InProgress) comps
  /\ implemented q' = implemented q ++ List.filter (in_bucket session Implemented) comps
  /\ needsUpdate q' = needsUpdate q ++ List.filter (in_bucket session NeedsUpdate) comps
  /\ total q' = total q.
Proof.
  induction comps as [|c comps IH]; intros q; simpl.
  - rewrite !app_nil_r. repeat split.
  - specialize (IH (enqueue session q c)). simpl in IH.
    destruct IH as (Hp & Hi & Hm & Hn & Ht).
    destruct (enqueue_spec session q c) as (Ep & Ei & Em & En & Et).
    rewrite Hp, Hi, Hm, Hn, Ht, Ep, Ei, Em, En, Et.
    repeat split; rewrite <- app_assoc; f_equal;
      match goal with |- context [in_bucket session ?x c] =>
        destruct (in_bucket session x c) end; reflexivity.
Qed.

Lemma bucket_partition session (comps : list ComponentListItem) :
  comps ≡ₚ List.filter (in_bucket session Pending) comps
           ++ List.filter (in_bucket session InProgress) comps
           ++ List.filter (in_bucket session Implemented) comps
           ++ List.filter (in_bucket session NeedsUpdate) comps.
Proof.
  induction comps as [|c comps IH]; simpl; [reflexivity|].
  assert (Hb : forall x, in_bucket session x c = Status_eqb (bucket session c) x)
    by reflexivity.
  rewrite !Hb. clear Hb.
  destruct (bucket session c); simpl.
  - apply perm_skip, IH.
  - rewrite <- Permutation_middle. apply perm_skip, IH.
  - rewrite app_assoc, <- Permutation_middle, <- app_assoc. apply perm_skip, IH.
  - rewrite !app_assoc, <- Permutation_middle, <- !app_assoc. apply perm_skip, IH.
Qed.

(** C8: [getImplementationQueue] partitions the candidate list. With
    [session] the live session of the client (null when there is none or it
    has expired), each of the four lists is the input filtered, in order, by
    the component's bucket (tracked status, pending when untracked or without a
    session); the four lists together are a permutation of the input, no
    component is in two of them, and [total] is the input's length. With one of
    three components tracked as implemented and the other two untracked, the
    first is alone in [implemented] and the other two are in [pending]. *)
Theorem getImplementationQueue_partition (st : sessions) clientId comps now :
  let session := fst (getWorkingFile st clientId now) in
  let q := fst (getImplementationQueue st clientId comps now) in
  pending q = List.filter (in_bucket session Pending) comps
  /\ inProgress q = List.filter (in_bucket session InProgress) comps
  /\ implemented q = List.filter (in_bucket session Implemented) comps
  /\ needsUpdate q = List.filter (in_bucket session NeedsUpdate) comps
  /\ total q = length comps
  /\ comps ≡ₚ pending q ++ inProgress q ++ implemented q ++ needsUpdate q
  /\ (length (pending q) + length (inProgress q)
      + length (implemented q) + length (needsUpdate q) = total q)%nat
  /\ (forall c x y, in_bucket session x c = true -> in_bucket session y c = true -> x = y)
  /\ (forall c, session = None \/
                (exists s, session = Some s /\ implementationStatus s !! id c = None) ->
                in_bucket session Pending c = true)
  /\ (forall s a b c x,
        session = Some s -> comps = [a; b; c] ->
        implementationStatus s !! id a = Some x -> status x = Implemented ->
        implementationStatus s !! id b = None ->
        implementationStatus s !! id c = None ->
        implemented q = [a] /\ pending q = [b; c]
        /\ inProgress q = [] /\ needsUpdate q = []).
Proof.
  intros session q. subst session q. unfold getImplementationQueue.
  destruct (getWorkingFile st clientId now) as [session st'] eqn:Hg. simpl.
  destruct (fold_enqueue session comps (emptyQueue (length comps)))
    as (Hp & Hi & Hm & Hn & Ht).
  simpl in Hp, Hi, Hm, Hn, Ht.
  rewrite Hp, Hi, Hm, Hn, Ht.
  split; [reflexivity|]. split; [reflexivity|]. split; [reflexivity|].
  split; [reflexivity|]. split; [reflexivity|].
  split; [apply bucket_partition|].
  split.
  { pose proof (Permutation_length (bucket_partition session comps)) as HL.
    rewrite !length_app in HL. lia. }
  split.
  { intros c x y Hx Hy. unfold in_bucket in *.
    apply Status_eqb_eq in Hx, Hy. congruence. }
  split.
  { intros c [-> | (s & -> & Hnone)]; unfold in_bucket, bucket; simpl;
      [|rewrite Hnone]; reflexivity. }
  intros s a b c x -> -> Ha Hx Hb Hc.
  unfold in_bucket, bucket. simpl. rewrite Ha, Hb, Hc. simpl. rewrite Hx. simpl.
  repeat split.
Qed.

Lemma getImplementationQueue_partition_witness :
  let q := fst (getImplementationQueue st_one_implemented "client"
                  [item "a"; item "b"; item "c"] 2000) in
  implemented q = [item "a"] /\ pending q = [item "b"; item "c"]
  /\ inProgress q = [] /\ needsUpdate q = [].
Proof.
  pose proof (getImplementationQueue_partition st_one_implemented "client"
                [item "a"; item "b"; item "c"] 2000) as H.
  cbv zeta in H.
  destruct H as (_ & _ & _ & _ & _ & _ & _ & _ & _ & H).
  exact (H (touch 2000 session_a) (item "a") (item "b") (item "c")
           {| componentId := "a"; componentName := "A"; status := Implemented;
              lastModified := Some 1000; implementedAt := Some 1000;
              notes := None; framework := None |}
           eq_refl eq_refl eq_refl eq_refl eq_refl eq_refl).
Defined.

(** C1 as stated fails: one tracked status, [implemented], and a queue of
    three components: the queue has one of three implemented, and the summary
    reports 100, not 33. *)
Lemma summary_one_of_three_reports_100 :
  let comps := [item "a"; item "b"; item "c"] in
  let q := fst (getImplementationQueue st_one_implemented "client" comps 2000) in
  let st1 := snd (getImplementationQueue st_one_implemented "client" comps 2000) in
  let s := stats (fst (getImplementationSummary st1 "client" 3000)) in
  total q = 3%nat /\ length (implemented q) = 1%nat
  /\ stats_total s = 1%nat /\ stats_implemented s = 1%nat
  /\ completionPercentage s = 100 /\ completionPercentage s <> 33.
Proof. vm_compute. repeat split; discriminate. Qed.

Lemma getImplementationQueue_state (st : sessions) clientId comps now :
  snd (getImplementationQueue st clientId comps now) = snd (getWorkingFile st clientId now).
Proof.
  unfold getImplementationQueue. now destruct (getWorkingFile st clientId now).
Qed.

(** C1, amended: the summary is computed over the statuses the session
    tracks and never sees the component list of [getImplementationQueue]:
    [total] is the number of tracked statuses and [completionPercentage] is
    [Math.round(implemented / total * 100)] over those, the quotient and the
    product each rounded to a double ([0] when nothing is tracked). With a
    single tracked status, [implemented], it is 100 whatever the list given to
    the queue; 1 implemented of 3 tracked gives 33, and 23 of 40 give 57,
    the product being 57.49999999999999. *)
Theorem getImplementationSummary_over_tracked (st : sessions) clientId session comps now1 now2 :
  st !! clientId = Some session ->
  now1 - setAt session <= SESSION_TTL ->
  now2 - setAt session <= SESSION_TTL ->
  let st1 := snd (getImplementationQueue st clientId comps now1) in
  let s := stats (fst (getImplementationSummary st1 clientId now2)) in
  let tracked := snd <$> map_to_list (implementationStatus session) in
  stats_total s = length tracked
  /\ stats_implemented s = count_status Implemented tracked
  /\ completionPercentage s
     = (if (0 <? length tracked)%nat
        then JS.Math_round
               (JS.double
                  (JS.double (inject_Z (Z.of_nat (count_status Implemented tracked))
                              / inject_Z (Z.of_nat (length tracked)))
                   * 100)%Q)
        else 0)
  /\ (forall k x, implementationStatus session = {[ k := x ]} ->
                  status x = Implemented ->
                  stats_total s = 1%nat /\ completionPercentage s = 100)
  /\ (length tracked = 3%nat -> count_status Implemented tracked = 1%nat ->
      completionPercentage s = 33)
  /\ (length tracked = 40%nat -> count_status Implemented tracked = 23%nat ->
      completionPercentage s = 57).
Proof.
  intros Hs H1 H2 st1 s tracked. subst st1 s.
  rewrite getImplementationQueue_state.
  rewrite (getWorkingFile_live _ _ _ _ Hs H1).
  cbn [snd]. unfold getImplementationSummary.
  rewrite (getWorkingFile_live _ _ (touch now1 session) now2);
    [| apply lookup_insert_eq | exact H2].
  cbn [fst stats stats_total stats_implemented completionPercentage
       implementationStatus touch].
  fold tracked.
  split; [reflexivity|]. split; [reflexivity|]. split; [reflexivity|].
  split; [|split].
  - intros k x Hm Hx. subst tracked. rewrite Hm, map_to_list_singleton.
    unfold count_status. cbn [fmap list_fmap snd List.filter length]. rewrite Hx.
    split; [reflexivity | vm_compute; reflexivity].
  - intros Hn Hk. rewrite Hn, Hk. vm_compute. reflexivity.
  - intros Hn Hk. rewrite Hn, Hk. vm_compute. reflexivity.
Qed.

Lemma getImplementationSummary_over_tracked_witness :
  let st1 := snd (getImplementationQueue st_one_implemented "client"
                    [item "a"; item "b"; item "c"] 2000) in
  let s := stats (fst (getImplementationSummary st1 "client" 3000)) in
  stats_total s = 1%nat /\ completionPercentage s = 100.
Proof.
  pose proof (getImplementationSummary_over_tracked st_one_implemented "client" session_a
                [item "a"; item "b"; item "c"] 2000 3000 eq_refl) as H.
  assert (H1 : 2000 - setAt session_a <= SESSION_TTL) by (vm_compute; discriminate).
  assert (H2 : 3000 - setAt session_a <= SESSION_TTL) by (vm_compute; discriminate).
  destruct (H H1 H2) as (_ & _ & _ & Hone & _).
  exact (Hone "a" _ eq_refl eq_refl).
Defined.

(** C2 as stated fails: a component implemented at 1000 and updated to
    [implemented] again at 5000 has [implementedAt] 5000. *)
Lemma implementedAt_overwritten_on_repeat :
  let st1 := snd (updateComponentStatus st_one_implemented "client" "a" "A"
                    Implemented None None 5000) in
  (fst (getComponentStatus st_one_implemented "client" "a" 4000) ≫= implementedAt) = Some 1000
  /\ (fst (getComponentStatus st1 "client" "a" 6000) ≫= implementedAt) = Some 5000.
Proof. vm_compute. split; reflexivity. Qed.

(** C2, amended: on a live session [updateComponentStatus] stores an entry
    whose [implementedAt] is the time of the call whenever the new status is
    [implemented], also when the component was implemented before, and the
    previous [implementedAt] (if any) for every other status. *)
Theorem updateComponentStatus_implementedAt (st : sessions) clientId session
    cid cname status' notes' framework' now :
  st !! clientId = Some session ->
  now - setAt session <= SESSION_TTL ->
  let r := updateComponentStatus st clientId cid cname status' notes' framework' now in
  fst r = true
  /\ exists session' entry,
       snd r !! clientId = Some session'
       /\ setAt session' = setAt session
       /\ lastAccessed session' = now
       /\ implementationStatus session' !! cid = Some entry
       /\ status entry = status'
       /\ lastModified entry = Some now
       /\ (status' = Implemented -> implementedAt entry = Some now)
       /\ (status' <> Implemented ->
           implementedAt entry = implementationStatus session !! cid ≫= implementedAt)
       /\ (forall other, other <> cid ->
           implementationStatus session' !! other = implementationStatus session !! other).
Proof.
  intros Hs Hle r. subst r. unfold updateComponentStatus.
  rewrite (getWorkingFile_live _ _ _ _ Hs Hle). simpl.
  split; [reflexivity|].
  eexists _, _. split; [apply lookup_insert_eq|]. simpl.
  split; [reflexivity|]. split; [reflexivity|].
  split; [apply lookup_insert_eq|]. simpl.
  split; [reflexivity|]. split; [reflexivity|].
  split; [intros ->; reflexivity|].
  split.
  - intros Hne. destruct status'; try reflexivity. congruence.
  - intros other Hne. now apply lookup_insert_ne.
Qed.

Lemma updateComponentStatus_implementedAt_witness :
  fst (updateComponentStatus st_one_implemented "client" "a" "A"
         Implemented None None 5000) = true.
Proof.
  assert (H : 5000 - setAt session_a <= SESSION_TTL) by (vm_compute; discriminate).
  exact (proj1 (updateComponentStatus_implementedAt st_one_implemented "client" session_a
                  "a" "A" Implemented None None 5000 eq_refl H)).
Defined.

End SessionFacts.

(** ** Cache *)

Module CacheFacts.
Import Cache.

Section Facts.

Context {T : Type}.
Implicit Types (c : CacheService T) (m : LRUCache T) (k : string) (v : T).

Lemma has_key_refl k (e : CacheEntry T) s :
  has_key k {| key := k; value := e; start := s |} = true.
Proof. unfold has_key. simpl. apply String.eqb_refl. Qed.

Lemma lru_set_find m k e now :
  exists rest, items (lru_set m k e now) = {| key := k; value := e; start := now |} :: rest.
Proof.
  unfold lru_set.
  destruct (List.find (has_key k) (items m)); [eexists; reflexivity|].
  destruct (max m <=? length (items m))%nat; eexists; reflexivity.
Qed.

Lemma lru_set_ttl m k e now : lru_ttl (lru_set m k e now) = lru_ttl m.
Proof.
  unfold lru_set.
  destruct (List.find (has_key k) (items m)); [reflexivity|].
  destruct (max m <=? length (items m))%nat; reflexivity.
Qed.

Lemma new_CacheService_well_formed (options : CacheOptions) c :
  new_CacheService options = Some c -> well_formed c.
Proof.
  unfold new_CacheService, well_formed.
  destruct (Z.ltb_spec 0 (Z_or (opt_defaultTtl options) 3600000)); [|discriminate].
  intros [= <-]. cbn. now split.
Qed.

Lemma get_well_formed c k now : well_formed c -> well_formed (snd (get c k now)).
Proof.
  unfold well_formed, get, lru_get. intros [Hpos Httl].
  destruct (List.find (has_key k) (items (memoryCache c))) as [it|];
    [|now split].
  destruct (isStale (memoryCache c) it now); [now split|].
  destruct (isExpired (value it) now); now split.
Qed.

(** What [get] hands out is the payload of a stored entry that has not
    outlived its own [ttl]. *)
Lemma get_Some_fresh c k now v :
  fst (get c k now) = Some v ->
  exists it, In it (items (memoryCache c)) /\ key it = k /\ data (value it) = v
             /\ now - timestamp (value it) <= ttl (value it).
Proof.
  unfold get, lru_get.
  destruct (List.find (has_key k) (items (memoryCache c))) as [it|] eqn:Hf;
    [|discriminate].
  destruct (isStale (memoryCache c) it now); [discriminate|].
  unfold isExpired. destruct (Z.gtb_spec (now - timestamp (value it)) (ttl (value it)));
    [discriminate|].
  simpl. intros [= <-]. apply List.find_some in Hf as [Hin Hk].
  exists it. repeat split; try assumption.
  unfold has_key in Hk. now apply String.eqb_eq in Hk.
Qed.

(** C6, amended: with [e] the entry's effective time-to-live, the given
    [ttl] when it is not 0 and the cache's default otherwise, [set(k, v, ttl)]
    followed at once by [get(k)] returns [v] provided [e] is not negative, and
    any [get(k)] following the [set] by more than [e] returns null; a positive
    [ttl] is its own effective time-to-live. No [get] returns the payload of an
    entry with [now - timestamp > ttl]. *)
Theorem set_get_within_ttl c k v (ttl' : option Z) now :
  well_formed c ->
  let e := Z_or ttl' (defaultTtl c) in
  let c1 := set c k v ttl' now in
  (0 <= e -> fst (get c1 k now) = Some v)
  /\ (forall later, later - now > e -> fst (get c1 k later) = None)
  /\ (forall t, ttl' = Some t -> 0 < t ->
        e = t /\ fst (get c1 k now) = Some v
        /\ forall later, later - now > t -> fst (get c1 k later) = None)
  /\ (forall c2 later v', fst (get c2 k later) = Some v' ->
        exists it, In it (items (memoryCache c2)) /\ key it = k /\ data (value it) = v'
                   /\ later - timestamp (value it) <= ttl (value it))
  /\ well_formed c1.
Proof.
  intros [Hpos Httl] e c1.
  assert (Himm : 0 <= e -> fst (get c1 k now) = Some v).
  { intros He. subst c1. unfold get, set, lru_get. simpl.
    destruct (lru_set_find (memoryCache c) k
                {| data := v; timestamp := now; ttl := e |} now) as [rest Hr].
    fold e. rewrite Hr. simpl. rewrite has_key_refl.
    unfold isStale. simpl. rewrite lru_set_ttl, Httl.
    destruct (Z.gtb_spec (now - now) (defaultTtl c)); [lia|].
    unfold isExpired. simpl.
    destruct (Z.gtb_spec (now - now) e); [lia | reflexivity]. }
  assert (Hlate : forall later, later - now > e -> fst (get c1 k later) = None).
  { intros later Hl. subst c1. unfold get, set, lru_get. simpl.
    destruct (lru_set_find (memoryCache c) k
                {| data := v; timestamp := now; ttl := e |} now) as [rest Hr].
    fold e. rewrite Hr. simpl. rewrite has_key_refl.
    destruct (isStale _ _ later); [reflexivity|].
    unfold isExpired. simpl.
    destruct (Z.gtb_spec (later - now) e); [reflexivity | lia]. }
  split; [exact Himm|]. split; [exact Hlate|]. split.
  { intros t -> Ht.
    assert (He : e = t).
    { subst e. simpl. destruct (Z.eqb_spec t 0); [lia | reflexivity]. }
    split; [exact He|]. split; [apply Himm; lia|].
    intros later Hl. apply Hlate. lia. }
  split; [intros c2 later v'; apply get_Some_fresh|].
  subst c1. unfold well_formed, set. simpl. rewrite lru_set_ttl. now split.
Qed.

End Facts.

(** C6 as stated fails for [ttl = 0], which [ttl || this.defaultTtl]
    replaces by the default: a millisecond after [set(k, v, 0)], more than
    [ttl] has elapsed and [get(k)] still returns [v]; and for a negative [ttl]
    the immediate [get] already returns null. *)
Lemma zero_ttl_entry_outlives_its_ttl :
  let c1 := set (default_cache string) "k" "v" (Some 0) 0 in
  1 - 0 > 0 /\ fst (get c1 "k" 1) = Some "v"
  /\ fst (get (set (default_cache string) "k" "v" (Some (-5)) 0) "k" 0) = None.
Proof. repeat split. Qed.

Lemma set_get_within_ttl_witness :
  fst (get (set (default_cache nat) "k" 7%nat (Some 50) 0) "k" 0) = Some 7%nat.
Proof.
  assert (Hwf : well_formed (default_cache nat)) by (split; reflexivity).
  assert (He : 0 <= Z_or (Some 50) (defaultTtl (default_cache nat)))
    by (vm_compute; discriminate).
  exact (proj1 (set_get_within_ttl (default_cache nat) "k" 7%nat (Some 50) 0 Hwf) He).
Defined.

End CacheFacts.

(** ** Component extractor *)

Module ExtractorFacts.
Import Extractor JSFacts.

Example parse_hover_state :
  parseStateFromLayerName "Hover State" statePatterns = Some "hover".
Proof. reflexivity. Qed.

Example parse_btn_disabled :
  parseStateFromLayerName "btn_disabled" statePatterns = Some "disabled".
Proof. reflexivity. Qed.

Example parse_default :
  parseStateFromLayerName "Default" statePatterns = None.
Proof. reflexivity. Qed.


(** Every alternative tested for a pattern entails that the name contains it. *)
Lemma matches_pattern_includes name p :
  matches_pattern name p = JS.includes name p.
Proof.
  unfold matches_pattern.
  destruct (JS.includes name p) eqn:Hin.
  - now rewrite orb_true_r.
  - assert (Hsuf : forall q, JS.includes name (q +:+ p) = false).
    { intros q. destruct (JS.includes name (q +:+ p)) eqn:E; [|reflexivity].
      apply includes_suffix_of in E. congruence. }
    assert (Hpre : forall q, JS.includes name (p +:+ q) = false).
    { intros q. destruct (JS.includes name (p +:+ q)) eqn:E; [|reflexivity].
      apply includes_prefix_of in E. congruence. }
    rewrite !Hsuf, !Hpre.
    destruct (String.eqb_spec name p) as [->|_];
      [rewrite includes_refl in Hin; discriminate|].
    destruct (JS.startsWith name (p +:+ ":")) eqn:Es.
    { apply startsWith_includes in Es. rewrite Hpre in Es. discriminate. }
    destruct (JS.endsWith name (":" +:+ p)) eqn:Ee.
    { apply endsWith_includes in Ee. rewrite Hsuf in Ee. discriminate. }
    reflexivity.
Qed.

Lemma drop_append_state t : JS.drop 6 ("state=" +:+ t) = t.
Proof. reflexivity. Qed.

Lemma run_of_value_prefix t : exists rest, t = run_of_value t +:+ rest.
Proof.
  induction t as [|c t [rest IH]]; [exists ""; reflexivity|].
  cbn [run_of_value]. destruct (Ascii.eqb c "," || JS.is_space c).
  - eexists. reflexivity.
  - exists rest. rewrite append_cons. now rewrite <- IH.
Qed.

Lemma match_state_includes s m : match_state s = Some m -> JS.includes s m = true.
Proof.
  induction s as [|c s IH]; [discriminate|].
  cbn [match_state].
  destruct (JS.startsWith (String c s) "state=") eqn:Hs.
  - apply startsWith_spec in Hs as [t Ht]. rewrite Ht, drop_append_state.
    destruct (run_of_value t) as [|d run] eqn:Hrun.
    + rewrite <- Ht. intros H. apply includes_tail. now apply IH.
    + intros [= <-]. apply includes_spec.
      destruct (run_of_value_prefix t) as [rest Hrest]. rewrite Hrun in Hrest.
      exists "state=", rest. now rewrite <- Hrest.
  - intros H. apply includes_tail. now apply IH.
Qed.

Lemma find_matches_pattern name pats :
  List.find (matches_pattern name) pats = List.find (JS.includes name) pats.
Proof.
  induction pats as [|p pats IH]; [reflexivity|].
  cbn [List.find]. now rewrite matches_pattern_includes, IH.
Qed.

(** The classifier returns the first pattern, in list order, that occurs in
    the lower-cased name; the [state=] lookup after the loop adds nothing. *)
Lemma parseStateFromLayerName_first_substring layerName pats :
  parseStateFromLayerName layerName pats
  = List.find (JS.includes (JS.toLowerCase layerName)) pats.
Proof.
  unfold parseStateFromLayerName. rewrite find_matches_pattern.
  destruct (List.find (JS.includes (JS.toLowerCase layerName)) pats) eqn:Hf;
    [reflexivity|].
  destruct (JS.includes (JS.toLowerCase layerName) "state="); [|reflexivity].
  destruct (match_state (JS.toLowerCase layerName)) as [m|] eqn:Hm; [|reflexivity].
  destruct (JS.array_includes pats m) eqn:Hin; [|reflexivity].
  exfalso. unfold JS.array_includes in Hin.
  apply existsb_exists in Hin as (p & Hp & Heq).
  apply String.eqb_eq in Heq as <-.
  apply match_state_includes in Hm.
  pose proof (List.find_none _ _ Hf m Hp). congruence.
Qed.

Lemma find_first_of_split {A} (f : A -> bool) l1 x l2 :
  (forall z, In z l1 -> f z = false) -> f x = true ->
  List.find f (l1 ++ x :: l2) = Some x.
Proof.
  intros Hl1 Hx. induction l1 as [|z l1 IH]; cbn [List.find app].
  - now rewrite Hx.
  - rewrite (Hl1 z (or_introl eq_refl)). apply IH. intros z' Hz'. apply Hl1. now right.
Qed.

Lemma find_earlier_of_split {A} (f : A -> bool) l1 x l2 z :
  In z l1 -> f z = true ->
  exists y, List.find f (l1 ++ x :: l2) = Some y /\ In y l1.
Proof.
  intros Hz Hfz. induction l1 as [|w l1 IH]; [destruct Hz|].
  cbn [List.find app]. destruct (f w) eqn:Hw.
  - exists w. split; [reflexivity | now left].
  - destruct Hz as [->|Hz]; [congruence|].
    destruct (IH Hz) as (y & Hy & Hin). exists y. split; [exact Hy | now right].
Qed.

(** C4 as stated fails: in ["hover state=error"] the tag names [error], and
    the classifier answers [hover], the earlier pattern of the list. *)
Lemma state_tag_does_not_take_precedence :
  JS.includes (JS.toLowerCase "hover state=error") ("state=" +:+ "error") = true
  /\ In "error" statePatterns
  /\ parseStateFromLayerName "hover state=error" statePatterns = Some "hover"
  /\ parseStateFromLayerName "hover state=error" statePatterns <> Some "error".
Proof.
  split; [reflexivity|]. split; [cbn; tauto|]. split; [reflexivity | discriminate].
Qed.

(** C4, amended: for a layer name that contains [state=X], case ignored,
    with [X] in the canonical list, the classification is the first canonical
    state, in the order of the list, that occurs anywhere in the name. It is
    [X] when no state listed before [X] occurs in the name, and a state
    listed before [X] when one of those does. *)
Theorem state_tag_classified_by_first_occurring layerName X l1 l2 :
  statePatterns = l1 ++ X :: l2 ->
  ~ In X l1 ->
  JS.includes (JS.toLowerCase layerName) ("state=" +:+ X) = true ->
  let found := parseStateFromLayerName layerName statePatterns in
  found = List.find (JS.includes (JS.toLowerCase layerName)) statePatterns
  /\ (exists Y, found = Some Y /\ In Y statePatterns
                /\ JS.includes (JS.toLowerCase layerName) Y = true)
  /\ ((forall Z, In Z l1 -> JS.includes (JS.toLowerCase layerName) Z = false) ->
      found = Some X)
  /\ (forall Z, In Z l1 -> JS.includes (JS.toLowerCase layerName) Z = true ->
      exists Y, found = Some Y /\ In Y l1 /\ Y <> X).
Proof.
  intros Hsplit Hnot Htag found. subst found.
  rewrite parseStateFromLayerName_first_substring.
  apply includes_suffix_of in Htag.
  split; [reflexivity|]. split.
  { destruct (List.find (JS.includes (JS.toLowerCase layerName)) statePatterns)
      as [Y|] eqn:Hf.
    - exists Y. apply List.find_some in Hf as [Hin HY]. now repeat split.
    - exfalso. assert (Hin : In X statePatterns)
        by (rewrite Hsplit; apply in_or_app; right; now left).
      pose proof (List.find_none _ _ Hf X Hin). congruence. }
  rewrite Hsplit. split.
  - intros Hnone. now apply find_first_of_split.
  - intros Z HZ HZin.
    destruct (find_earlier_of_split (JS.includes (JS.toLowerCase layerName))
                l1 X l2 Z HZ HZin) as (Y & HY & HYin).
    exists Y. repeat split; try assumption. intros ->. contradiction.
Qed.

Lemma state_tag_classified_by_first_occurring_witness :
  parseStateFromLayerName "Button, State=Error" statePatterns = Some "error".
Proof.
  assert (Hsplit : statePatterns
                   = ["hover"; "focus"; "active"; "pressed"; "disabled"; "selected";
                      "loading"] ++ "error" :: ["success"; "warning"; "visited"])
    by reflexivity.
  assert (Hnot : ~ In "error" ["hover"; "focus"; "active"; "pressed"; "disabled";
                               "selected"; "loading"]).
  { cbn. intros H. repeat (destruct H as [H|H]; [discriminate H|]). exact H. }
  assert (Htag : JS.includes (JS.toLowerCase "Button, State=Error")
                   ("state=" +:+ "error") = true) by reflexivity.
  destruct (state_tag_classified_by_first_occurring "Button, State=Error" "error"
              _ _ Hsplit Hnot Htag) as (_ & _ & Hfirst & _).
  apply Hfirst. intros Z HZ. cbn in HZ.
  repeat (destruct HZ as [<-|HZ]; [reflexivity|]). destruct HZ.
Defined.

(** The early return on an empty list agrees with the general path. *)
Lemma convertEffectsToCSS_fold effects :
  convertEffectsToCSS effects = css_of (fold_left collect_effect effects no_effects).
Proof. destruct effects; reflexivity. Qed.

Lemma collect_invisible acc e :
  visible e = Some false -> collect_effect acc (extractEffect e) = acc.
Proof. intros H. unfold collect_effect, extractEffect. cbn. now rewrite H. Qed.

Lemma px_nonempty q : exists c s, px q = String c s.
Proof.
  unfold px. destruct (JS.Number_toString _) as [|c s]; eexists _, _; reflexivity.
Qed.

Lemma shadow_text_nonempty e o rad : exists c s, shadow_text e o rad = String c s.
Proof.
  unfold shadow_text. destruct (px_nonempty (JS.num_or (x o) 0)) as (c & s & ->).
  eexists _, _. reflexivity.
Qed.

Lemma collect_drop_shadow acc e o rad :
  type e = "DROP_SHADOW" -> visible e <> Some false ->
  offset e = Some o -> radius e = Some rad ->
  collect_effect acc (extractEffect e)
  = {| shadows := shadows acc ++ [shadow_text (extractEffect e) o rad];
       filters := filters acc; backdrop := backdrop acc |}.
Proof.
  intros Ht Hv Ho Hr. unfold collect_effect.
  assert (Hvis : e_visible (extractEffect e) = true).
  { cbn. destruct (visible e) as [[]|]; congruence. }
  rewrite Hvis. cbn [negb]. cbn [e_type extractEffect]. rewrite Ht. cbn [String.eqb].
  change (String.eqb "DROP_SHADOW" "DROP_SHADOW") with true. cbv iota.
  unfold convertDropShadowToCSS. cbn [e_offset e_radius extractEffect].
  rewrite Ho, Hr.
  destruct (shadow_text_nonempty (extractEffect e) o rad) as (c & s & Hs).
  unfold push_truthy. fold (extractEffect e). now rewrite Hs.
Qed.

(** [x || 0] changes nothing once the number is rounded to pixels. *)
Lemma px_num_or q : px (JS.num_or q 0) = ShadowSpec.pixels q.
Proof.
  unfold px, ShadowSpec.pixels, JS.num_or.
  destruct (Qeq_bool q 0) eqn:Hq; [|reflexivity].
  apply Qeq_bool_iff in Hq. now rewrite (DoubleFacts.double_0 q Hq).
Qed.

Lemma num_or_num_or q : JS.num_or (JS.num_or q 0) 0 = JS.num_or q 0.
Proof. unfold JS.num_or. now destruct (Qeq_bool q 0) eqn:Hq; [|rewrite Hq]. Qed.

(** The code's text of a shadow is the text of the format. *)
Lemma shadow_text_spec e o rad :
  shadow_text (extractEffect e) o rad = ShadowSpec.shadow e o rad.
Proof.
  unfold shadow_text, ShadowSpec.shadow. cbn [e_spread e_color extractEffect].
  rewrite num_or_num_or, !px_num_or.
  destruct (color e) as [c|]; reflexivity.
Qed.

(** C7: the drop shadow of the specification converts to
    ["0px 4px 8px 0px rgba(0, 0, 0, 0.25)"]; a visible drop shadow with an
    offset and a radius converts to the text of the format, offsets, radius
    and spread rounded to whole pixels (halves upwards), the colour channels
    scaled to 0..255 and rounded, the alpha printed as it is; two such shadows
    give one [boxShadow] that joins their texts with a comma in input order;
    and an effect with [visible === false] can be removed from the list
    without changing the result. *)
Theorem effects_to_css :
  effectsToCSS (Some [shadow_0_4_8])
  = {| boxShadow := Some "0px 4px 8px 0px rgba(0, 0, 0, 0.25)";
       filter := None; backdropFilter := None |}
  /\ effectsToCSS (Some [shadow_coloured; shadow_faint])
     = {| boxShadow := Some ("2px -2px 3px 1px rgba(255, 128, 51, 0.3)" +:+ ", "
                             +:+ "0px 1px 2px 0px rgba(0, 0, 0, 1e-7)");
          filter := None; backdropFilter := None |}
  /\ (forall e1 e2 o1 rad1 o2 rad2,
        type e1 = "DROP_SHADOW" -> visible e1 <> Some false ->
        offset e1 = Some o1 -> radius e1 = Some rad1 ->
        type e2 = "DROP_SHADOW" -> visible e2 <> Some false ->
        offset e2 = Some o2 -> radius e2 = Some rad2 ->
        let s1 := ShadowSpec.shadow e1 o1 rad1 in
        let s2 := ShadowSpec.shadow e2 o2 rad2 in
        boxShadow (effectsToCSS (Some [e1])) = Some s1
        /\ boxShadow (effectsToCSS (Some [e2])) = Some s2
        /\ effectsToCSS (Some [e1; e2])
           = {| boxShadow := Some (s1 +:+ ", " +:+ s2);
                filter := None; backdropFilter := None |})
  /\ (forall l1 e l2,
        visible e = Some false ->
        effectsToCSS (Some (l1 ++ e :: l2)) = effectsToCSS (Some (l1 ++ l2)))
  /\ (forall e, visible e = Some false ->
        effectsToCSS (Some [e])
        = {| boxShadow := None; filter := None; backdropFilter := None |}).
Proof.
  split; [vm_compute; reflexivity|]. split; [vm_compute; reflexivity|].
  split; [|split].
  - intros e1 e2 o1 rad1 o2 rad2 Ht1 Hv1 Ho1 Hr1 Ht2 Hv2 Ho2 Hr2 s1 s2.
    unfold effectsToCSS. rewrite !convertEffectsToCSS_fold. cbn [extractEffects List.map fold_left].
    rewrite !(collect_drop_shadow _ e1 o1 rad1 Ht1 Hv1 Ho1 Hr1).
    rewrite !(collect_drop_shadow _ e2 o2 rad2 Ht2 Hv2 Ho2 Hr2).
    rewrite !shadow_text_spec. repeat split.
  - intros l1 e l2 Hv. unfold effectsToCSS. rewrite !convertEffectsToCSS_fold.
    cbn [extractEffects]. rewrite !List.map_app, !fold_left_app. cbn [List.map fold_left].
    now rewrite collect_invisible.
  - intros e Hv. unfold effectsToCSS. rewrite convertEffectsToCSS_fold.
    cbn [extractEffects List.map fold_left]. now rewrite collect_invisible.
Qed.

Lemma effects_to_css_witness :
  effectsToCSS (Some [shadow_0_1_3; shadow_0_4_8])
  = {| boxShadow :=
         Some (ShadowSpec.shadow shadow_0_1_3 {| x := 0; y := 1 |} 3 +:+ ", "
               +:+ ShadowSpec.shadow shadow_0_4_8 {| x := 0; y := 4 |} 8);
       filter := None; backdropFilter := None |}
  /\ effectsToCSS (Some ([shadow_0_1_3] ++ hidden_shadow :: [shadow_0_4_8]))
     = effectsToCSS (Some ([shadow_0_1_3] ++ [shadow_0_4_8])).
Proof.
  destruct effects_to_css as (_ & _ & Htwo & Hhid & _). split.
  - assert (Hv1 : visible shadow_0_1_3 <> Some false) by discriminate.
    assert (Hv2 : visible shadow_0_4_8 <> Some false) by discriminate.
    exact (proj2 (proj2 (Htwo shadow_0_1_3 shadow_0_4_8 _ _ _ _
                           eq_refl Hv1 eq_refl eq_refl eq_refl Hv2 eq_refl eq_refl))).
  - exact (Hhid [shadow_0_1_3] hidden_shadow [shadow_0_4_8] eq_refl).
Defined.

(** *** The walker *)

Lemma shape_ind (P : shape -> Prop) :
  (forall r ks, Forall P ks -> P (Shape r ks)) -> forall t, P t.
Proof.
  intros H. fix IH 1. intros [r ks]. apply H.
  revert ks. fix IHks 1. intros [|k ks]; constructor; [apply IH | apply IHks].
Qed.

Section Walker.

Variable h : heap.

Lemma extend_extend lm w l1 l2 :
  extend h lm (extend h lm w l1) l2 = extend h lm w (l1 ++ l2).
Proof.
  unfold extend, collected. cbn. now rewrite flat_map_app, !app_assoc.
Qed.

Lemma kids_height ks fuel :
  (height (Shape 0%nat ks) <= S fuel)%nat -> Forall (fun k => (height k <= fuel)%nat) ks.
Proof.
  cbn [height]. intros H. apply le_S_n in H.
  apply List.Forall_forall. intros k Hk.
  apply list_max_le in H. rewrite List.Forall_forall in H.
  apply H, List.in_map, Hk.
Qed.

Lemma unfolds_inv r ks :
  unfolds h (Shape r ks) = true ->
  (children (h r) = Some (List.map root ks) \/ (children (h r) = None /\ ks = []))
  /\ forallb (unfolds h) ks = true.
Proof.
  cbn [unfolds]. intros H. apply andb_true_iff in H as [H1 H2]. split; [|exact H2].
  destruct (children (h r)) as [cs|].
  - left. unfold refs_eqb in H1. apply bool_decide_eq_true in H1. now subst.
  - right. split; [reflexivity|]. now destruct ks.
Qed.

Lemma for_each_kids lm fuel ks : forall w,
  Forall (fun k => forall fuel w, (height k <= fuel)%nat -> unfolds h k = true ->
                   traverse fuel h lm (root k) w = Some (extend h lm w (preorder k))) ks ->
  Forall (fun k => (height k <= fuel)%nat) ks ->
  forallb (unfolds h) ks = true ->
  for_each (traverse fuel h lm) (List.map root ks) w
  = Some (extend h lm w (flat_map preorder ks)).
Proof.
  induction ks as [|k ks IH]; intros w HP Hh Hu.
  - cbn. unfold extend, collected. cbn. rewrite !app_nil_r. now destruct w.
  - inversion HP as [|? ? Hk HP']; subst. inversion Hh as [|? ? Hhk Hh']; subst.
    cbn [forallb] in Hu. apply andb_true_iff in Hu as [Huk Hu'].
    cbn [List.map for_each flat_map]. rewrite (Hk fuel w Hhk Huk).
    rewrite (IH _ HP' Hh' Hu'). now rewrite extend_extend.
Qed.

(** On a tree the collecting walk returns, having visited the nodes in
    pre-order. *)
Lemma traverse_tree lm t : forall fuel w,
  (height t <= fuel)%nat -> unfolds h t = true ->
  traverse fuel h lm (root t) w = Some (extend h lm w (preorder t)).
Proof.
  induction t as [r ks IH] using shape_ind. intros fuel w Hh Hu.
  destruct fuel as [|fuel]; [cbn in Hh; lia|].
  apply unfolds_inv in Hu as [Hc Hu].
  cbn [traverse root preorder].
  assert (Hw1 : {| components := if is_component (h r)
                                 then components w ++ [list_item lm (h r)]
                                 else components w;
                   visited := visited w ++ [r] |} = extend h lm w [r]).
  { unfold extend, collected. cbn. rewrite app_nil_r.
    destruct (is_component (h r)); [reflexivity | now rewrite app_nil_r]. }
  rewrite Hw1. destruct Hc as [-> | [-> ->]].
  - rewrite (for_each_kids lm fuel ks _ IH (kids_height ks fuel Hh) Hu).
    now rewrite extend_extend.
  - reflexivity.
Qed.

Lemma find_app_first {A} (p : A -> bool) l1 l2 :
  List.find p (l1 ++ l2)
  = match List.find p l1 with Some a => Some a | None => List.find p l2 end.
Proof.
  induction l1 as [|a l1 IH]; [reflexivity|]. cbn. now destruct (p a).
Qed.

Lemma through_app {A} (p : A -> bool) l1 l2 :
  through p (l1 ++ l2)
  = match List.find p l1 with Some _ => through p l1 | None => l1 ++ through p l2 end.
Proof.
  induction l1 as [|a l1 IH]; [reflexivity|]. cbn. destruct (p a); [reflexivity|].
  rewrite IH. now destruct (List.find p l1).
Qed.

Lemma through_none {A} (p : A -> bool) l : List.find p l = None -> through p l = l.
Proof.
  induction l as [|a l IH]; [reflexivity|]. cbn. destruct (p a); [discriminate|].
  intros H. now rewrite IH.
Qed.

Lemma through_prefix {A} (p : A -> bool) l : exists rest, l = through p l ++ rest.
Proof.
  induction l as [|a l [rest IH]]; [exists []; reflexivity|].
  cbn. destruct (p a).
  - exists l. reflexivity.
  - exists rest. cbn. now rewrite <- IH.
Qed.

Lemma first_found_kids cid fuel ks : forall log,
  Forall (fun k => forall fuel log, (height k <= fuel)%nat -> unfolds h k = true ->
                   findInNode fuel h cid (root k) log
                   = Some (List.find (has_id h cid) (preorder k),
                           log ++ through (has_id h cid) (preorder k))) ks ->
  Forall (fun k => (height k <= fuel)%nat) ks ->
  forallb (unfolds h) ks = true ->
  first_found (findInNode fuel h cid) (List.map root ks) log
  = Some (List.find (has_id h cid) (flat_map preorder ks),
          log ++ through (has_id h cid) (flat_map preorder ks)).
Proof.
  induction ks as [|k ks IH]; intros log HP Hh Hu.
  - cbn. now rewrite app_nil_r.
  - inversion HP as [|? ? Hk HP']; subst. inversion Hh as [|? ? Hhk Hh']; subst.
    cbn [forallb] in Hu. apply andb_true_iff in Hu as [Huk Hu'].
    cbn [List.map first_found flat_map]. rewrite (Hk fuel log Hhk Huk).
    rewrite find_app_first, through_app.
    destruct (List.find (has_id h cid) (preorder k)) eqn:Hf; [reflexivity|].
    rewrite (IH _ HP' Hh' Hu'), (through_none _ _ Hf). now rewrite app_assoc.
Qed.

(** On a tree the search returns the first node in pre-order with the id,
    having visited the nodes up to it. *)
Lemma findInNode_tree cid t : forall fuel log,
  (height t <= fuel)%nat -> unfolds h t = true ->
  findInNode fuel h cid (root t) log
  = Some (List.find (has_id h cid) (preorder t),
          log ++ through (has_id h cid) (preorder t)).
Proof.
  induction t as [r ks IH] using shape_ind. intros fuel log Hh Hu.
  destruct fuel as [|fuel]; [cbn in Hh; lia|].
  apply unfolds_inv in Hu as [Hc Hu].
  cbn [findInNode root preorder List.find through]. fold (has_id h cid r).
  destruct (has_id h cid r); [reflexivity|].
  destruct Hc as [-> | [-> ->]].
  - rewrite (first_found_kids cid fuel ks _ IH (kids_height ks fuel Hh) Hu).
    now rewrite <- app_assoc.
  - reflexivity.
Qed.

End Walker.

Lemma traverse_cycle lm fuel : forall w, traverse fuel h_cycle lm 0%nat w = None.
Proof.
  induction fuel as [|fuel IH]; intros w; [reflexivity|].
  cbn [traverse h_cycle frame children for_each]. now rewrite IH.
Qed.

Lemma findInNode_cycle fuel : forall log, findInNode fuel h_cycle "9:9" 0%nat log = None.
Proof.
  induction fuel as [|fuel IH]; intros log; [reflexivity|].
  cbn [findInNode h_cycle frame children id first_found].
  change (String.eqb "0:1" "9:9") with false. cbv iota. now rewrite IH.
Qed.

(** C5 as stated fails: on a page that is its own child no call depth
    suffices, neither for the listing nor for the search of an absent id, and
    on a page holding one component object twice that object is visited and
    listed twice. *)
Lemma walker_keeps_no_visited_set :
  (forall fuel, extractComponentList fuel h_cycle file0 = None)
  /\ (forall fuel, findComponentInFile fuel h_cycle file0 "9:9" = None)
  /\ (visited <$> extractComponentList 2 h_shared file0) = Some [0; 1; 1]%nat
  /\ (List.map Session.id <$> (components <$> extractComponentList 2 h_shared file0))
     = Some ["1:2"; "1:2"]
  /\ ~ List.NoDup [0; 1; 1]%nat.
Proof.
  split; [intros fuel; apply traverse_cycle|].
  split; [intros fuel; apply findInNode_cycle|].
  split; [reflexivity|]. split; [reflexivity|].
  intros H. inversion H as [|? ? _ H']; subst. inversion H' as [|? ? Hn _]; subst.
  apply Hn. now left.
Qed.

(** C5, amended: when the nodes below the document root form a finite
    tree [t], every call depth of at least the tree's height lets both walks
    return: the listing has visited exactly the nodes of [t] in pre-order and
    lists its COMPONENT and COMPONENT_SET nodes in that order, the search
    returns the first node in pre-order with the id, having visited the nodes
    up to it. Without shared nodes in [t] no node is visited twice. The
    walks keep no record of visited nodes. *)
Theorem walker_on_trees (h : heap) (t : shape) (file : FigmaFile) (cid : string) (fuel : nat) :
  unfolds h t = true ->
  document file = root t ->
  (height t <= fuel)%nat ->
  extractComponentList fuel h file
  = Some {| components := collected h (lastModified file) (preorder t);
            visited := preorder t |}
  /\ findComponentInFile fuel h file cid
     = Some (List.find (has_id h cid) (preorder t), through (has_id h cid) (preorder t))
  /\ (List.NoDup (preorder t) ->
      (forall w, extractComponentList fuel h file = Some w -> List.NoDup (visited w))
      /\ (forall found log, findComponentInFile fuel h file cid = Some (found, log) ->
          List.NoDup log)).
Proof.
  intros Hu Hdoc Hh. unfold extractComponentList, findComponentInFile. rewrite Hdoc.
  rewrite (traverse_tree h _ t fuel _ Hh Hu).
  rewrite (findInNode_tree h cid t fuel _ Hh Hu).
  split; [reflexivity|]. split; [reflexivity|].
  intros Hnd. split.
  - intros w [= <-]. exact Hnd.
  - intros found log [= _ <-].
    destruct (through_prefix (has_id h cid) (preorder t)) as [rest Hrest].
    rewrite Hrest in Hnd. now apply List.NoDup_app_remove_r in Hnd.
Qed.

Lemma walker_on_trees_witness :
  extractComponentList 3 h_tree file0
  = Some {| components := collected h_tree (lastModified file0) (preorder t_tree);
            visited := [0; 1; 2; 3]%nat |}
  /\ findComponentInFile 3 h_tree file0 "1:3" = Some (Some 2%nat, [0; 1; 2]%nat).
Proof.
  assert (Hh : (height t_tree <= 3)%nat) by (vm_compute; lia).
  destruct (walker_on_trees h_tree t_tree file0 "1:3" 3 eq_refl eq_refl Hh)
    as (Hlist & Hfind & _).
  split; [exact Hlist | exact Hfind].
Defined.

End ExtractorFacts.

(** ** Token synthesizer *)

Module TokensFacts.
Import Tokens.

(** C10: a variable whose value in the default mode of its collection is
    falsy, that is [false], [0] or the empty string, converts to null just as
    one with no value in that mode does, and the loop over the variables then
    leaves every token list as it was; a BOOLEAN variable whose default-mode
    value is [false] yields no token. *)
Theorem falsy_default_value_yields_no_token
    (variable : FigmaVariable) (collectionsMap : gmap string VariableCollection) :
  (default_value variable collectionsMap = None ->
   convertVariableToToken variable collectionsMap = Returned None)
  /\ (forall v,
        default_value variable collectionsMap = Some v ->
        v = VBoolean false \/ (exists q, v = VNumber q /\ (q == 0)%Q) \/ v = VString "" ->
        convertVariableToToken variable collectionsMap = Returned None
        /\ forall tokens, process_variable collectionsMap tokens variable = tokens)
  /\ (resolvedType variable = "BOOLEAN" ->
      default_value variable collectionsMap = Some (VBoolean false) ->
      forall token, convertVariableToToken variable collectionsMap <> Returned (Some token)).
Proof.
  assert (Hfalsy : forall v, default_value variable collectionsMap = Some v ->
                             truthy v = false ->
                             convertVariableToToken variable collectionsMap = Returned None).
  { intros v Hv Ht. unfold convertVariableToToken. now rewrite Hv, Ht. }
  split; [|split].
  - intros Hnone. unfold convertVariableToToken. now rewrite Hnone.
  - intros v Hv Hcases.
    assert (Ht : truthy v = false).
    { destruct Hcases as [-> | [(q & -> & Hq) | ->]]; try reflexivity.
      cbn. apply Qeq_bool_iff in Hq. now rewrite Hq. }
    split; [now apply (Hfalsy v)|].
    intros tokens. unfold process_variable. now rewrite (Hfalsy v Hv Ht).
  - intros _ Hv token. now rewrite (Hfalsy _ Hv eq_refl).
Qed.

Lemma falsy_default_value_yields_no_token_witness :
  convertVariableToToken flag_off (collections_map [theme]) = Returned None.
Proof.
  destruct (falsy_default_value_yields_no_token flag_off (collections_map [theme]))
    as (_ & Hfalsy & _).
  exact (proj1 (Hfalsy (VBoolean false) eq_refl (or_introl eq_refl))).
Defined.

Section Metadata.

Context {FigmaStyle : Type}.
Variable convertStyleToToken : FigmaStyle -> result (option DesignToken).
Variable getFileStyles : string -> ApiError + list FigmaStyle.
Variable getLocalVariables
  : string -> ApiError + (list FigmaVariable * list VariableCollection).

Lemma filterTokenTypes_all tokens tokenTypes' :
  JS.array_includes tokenTypes' "all" = true ->
  filterTokenTypes tokens tokenTypes' = tokens.
Proof. intros H. unfold filterTokenTypes. now rewrite H. Qed.

Lemma filterTokenTypes_drops_metadata tokens tokenTypes' :
  JS.array_includes tokenTypes' "all" = false ->
  _metadata (filterTokenTypes tokens tokenTypes') = None.
Proof. intros H. unfold filterTokenTypes. now rewrite H. Qed.

Lemma push_into_metadata k token tokens :
  _metadata (push_into k token tokens) = _metadata tokens.
Proof. now destruct k. Qed.

Lemma process_variable_metadata collectionsMap tokens variable :
  _metadata (process_variable collectionsMap tokens variable) = _metadata tokens.
Proof.
  unfold process_variable.
  destruct (convertVariableToToken variable collectionsMap) as [|[token|]];
    try reflexivity.
  destruct (category token) as [[|c0 cat]|]; try reflexivity.
  destruct (getCollectionFromCategory _); [now rewrite push_into_metadata | reflexivity].
Qed.

Lemma process_style_metadata tokens style :
  _metadata (process_style convertStyleToToken tokens style) = _metadata tokens.
Proof.
  unfold process_style.
  destruct (convertStyleToToken style) as [|[token|]]; try reflexivity.
  destruct (getCollectionFromTokenType _); [apply push_into_metadata | reflexivity].
Qed.

Lemma fold_left_metadata {A} (f : TokenCollection -> A -> TokenCollection) l :
  (forall tokens a, _metadata (f tokens a) = _metadata tokens) ->
  forall tokens, _metadata (fold_left f l tokens) = _metadata tokens.
Proof.
  intros Hf. induction l as [|a l IH]; intros tokens; [reflexivity|].
  cbn [fold_left]. now rewrite IH, Hf.
Qed.

(** Synthesis itself always marks the variables as available. *)
Lemma processStylesAndVariables_metadata styles vs cs :
  _metadata (processStylesAndVariables convertStyleToToken styles vs cs)
  = Some {| variablesAvailable := true; variablesMessage := None; planRequired := None |}.
Proof.
  unfold processStylesAndVariables.
  rewrite fold_left_metadata by apply process_variable_metadata.
  rewrite fold_left_metadata by apply process_style_metadata.
  reflexivity.
Qed.


Lemma extractTokens_invalid w args now :
  GetDesignTokensArgsSchema_parse args = Threw ->
  extractTokens convertStyleToToken getFileStyles getLocalVariables w args now = (Threw, w).
Proof. intros H. unfold extractTokens. now rewrite H. Qed.

(** On a cache hit the answer is the bare filter of the cached collection. *)
Lemma extractTokens_hit w args now cached cache1 :
  GetDesignTokensArgsSchema_parse args = Returned args ->
  Cache.get (cache w) (Cache.key_designTokens (fileId args)) now = (Some cached, cache1) ->
  fst (extractTokens convertStyleToToken getFileStyles getLocalVariables w args now)
  = Returned (filterTokenTypes cached (tokenTypes args)).
Proof. intros Hv H. unfold extractTokens. rewrite Hv. cbv zeta. now rewrite H. Qed.

(** On a miss the answer carries the metadata of the collection that is
    put into the cache, whatever the filter. *)
Lemma extractTokens_miss_keeps_metadata w args now cache1 tokens :
  GetDesignTokensArgsSchema_parse args = Returned args ->
  Cache.get (cache w) (Cache.key_designTokens (fileId args)) now = (None, cache1) ->
  fst (extractTokens convertStyleToToken getFileStyles getLocalVariables w args now)
  = Returned tokens ->
  exists stored,
    Cache.items (Cache.memoryCache
      (cache (snd (extractTokens convertStyleToToken getFileStyles getLocalVariables
                     w args now))))
    = {| Cache.key := Cache.key_designTokens (fileId args);
         Cache.value := {| Cache.data := stored; Cache.timestamp := now;
                           Cache.ttl := Cache.ttl_designTokens |};
         Cache.start := now |}
      :: List.tl (Cache.items (Cache.memoryCache
           (cache (snd (extractTokens convertStyleToToken getFileStyles getLocalVariables
                          w args now)))))
    /\ is_Some (_metadata stored)
    /\ _metadata tokens = _metadata stored.
Proof.
  intros Hv Hget. unfold extractTokens. rewrite Hv. cbv zeta. rewrite Hget.
  destruct (getFileStyles (fileId args)) as [e | styles]; [discriminate|].
  set (triple := match getLocalVariables (fileId args) with
                 | inl error => _ | inr _ => _ end).
  destruct triple as [[vs cs] global].
  set (processed := processStylesAndVariables convertStyleToToken styles vs cs).
  assert (Hmd : is_Some (_metadata processed)).
  { subst processed. rewrite processStylesAndVariables_metadata. eauto. }
  set (final := match global with
                | Some variablesMetadata => with_metadata (Some variablesMetadata) processed
                | None => processed
                end).
  assert (Hfinal : is_Some (_metadata final)).
  { subst final. destruct global; [cbn; eauto | exact Hmd]. }
  cbn [fst snd cache]. intros [= <-].
  exists final. split; [|split].
  - unfold Cache.set. cbn [Cache.memoryCache Cache.with_cache].
    destruct (CacheFacts.lru_set_find (Cache.memoryCache cache1)
                (Cache.key_designTokens (fileId args))
                {| Cache.data := final; Cache.timestamp := now;
                   Cache.ttl := Cache.Z_or (Some Cache.ttl_designTokens)
                                           (Cache.defaultTtl cache1) |} now)
      as [rest Hrest].
    rewrite Hrest. reflexivity.
  - exact Hfinal.
  - destruct Hfinal as [md Hmd']. rewrite Hmd'. reflexivity.
Qed.

(** C3 on the code: a first call for the colours of a file whose
    variables are forbidden answers with the Enterprise notice; the same call
    a second later is served from the cache and its answer has no metadata,
    although the cached collection still has the notice. In general a cache
    hit for arguments that pass the schema, under a filter without [all],
    answers without metadata. *)
Theorem cache_hit_drops_metadata :
  let call := extractTokens convertStyleToToken no_styles variables_forbidden in
  let first := call fresh_world colors_only 0 in
  let second := call (snd first) colors_only 1000 in
  fst first
  = Returned {| colors := []; typography := []; spacing := []; effects := [];
                variables := []; _metadata := Some enterprise_only |}
  /\ fst (Cache.get (cache (snd first)) (Cache.key_designTokens "F1") 1000)
     = Some {| colors := []; typography := []; spacing := []; effects := [];
               variables := []; _metadata := Some enterprise_only |}
  /\ fst second
     = Returned {| colors := []; typography := []; spacing := []; effects := [];
                   variables := []; _metadata := None |}
  /\ (forall w args now cached cache1,
        GetDesignTokensArgsSchema_parse args = Returned args ->
        Cache.get (cache w) (Cache.key_designTokens (fileId args)) now
        = (Some cached, cache1) ->
        JS.array_includes (tokenTypes args) "all" = false ->
        exists answer,
          fst (extractTokens convertStyleToToken getFileStyles getLocalVariables w args now)
          = Returned answer
          /\ _metadata answer = None).
Proof.
  split; [reflexivity|]. split; [reflexivity|]. split; [reflexivity|].
  intros w args now cached cache1 Hv Hget Hall.
  exists (filterTokenTypes cached (tokenTypes args)).
  split; [now apply extractTokens_hit with cache1|].
  now apply filterTokenTypes_drops_metadata.
Qed.

End Metadata.

Lemma cache_hit_drops_metadata_witness :
  exists answer,
    fst (extractTokens (fun _ : Empty_set => Returned None) no_styles variables_forbidden
           (snd (extractTokens (fun _ : Empty_set => Returned None) no_styles
                   variables_forbidden fresh_world colors_only 0))
           colors_only 1000)
    = Returned answer
    /\ _metadata answer = None.
Proof.
  destruct (cache_hit_drops_metadata (fun _ : Empty_set => Returned None)
              no_styles variables_forbidden) as (_ & _ & _ & Hgen).
  exact (Hgen (snd (extractTokens (fun _ : Empty_set => Returned None) no_styles
                      variables_forbidden fresh_world colors_only 0))
              colors_only 1000 _ _ eq_refl eq_refl eq_refl).
Defined.

End TokensFacts.

(** * Further properties *)

(** ** Session / implementation tracker: the remaining operations *)

Module SessionMoreFacts.
Import Session SessionSpec SessionAdmin.

(** X1: [setWorkingFile] replaces whatever session the client had: the new
    session is stored under the client, starts at [now] with no tracked
    status, other clients keep theirs, and until it expires every status
    lookup for the client answers null and the summary counts nothing. *)
Theorem setWorkingFile_starts_afresh (st : sessions) clientId parsedUrl fname now :
  let r := setWorkingFile st clientId parsedUrl fname now in
  snd r !! clientId = Some (fst r)
  /\ setAt (fst r) = now
  /\ implementationStatus (fst r) = ∅
  /\ fileId (fst r) = parsed_fileId parsedUrl
  /\ (forall other, other <> clientId -> snd r !! other = st !! other)
  /\ (forall later cid, later - now <= SESSION_TTL ->
        fst (getComponentStatus (snd r) clientId cid later) = None
        /\ hasWorkingFile (fst (getImplementationSummary (snd r) clientId later)) = true
        /\ stats_total (stats (fst (getImplementationSummary (snd r) clientId later))) = 0%nat
        /\ completionPercentage
             (stats (fst (getImplementationSummary (snd r) clientId later))) = 0).
Proof.
  cbn zeta. unfold setWorkingFile. cbn [fst snd].
  split; [apply lookup_insert_eq|]. split; [reflexivity|]. split; [reflexivity|].
  split; [reflexivity|]. split; [intros other Hne; now apply lookup_insert_ne|].
  intros later cid Hle.
  unfold getComponentStatus, getImplementationSummary.
  erewrite SessionFacts.getWorkingFile_live; [|apply lookup_insert_eq|exact Hle].
  cbn. repeat split.
Qed.

Lemma setWorkingFile_starts_afresh_witness :
  fst (getComponentStatus (snd (setWorkingFile st_one_implemented "client" url0 None 5000))
         "client" "a" 6000) = None.
Proof.
  destruct (setWorkingFile_starts_afresh st_one_implemented "client" url0 None 5000)
    as (_ & _ & _ & _ & _ & H).
  assert (Hle : 6000 - 5000 <= SESSION_TTL) by (vm_compute; discriminate).
  exact (proj1 (H 6000 "a" Hle)).
Defined.

(** X2: without a live session, none stored or the stored one older than
    24 hours, [updateComponentStatus] returns false and records nothing: the
    client has no session afterwards and every other client's session is
    untouched. *)
Theorem updateComponentStatus_needs_live_session (st : sessions) clientId cid cname
    status' notes' framework' now :
  fst (getWorkingFile st clientId now) = None ->
  let r := updateComponentStatus st clientId cid cname status' notes' framework' now in
  fst r = false
  /\ snd r !! clientId = None
  /\ (forall other, other <> clientId -> snd r !! other = st !! other).
Proof.
  intros Hnone. cbn zeta. unfold updateComponentStatus.
  unfold getWorkingFile in *.
  destruct (st !! clientId) as [session|] eqn:Hs.
  - destruct (now - setAt session >? SESSION_TTL); [|discriminate].
    cbn. split; [reflexivity|]. split; [apply lookup_delete_eq|].
    intros other Hne. now apply lookup_delete_ne.
  - cbn. repeat split. exact Hs.
Qed.

Lemma updateComponentStatus_needs_live_session_witness :
  fst (updateComponentStatus st_one_implemented "client" "b" "B" InProgress None None
         (SESSION_TTL + 1)) = false.
Proof.
  exact (proj1 (updateComponentStatus_needs_live_session st_one_implemented "client"
                  "b" "B" InProgress None None (SESSION_TTL + 1) eq_refl)).
Defined.

(** X3: on a live session a status written by [updateComponentStatus] is
    what [getComponentStatus] reads back for that component at any later
    moment of the session's 24 hours: the given name, status, notes and
    framework, modified at the time of the update; the statuses of the other
    components read as before. *)
Theorem update_then_getComponentStatus (st : sessions) clientId session cid cname
    status' notes' framework' now later :
  st !! clientId = Some session ->
  now - setAt session <= SESSION_TTL ->
  later - setAt session <= SESSION_TTL ->
  let st1 := snd (updateComponentStatus st clientId cid cname status' notes' framework' now) in
  (exists entry,
     fst (getComponentStatus st1 clientId cid later) = Some entry
     /\ componentId entry = cid /\ componentName entry = cname
     /\ status entry = status' /\ notes entry = notes' /\ framework entry = framework'
     /\ lastModified entry = Some now)
  /\ (forall other, other <> cid ->
        fst (getComponentStatus st1 clientId other later)
        = fst (getComponentStatus st clientId other later)).
Proof.
  intros Hs Hnow Hlater. cbn zeta. unfold updateComponentStatus.
  rewrite (SessionFacts.getWorkingFile_live _ _ _ _ Hs Hnow). cbn [snd].
  unfold getComponentStatus.
  erewrite SessionFacts.getWorkingFile_live; [|apply lookup_insert_eq|exact Hlater].
  rewrite (SessionFacts.getWorkingFile_live _ _ _ _ Hs Hlater).
  cbn. split.
  - eexists. split; [apply lookup_insert_eq|]. repeat split.
  - intros other Hne. now apply lookup_insert_ne.
Qed.

Lemma update_then_getComponentStatus_witness :
  exists entry,
    fst (getComponentStatus
           (snd (updateComponentStatus st_one_implemented "client" "b" "B" InProgress
                   (Some "wip") None 2000))
           "client" "b" 3000) = Some entry
    /\ componentId entry = "b" /\ componentName entry = "B"
    /\ status entry = InProgress /\ notes entry = Some "wip" /\ framework entry = None
    /\ lastModified entry = Some 2000.
Proof.
  assert (H1 : 2000 - setAt session_a <= SESSION_TTL) by (vm_compute; discriminate).
  assert (H2 : 3000 - setAt session_a <= SESSION_TTL) by (vm_compute; discriminate).
  exact (proj1 (update_then_getComponentStatus st_one_implemented "client" session_a
                  "b" "B" InProgress (Some "wip") None 2000 3000 eq_refl H1 H2)).
Defined.

(** X4: [clearWorkingFile] answers whether the client had a session (also
    an expired one); afterwards the client has none, so a read answers null, a
    status update answers false and a second clear answers false, while the
    other clients keep their sessions. *)
Theorem clearWorkingFile_forgets (st : sessions) clientId now :
  let r := clearWorkingFile st clientId in
  (fst r = true <-> is_Some (st !! clientId))
  /\ fst (getWorkingFile (snd r) clientId now) = None
  /\ (forall cid cname s n f,
        fst (updateComponentStatus (snd r) clientId cid cname s n f now) = false)
  /\ hasWorkingFile (fst (getImplementationSummary (snd r) clientId now)) = false
  /\ fst (clearWorkingFile (snd r) clientId) = false
  /\ (forall other, other <> clientId -> snd r !! other = st !! other).
Proof.
  cbn zeta. unfold clearWorkingFile. cbn [fst snd].
  assert (Hgone : getWorkingFile (delete clientId st) clientId now
                  = (None, delete clientId st)).
  { apply SessionFacts.getWorkingFile_absent, lookup_delete_eq. }
  split; [apply bool_decide_eq_true|].
  split; [now rewrite Hgone|].
  split; [intros; unfold updateComponentStatus; now rewrite Hgone|].
  split; [unfold getImplementationSummary; now rewrite Hgone|].
  split.
  - apply bool_decide_eq_false. rewrite lookup_delete_eq. intros [x Hx]. discriminate.
  - intros other Hne. now apply lookup_delete_ne.
Qed.

(** X5: [cleanup] deletes exactly the sessions older than 24 hours and
    keeps the others as they are; no read at that moment can tell the
    difference, and the number of sessions does not grow. *)
Theorem cleanup_removes_exactly_expired (st : sessions) now :
  (forall clientId session,
     cleanup st now !! clientId = Some session
     <-> st !! clientId = Some session /\ now - setAt session <= SESSION_TTL)
  /\ (forall clientId,
        fst (getWorkingFile (cleanup st now) clientId now)
        = fst (getWorkingFile st clientId now))
  /\ (getSessionCount (cleanup st now) <= getSessionCount st)%nat.
Proof.
  assert (Hlook : forall clientId session,
            cleanup st now !! clientId = Some session
            <-> st !! clientId = Some session /\ now - setAt session <= SESSION_TTL).
  { intros clientId session. unfold cleanup. rewrite map_lookup_filter_Some. cbn.
    split; intros [H1 H2]; (split; [exact H1 | lia]). }
  split; [exact Hlook|]. split.
  - intros clientId. unfold getWorkingFile.
    destruct (st !! clientId) as [session|] eqn:Hs.
    + destruct (Z.gtb_spec (now - setAt session) SESSION_TTL) as [Hgt|Hle].
      * destruct (cleanup st now !! clientId) as [s'|] eqn:Hc; [|reflexivity].
        apply Hlook in Hc as [Hc1 Hc2]. rewrite Hs in Hc1. injection Hc1 as <-. lia.
      * assert (Hc : cleanup st now !! clientId = Some session) by (apply Hlook; now split).
        rewrite Hc. destruct (Z.gtb_spec (now - setAt session) SESSION_TTL); [lia|reflexivity].
    + destruct (cleanup st now !! clientId) as [s'|] eqn:Hc; [|reflexivity].
      apply Hlook in Hc as [Hc1 _]. congruence.
  - unfold getSessionCount, cleanup. apply map_subseteq_size, map_filter_subseteq.
Qed.

Lemma count_status_total (statuses : list ComponentImplementationStatus) :
  (count_status Pending statuses + count_status InProgress statuses
   + count_status Implemented statuses + count_status NeedsUpdate statuses
   = length statuses)%nat.
Proof.
  unfold count_status. induction statuses as [|s l IH]; [reflexivity|].
  cbn [List.filter length]. destruct (status s); cbn [Status_eqb length]; lia.
Qed.

Lemma count_status_le x (statuses : list ComponentImplementationStatus) :
  (count_status x statuses <= length statuses)%nat.
Proof.
  unfold count_status. induction statuses as [|s l IH]; [reflexivity|].
  cbn [List.filter length]. destruct (Status_eqb (status s) x); cbn [length]; lia.
Qed.

Lemma Math_round_percentage (k n : nat) :
  (0 < n)%nat -> (k <= n)%nat ->
  0 <= JS.Math_round (JS.fmul (JS.fdiv (inject_Z (Z.of_nat k)) (inject_Z (Z.of_nat n))) 100)
    <= 100.
Proof.
  intros Hn Hk. unfold JS.fmul, JS.fdiv.
  set (q := (inject_Z (Z.of_nat k) / inject_Z (Z.of_nat n))%Q).
  assert (Hn' : (0 < inject_Z (Z.of_nat n))%Q).
  { change 0%Q with (inject_Z 0). rewrite <- Zlt_Qlt. lia. }
  assert (H0 : (0 <= q)%Q).
  { subst q. apply Qle_shift_div_l; [exact Hn'|]. rewrite Qmult_0_l.
    change 0%Q with (inject_Z 0). rewrite <- Zle_Qle. lia. }
  assert (H1 : (q <= 1)%Q).
  { subst q. apply Qle_shift_div_r; [exact Hn'|]. rewrite Qmult_1_l.
    rewrite <- Zle_Qle. lia. }
  destruct (DoubleFacts.double_unit q H0 H1) as [Hd0 Hd1].
  assert (Hsmall : (JS.pow2 (-53) < 1 # 400)%Q) by reflexivity.
  apply DoubleFacts.Math_round_double_bound; [| |lia|reflexivity].
  - apply Qmult_le_0_compat; [exact Hd0 | discriminate].
  - change (inject_Z 100) with 100%Q. lra.
Qed.

(** X6: in every summary the four status counts add up to [total], none
    exceeds it, and [completionPercentage] lies between 0 and 100; without a
    working file all of them are 0. *)
Theorem getImplementationSummary_counts_consistent (st : sessions) clientId now :
  let s := stats (fst (getImplementationSummary st clientId now)) in
  (stats_pending s + stats_inProgress s + stats_implemented s + stats_needsUpdate s
   = stats_total s)%nat
  /\ (stats_implemented s <= stats_total s)%nat
  /\ 0 <= completionPercentage s <= 100
  /\ (hasWorkingFile (fst (getImplementationSummary st clientId now)) = false ->
      stats_total s = 0%nat /\ completionPercentage s = 0).
Proof.
  cbn zeta. unfold getImplementationSummary.
  destruct (getWorkingFile st clientId now) as [[session|] st'].
  - cbn [fst stats stats_total stats_pending stats_inProgress stats_implemented
         stats_needsUpdate completionPercentage hasWorkingFile].
    set (statuses := snd <$> map_to_list (implementationStatus session)).
    split; [apply count_status_total|]. split; [apply count_status_le|].
    split; [|discriminate].
    destruct (Nat.ltb_spec 0 (length statuses)) as [Hpos|_]; [|lia].
    apply Math_round_percentage; [exact Hpos | apply count_status_le].
  - cbn. repeat split; lia.
Qed.

Lemma getImplementationSummary_counts_consistent_witness :
  let s := stats (fst (getImplementationSummary st_one_implemented "client"
                         (SESSION_TTL + 1))) in
  stats_total s = 0%nat /\ completionPercentage s = 0.
Proof.
  destruct (getImplementationSummary_counts_consistent st_one_implemented "client"
              (SESSION_TTL + 1)) as (_ & _ & _ & H).
  exact (H eq_refl).
Defined.

End SessionMoreFacts.

(** ** Cache: reads, deletion and invalidation *)

Module CacheMoreFacts.
Import Cache CacheAdmin.

Section Facts.

Context {T : Type}.
Implicit Types (c : CacheService T) (m : LRUCache T) (k : string) (v : T).

Lemma find_without_eq k (l : list (LRUItem T)) : List.find (has_key k) (without k l) = None.
Proof.
  induction l as [|it l IH]; [reflexivity|]. unfold without in *. cbn [List.filter].
  destruct (has_key k it) eqn:Hk; cbn [negb]; [exact IH|].
  cbn [List.find]. now rewrite Hk.
Qed.

Lemma has_key_ne k k' (it : LRUItem T) : k' <> k -> has_key k it = true -> has_key k' it = false.
Proof.
  unfold has_key. intros Hne Hk. apply String.eqb_eq in Hk.
  apply String.eqb_neq. congruence.
Qed.

Lemma find_without_ne k k' (l : list (LRUItem T)) :
  k' <> k -> List.find (has_key k') (without k l) = List.find (has_key k') l.
Proof.
  intros Hne. induction l as [|it l IH]; [reflexivity|]. unfold without in *.
  cbn [List.filter List.find].
  destruct (has_key k it) eqn:Hk; cbn [negb].
  - now rewrite (has_key_ne k k' it Hne Hk).
  - cbn [List.find]. now rewrite IH.
Qed.

(** The answer of [get] is decided by the first entry stored under the key. *)
Lemma get_answer c k now :
  fst (get c k now)
  = match List.find (has_key k) (items (memoryCache c)) with
    | Some it =>
        if isStale (memoryCache c) it now then None
        else if isExpired (value it) now then None
        else Some (data (value it))
    | None => None
    end.
Proof.
  unfold get, lru_get.
  destruct (List.find (has_key k) (items (memoryCache c))) as [it|]; [|reflexivity].
  destruct (isStale (memoryCache c) it now); [reflexivity|].
  now destruct (isExpired (value it) now).
Qed.

(** X7: [has] answers true exactly when [get] at the same moment returns
    an entry, and leaves the cache in the same state as that [get]: an
    expired entry is deleted by either, a live one becomes the most recently
    used with a fresh age. *)
Theorem has_agrees_with_get c k now :
  (fst (has c k now) = true <-> is_Some (fst (get c k now)))
  /\ snd (has c k now) = snd (get c k now)
  /\ (fst (has c k now) = false ->
      List.find (has_key k) (items (memoryCache (snd (has c k now)))) = None).
Proof.
  unfold has, get, lru_get.
  destruct (List.find (has_key k) (items (memoryCache c))) as [it|] eqn:Hf.
  - destruct (isStale (memoryCache c) it now).
    + cbn [fst snd memoryCache with_cache lru_delete with_items items].
      split; [split; [discriminate | intros [x Hx]; discriminate]|].
      split; [reflexivity|]. intros _. apply find_without_eq.
    + destruct (isExpired (value it) now).
      * cbn [fst snd memoryCache with_cache lru_delete with_items items].
        split; [split; [discriminate | intros [x Hx]; discriminate]|].
        split; [reflexivity|]. intros _. apply find_without_eq.
      * cbn. split; [split; [eauto | reflexivity]|]. split; [reflexivity | discriminate].
  - cbn. split; [split; [discriminate | intros [x Hx]; discriminate]|].
    split; [reflexivity|]. intros _. exact Hf.
Qed.

(** X8: after [delete(k)] a [get(k)] returns null and so does [has];
    the answers for every other key are what they were; after [clear()] every
    [get] returns null. *)
Theorem delete_and_clear c k now :
  fst (get (delete c k) k now) = None
  /\ fst (has (delete c k) k now) = false
  /\ (forall k', k' <> k -> fst (get (delete c k) k' now) = fst (get c k' now))
  /\ (forall k', fst (get (clear c) k' now) = None)
  /\ stats_size (clear c) = 0%nat.
Proof.
  split; [rewrite get_answer; cbn; now rewrite find_without_eq|].
  split.
  { unfold has, lru_get. cbn [delete memoryCache with_cache lru_delete with_items items].
    now rewrite find_without_eq. }
  split.
  { intros k' Hne. rewrite !get_answer. cbn. now rewrite find_without_ne. }
  split; [intros k'; now rewrite get_answer|reflexivity].
Qed.

(** X9: storing under one key does not change what [get] answers for
    another key, as long as the cache has room or the stored key is already
    present (so that nothing is evicted). *)
Theorem set_keeps_other_keys c k v (ttl' : option Z) now k' later :
  k' <> k ->
  (length (items (memoryCache c)) < max (memoryCache c))%nat
  \/ is_Some (List.find (has_key k) (items (memoryCache c))) ->
  fst (get (set c k v ttl' now) k' later) = fst (get c k' later).
Proof.
  intros Hne Hroom. rewrite !get_answer. unfold set, lru_set. cbn [memoryCache with_cache].
  assert (Hfresh : forall (e : CacheEntry T) s,
            has_key k' {| key := k; value := e; start := s |} = false).
  { intros e s. unfold has_key. cbn. apply String.eqb_neq. congruence. }
  destruct (List.find (has_key k) (items (memoryCache c))) as [it|] eqn:Hf.
  - cbn [items with_items List.find]. rewrite Hfresh, find_without_ne by exact Hne.
    reflexivity.
  - destruct Hroom as [Hroom | [x Hx]]; [|discriminate].
    destruct (Nat.leb_spec (max (memoryCache c)) (length (items (memoryCache c))));
      [lia|].
    cbn [items with_items List.find]. rewrite Hfresh. reflexivity.
Qed.

End Facts.

Lemma set_keeps_other_keys_witness :
  fst (get (set (set (default_cache nat) "a" 1%nat None 0) "b" 2%nat None 1) "a" 2)
  = fst (get (set (default_cache nat) "a" 1%nat None 0) "a" 2).
Proof.
  assert (Hne : "a" <> "b") by discriminate.
  apply (set_keeps_other_keys (set (default_cache nat) "a" 1%nat None 0)
           "b" 2%nat None 1 "a" 2 Hne).
  left. vm_compute. lia.
Defined.

End CacheMoreFacts.

Module CacheInvalidationFacts.
Import Cache CacheAdmin CacheMoreFacts.

Section Facts.

Context {T : Type}.
Implicit Types (c : CacheService T) (m : LRUCache T) (k : string) (v : T).

Lemma fold_delete_ttl (ks : list string) : forall m,
  lru_ttl (fold_left lru_delete ks m) = lru_ttl m.
Proof. induction ks as [|a ks IH]; intros m; [reflexivity|]. cbn [fold_left]. now rewrite IH. Qed.

Lemma fold_delete_find (ks : list string) k : forall m,
  List.find (has_key k) (items (fold_left lru_delete ks m))
  = if existsb (String.eqb k) ks then None else List.find (has_key k) (items m).
Proof.
  induction ks as [|a ks IH]; intros m; [reflexivity|].
  cbn [fold_left existsb]. rewrite IH. cbn [lru_delete items with_items].
  destruct (String.eqb_spec k a) as [->|Hne]; cbn [orb].
  - rewrite find_without_eq. now destruct (existsb _ ks).
  - now rewrite find_without_ne.
Qed.

(** X10: after [invalidatePattern] every key the expression matches
    reads as absent, at that moment and later, and every key it does not match
    reads exactly as it would have without the call. *)
Theorem invalidatePattern_removes_matching (regex_test : string -> bool) c now :
  (forall k later, regex_test k = true -> now <= later ->
     fst (get (invalidatePattern regex_test c now) k later) = None)
  /\ (forall k later, regex_test k = false ->
        fst (get (invalidatePattern regex_test c now) k later) = fst (get c k later)).
Proof.
  split.
  - intros k later Hm Hlater. rewrite get_answer. unfold invalidatePattern.
    cbn [memoryCache with_cache]. rewrite fold_delete_find.
    destruct (existsb (String.eqb k) _) eqn:Hin; [reflexivity|].
    destruct (List.find (has_key k) (items (memoryCache c))) as [it|] eqn:Hf;
      [|reflexivity].
    apply List.find_some in Hf as [Hit Hk]. unfold has_key in Hk.
    apply String.eqb_eq in Hk.
    assert (Hstale : isStale (memoryCache c) it now = true).
    { destruct (isStale (memoryCache c) it now) eqn:Hs; [reflexivity|]. exfalso.
      assert (Hex : existsb (String.eqb k)
                      (List.filter regex_test (lru_keys (memoryCache c) now)) = true).
      { apply existsb_exists. exists k. split; [|apply String.eqb_refl].
        apply List.filter_In. split; [|exact Hm].
        unfold lru_keys. rewrite <- Hk. apply List.in_map.
        apply List.filter_In. split; [exact Hit | now rewrite Hs]. }
      congruence. }
    unfold isStale in *. rewrite fold_delete_ttl.
    destruct (Z.gtb_spec (now - start it) (lru_ttl (memoryCache c))); [|discriminate].
    destruct (Z.gtb_spec (later - start it) (lru_ttl (memoryCache c))); [reflexivity|lia].
  - intros k later Hm. rewrite !get_answer. unfold invalidatePattern.
    cbn [memoryCache with_cache]. rewrite fold_delete_find.
    destruct (existsb (String.eqb k) _) eqn:Hin.
    + apply existsb_exists in Hin as (k0 & Hk0 & Heq). apply String.eqb_eq in Heq as <-.
      apply List.filter_In in Hk0 as [_ Hk0]. congruence.
    + destruct (List.find (has_key k) (items (memoryCache c))) as [it|]; [|reflexivity].
      unfold isStale. now rewrite fold_delete_ttl.
Qed.

(** [get] returns the value just stored while neither clock has run out. *)
Lemma set_then_get c k v (ttl' : option Z) now later :
  well_formed c ->
  later - now <= Z_or ttl' (defaultTtl c) ->
  later - now <= defaultTtl c ->
  fst (get (set c k v ttl' now) k later) = Some v.
Proof.
  intros [Hpos Httl] He Hd. rewrite get_answer. unfold set. cbn [memoryCache with_cache].
  destruct (CacheFacts.lru_set_find (memoryCache c) k
              {| data := v; timestamp := now; ttl := Z_or ttl' (defaultTtl c) |} now)
    as [rest Hr].
  rewrite Hr. cbn [List.find]. rewrite CacheFacts.has_key_refl.
  unfold isStale, isExpired. cbn [start value timestamp ttl data].
  rewrite CacheFacts.lru_set_ttl, Httl.
  destruct (Z.gtb_spec (later - now) (defaultTtl c)); [lia|].
  destruct (Z.gtb_spec (later - now) (Z_or ttl' (defaultTtl c))); [lia | reflexivity].
Qed.

(** X12: an entry is served only while both clocks allow it: [get]
    returns the value stored by [set] as long as the time elapsed exceeds
    neither the entry's own time-to-live nor the cache's default one, and
    returns null once the default has elapsed without a read, also for an entry
    stored with a longer time-to-live of its own. *)
Theorem entry_served_within_both_ttls c k v (ttl' : option Z) now later :
  well_formed c ->
  let e := Z_or ttl' (defaultTtl c) in
  (later - now <= e -> later - now <= defaultTtl c ->
   fst (get (set c k v ttl' now) k later) = Some v)
  /\ (later - now > defaultTtl c -> fst (get (set c k v ttl' now) k later) = None)
  /\ (later - now > e -> fst (get (set c k v ttl' now) k later) = None).
Proof.
  intros [Hpos Httl] e. rewrite get_answer. unfold set. cbn [memoryCache with_cache].
  destruct (CacheFacts.lru_set_find (memoryCache c) k
              {| data := v; timestamp := now; ttl := e |} now) as [rest Hr].
  fold e. rewrite Hr. cbn [List.find]. rewrite CacheFacts.has_key_refl.
  unfold isStale, isExpired. cbn [start value timestamp ttl data].
  rewrite CacheFacts.lru_set_ttl, Httl.
  destruct (Z.gtb_spec (later - now) (defaultTtl c));
    destruct (Z.gtb_spec (later - now) e); repeat split; intros; try reflexivity; lia.
Qed.

End Facts.

Lemma invalidatePattern_removes_matching_witness :
  fst (get (invalidatePattern (fun k => JS.startsWith k "component:")
              (set (set (default_cache nat) "component:F:1" 1%nat None 0)
                   "tokens:F" 2%nat None 0) 10)
         "component:F:1" 20) = None.
Proof.
  destruct (invalidatePattern_removes_matching (fun k => JS.startsWith k "component:")
              (set (set (default_cache nat) "component:F:1" 1%nat None 0)
                   "tokens:F" 2%nat None 0) 10) as [H _].
  apply H; [reflexivity | lia].
Defined.

(** The design tokens, stored for 24 hours in a cache with the default
    options, are gone after an idle hour. *)
Lemma entry_served_within_both_ttls_witness :
  fst (get (set (default_cache nat) "tokens:F" 7%nat (Some ttl_designTokens) 0)
         "tokens:F" 3600001) = None.
Proof.
  assert (Hwf : well_formed (default_cache nat)) by (split; reflexivity).
  destruct (entry_served_within_both_ttls (default_cache nat) "tokens:F" 7%nat
              (Some ttl_designTokens) 0 3600001 Hwf) as (_ & H & _).
  apply H. vm_compute. reflexivity.
Defined.

Lemma delete_and_clear_witness :
  fst (get (delete (set (default_cache nat) "a" 1%nat None 0) "b") "a" 5)
  = fst (get (set (default_cache nat) "a" 1%nat None 0) "a" 5).
Proof.
  destruct (delete_and_clear (set (default_cache nat) "a" 1%nat None 0) "b" 5)
    as (_ & _ & H & _).
  apply H. discriminate.
Defined.

Lemma no_colon_split (f f' c c' : string) :
  JS.includes f ":" = false -> JS.includes f' ":" = false ->
  f +:+ ":" +:+ c = f' +:+ ":" +:+ c' -> f = f' /\ c = c'.
Proof.
  assert (Hcolon : forall t, ":" +:+ t = String ":" t) by reflexivity.
  revert f'. induction f as [|a f IH]; intros f' Hf Hf' Heq.
  - destruct f' as [|a' f'].
    + rewrite !JSFacts.append_nil, !Hcolon in Heq. injection Heq as ->. now split.
    + rewrite JSFacts.append_nil, JSFacts.append_cons, Hcolon in Heq.
      injection Heq as <- _. cbn in Hf'. discriminate.
  - destruct f' as [|a' f'].
    + rewrite JSFacts.append_nil, JSFacts.append_cons, Hcolon in Heq.
      injection Heq as -> _. cbn in Hf. discriminate.
    + rewrite !JSFacts.append_cons in Heq. injection Heq as -> Heq.
      cbn [JS.includes] in Hf, Hf'.
      apply orb_false_iff in Hf as [_ Hf]. apply orb_false_iff in Hf' as [_ Hf'].
      destruct (IH f' Hf Hf' Heq) as [-> ->]. now split.
Qed.

(** X11: the key generators never collide: keys of different kinds
    (component, component list, tokens, specification) are different strings
    whatever the ids, and for file ids without a colon two component keys, or
    two specification keys, are equal only for the same file and the same
    component. *)
Theorem cache_keys_do_not_collide :
  (forall f c f', key_component f c <> key_componentList f')
  /\ (forall f c f', key_component f c <> key_designTokens f')
  /\ (forall f c f' c', key_component f c <> key_componentSpec f' c')
  /\ (forall f f', key_componentList f <> key_designTokens f')
  /\ (forall f f' c', key_componentList f <> key_componentSpec f' c')
  /\ (forall f f' c', key_designTokens f <> key_componentSpec f' c')
  /\ (forall f f', key_componentList f = key_componentList f' -> f = f')
  /\ (forall f f', key_designTokens f = key_designTokens f' -> f = f')
  /\ (forall f c f' c',
        JS.includes f ":" = false -> JS.includes f' ":" = false ->
        (key_component f c = key_component f' c' -> f = f' /\ c = c')
        /\ (key_componentSpec f c = key_componentSpec f' c' -> f = f' /\ c = c')).
Proof.
  unfold key_component, key_componentList, key_designTokens, key_componentSpec.
  do 6 (split; [intros; intros Heq; vm_compute in Heq; discriminate Heq|]).
  split; [intros f f' Heq; now apply String.app_inj in Heq|].
  split; [intros f f' Heq; now apply String.app_inj in Heq|].
  intros f c f' c' Hf Hf'.
  split; intros Heq; apply String.app_inj in Heq; now apply no_colon_split.
Qed.

End CacheInvalidationFacts.

(** ** Token synthesizer: names, buckets and the shared flag *)

Module TokensMoreFacts.
Import Tokens TokensSpec.

Lemma dash_others_chars s : slug_chars (dash_others s) = true.
Proof.
  induction s as [|c s IH]; [reflexivity|]. cbn [dash_others slug_chars].
  rewrite IH, andb_true_r. destruct (is_slug_char c) eqn:Hc; [now rewrite Hc|].
  reflexivity.
Qed.

Lemma squeeze_head c s : exists t, squeeze_dashes (String c s) = String c t.
Proof.
  revert c. induction s as [|d s IH]; intros c; [eexists; reflexivity|].
  cbn [squeeze_dashes]. destruct (Ascii.eqb c "-" && Ascii.eqb d "-") eqn:Hcd.
  - apply andb_true_iff in Hcd as [Hc Hd].
    apply Ascii.eqb_eq in Hc, Hd. subst. apply IH.
  - eexists. reflexivity.
Qed.

Lemma squeeze_chars s : slug_chars s = true -> slug_chars (squeeze_dashes s) = true.
Proof.
  induction s as [|c s IH]; [reflexivity|]. intros H.
  cbn [slug_chars] in H. apply andb_true_iff in H as [Hc Hs].
  destruct s as [|d s]; [cbn; now rewrite Hc|].
  cbn [squeeze_dashes]. destruct (Ascii.eqb c "-" && Ascii.eqb d "-").
  - now apply IH.
  - cbn [slug_chars]. rewrite Hc. now apply IH.
Qed.

Lemma squeeze_step c d s :
  squeeze_dashes (String c (String d s))
  = if Ascii.eqb c "-" && Ascii.eqb d "-" then squeeze_dashes (String d s)
    else String c (squeeze_dashes (String d s)).
Proof. reflexivity. Qed.

Lemma squeeze_single s : single_dashes (squeeze_dashes s) = true.
Proof.
  induction s as [|c s IH]; [reflexivity|].
  destruct s as [|d s]; [reflexivity|].
  rewrite squeeze_step. destruct (Ascii.eqb c "-" && Ascii.eqb d "-") eqn:Hcd.
  - exact IH.
  - destruct (squeeze_head d s) as [t Ht]. rewrite Ht in *.
    cbn [single_dashes]. unfold is_dash. rewrite Hcd. exact IH.
Qed.

Lemma drop_last_chars s : slug_chars s = true -> slug_chars (drop_last_dash s) = true.
Proof.
  induction s as [|c s IH]; [reflexivity|]. intros H.
  cbn [slug_chars] in H. apply andb_true_iff in H as [Hc Hs].
  destruct s as [|d s].
  - cbn. destruct (Ascii.eqb c "-"); [reflexivity | cbn; now rewrite Hc].
  - change (drop_last_dash (String c (String d s)))
      with (String c (drop_last_dash (String d s))).
    cbn [slug_chars]. rewrite Hc. now apply IH.
Qed.

Lemma drop_last_single s : single_dashes s = true -> single_dashes (drop_last_dash s) = true.
Proof.
  induction s as [|c s IH]; [reflexivity|]. intros H.
  destruct s as [|d s].
  - cbn. now destruct (Ascii.eqb c "-").
  - change (drop_last_dash (String c (String d s)))
      with (String c (drop_last_dash (String d s))).
    cbn [single_dashes] in H. apply andb_true_iff in H as [Hcd Hs].
    specialize (IH Hs).
    destruct s as [|e s].
    + cbn [drop_last_dash]. destruct (Ascii.eqb d "-"); [reflexivity|].
      cbn [single_dashes]. now rewrite Hcd.
    + change (drop_last_dash (String d (String e s)))
        with (String d (drop_last_dash (String e s))) in *.
      cbn [single_dashes]. now rewrite Hcd.
Qed.

Lemma drop_last_no_dash_end s :
  single_dashes s = true -> ends_with_dash (drop_last_dash s) = false.
Proof.
  induction s as [|c s IH]; [reflexivity|]. intros H.
  destruct s as [|d s].
  - cbn. destruct (Ascii.eqb c "-") eqn:Hc; [reflexivity|]. cbn. exact Hc.
  - change (drop_last_dash (String c (String d s)))
      with (String c (drop_last_dash (String d s))).
    cbn [single_dashes] in H. apply andb_true_iff in H as [Hcd Hs].
    specialize (IH Hs).
    destruct (drop_last_dash (String d s)) as [|e t] eqn:Hd.
    + (* the rest was a single dash *)
      destruct s as [|e s]; [|discriminate Hd].
      cbn in Hd. destruct (Ascii.eqb d "-") eqn:Hdd; [|discriminate Hd].
      cbn. unfold is_dash in *. rewrite Hdd, andb_true_r in Hcd.
      now apply negb_true_iff in Hcd.
    + exact IH.
Qed.

Lemma drop_last_head c s :
  is_dash c = false -> starts_with_dash (drop_last_dash (String c s)) = false.
Proof.
  intros Hc. destruct s as [|d s].
  - cbn. unfold is_dash in Hc. rewrite Hc. exact Hc.
  - exact Hc.
Qed.

Lemma drop_last_id s : ends_with_dash s = false -> drop_last_dash s = s.
Proof.
  induction s as [|c s IH]; [reflexivity|]. intros H.
  destruct s as [|d s].
  - cbn in *. unfold is_dash in H. now rewrite H.
  - change (drop_last_dash (String c (String d s)))
      with (String c (drop_last_dash (String d s))).
    f_equal. now apply IH.
Qed.

Lemma squeeze_id s : single_dashes s = true -> squeeze_dashes s = s.
Proof.
  induction s as [|c s IH]; [reflexivity|]. intros H.
  destruct s as [|d s]; [reflexivity|].
  cbn [single_dashes] in H. apply andb_true_iff in H as [Hcd Hs].
  cbn [squeeze_dashes]. unfold is_dash in Hcd. apply negb_true_iff in Hcd.
  rewrite Hcd. f_equal. now apply IH.
Qed.

Lemma dash_others_id s : slug_chars s = true -> dash_others s = s.
Proof.
  induction s as [|c s IH]; [reflexivity|]. intros H.
  cbn [slug_chars] in H. apply andb_true_iff in H as [Hc Hs].
  cbn [dash_others]. rewrite (IH Hs). f_equal.
  destruct (is_slug_char c); [reflexivity|].
  cbn in Hc. unfold is_dash in Hc. now apply Ascii.eqb_eq in Hc.
Qed.

Lemma lower_slug_char c : is_slug_char c || is_dash c = true -> JS.lower_ascii c = c.
Proof.
  destruct c as [[] [] [] [] [] [] [] []]; cbn; intros H;
    first [reflexivity | discriminate H].
Qed.

Lemma toLowerCase_id s : slug_chars s = true -> JS.toLowerCase s = s.
Proof.
  induction s as [|c s IH]; [reflexivity|]. intros H.
  cbn [slug_chars] in H. apply andb_true_iff in H as [Hc Hs].
  cbn [JS.toLowerCase]. now rewrite (lower_slug_char c Hc), (IH Hs).
Qed.

(** X13: [normalizeTokenName] always returns a slug, lower-case letters
    and digits in groups separated by single dashes with no dash at either
    end, and returns a slug unchanged; normalizing twice is normalizing
    once. *)
Theorem normalizeTokenName_slug (name' : string) :
  is_slug (normalizeTokenName name') = true
  /\ (is_slug name' = true -> normalizeTokenName name' = name')
  /\ normalizeTokenName (normalizeTokenName name') = normalizeTokenName name'.
Proof.
  assert (Hslug : forall s, is_slug (normalizeTokenName s) = true).
  { intros s. unfold normalizeTokenName.
    set (sq := squeeze_dashes (dash_others (JS.toLowerCase s))).
    assert (Hc : slug_chars sq = true) by apply squeeze_chars, dash_others_chars.
    assert (Hs : single_dashes sq = true) by apply squeeze_single.
    clearbody sq. unfold is_slug, trim_dashes.
    destruct sq as [|c t]; [reflexivity|].
    destruct (Ascii.eqb c "-") eqn:Hd.
    - cbn [slug_chars] in Hc. apply andb_true_iff in Hc as [_ Hc].
      assert (Hs' : single_dashes t = true).
      { destruct t as [|d t]; [reflexivity|]. cbn [single_dashes] in Hs.
        now apply andb_true_iff in Hs as [_ Hs]. }
      rewrite (drop_last_chars t Hc), (drop_last_single t Hs'),
        (drop_last_no_dash_end t Hs'). cbn [andb negb]. rewrite andb_true_r.
      destruct t as [|d t]; [reflexivity|].
      cbn [single_dashes] in Hs. apply andb_true_iff in Hs as [Hcd _].
      unfold is_dash in Hcd. rewrite Hd in Hcd. cbn in Hcd.
      apply negb_true_iff in Hcd. now rewrite (drop_last_head d t Hcd).
    - rewrite (drop_last_chars _ Hc), (drop_last_single _ Hs),
        (drop_last_no_dash_end _ Hs), (drop_last_head c t Hd). reflexivity. }
  assert (Hid : forall s, is_slug s = true -> normalizeTokenName s = s).
  { intros s H. unfold is_slug in H.
    apply andb_true_iff in H as [H He]. apply andb_true_iff in H as [H Hst].
    apply andb_true_iff in H as [Hc Hs].
    apply negb_true_iff in He, Hst.
    unfold normalizeTokenName.
    rewrite (toLowerCase_id s Hc), (dash_others_id s Hc), (squeeze_id s Hs).
    unfold trim_dashes. destruct s as [|c t]; [reflexivity|].
    cbn in Hst. unfold is_dash in Hst. rewrite Hst. now apply drop_last_id. }
  split; [apply Hslug|]. split; [apply Hid|]. apply Hid, Hslug.
Qed.

End TokensMoreFacts.

Module TokensRoutingFacts.
Import Tokens TokensScenarios.

Lemma processVariableValue_plain v ty :
  String.eqb ty "COLOR" = false -> processVariableValue v ty = Returned v.
Proof. intros H. unfold processVariableValue. now rewrite H. Qed.

Lemma processModes_plain (vbm : gmap string VariableValue) ty :
  String.eqb ty "COLOR" = false -> processModes vbm ty = Returned vbm.
Proof.
  intros H. unfold processModes.
  rewrite <- (list_to_map_to_list vbm) at 2.
  induction (map_to_list vbm) as [|[k v] l IH]; [reflexivity|].
  cbn [fold_right]. rewrite IH, (processVariableValue_plain _ _ H). reflexivity.
Qed.

Lemma convert_plain variable collectionsMap v :
  default_value variable collectionsMap = Some v ->
  truthy v = true ->
  String.eqb (resolvedType variable) "COLOR" = false ->
  convertVariableToToken variable collectionsMap
  = Returned (Some (plain_token variable collectionsMap v)).
Proof.
  intros Hv Ht Hty. unfold convertVariableToToken.
  rewrite Hv, Ht. cbn [negb].
  rewrite (processVariableValue_plain _ _ Hty), (processModes_plain _ _ Hty).
  unfold plain_token.
  now destruct (1 <? size (default ∅ (valuesByMode variable)))%nat.
Qed.

(** X14: a variable with a truthy default value is always appended to
    [variables], with its value unchanged when its type is not COLOR, and
    besides to at most one other list: a FLOAT variable to [spacing], unless
    its name mentions border or stroke and none of spacing, gap, margin,
    padding, in which case it goes to [colors]; a STRING variable to
    [typography] when its name mentions font or family and nowhere else
    otherwise; a BOOLEAN variable nowhere else. *)
Theorem variable_buckets_by_type variable collectionsMap v tokens :
  default_value variable collectionsMap = Some v ->
  truthy v = true ->
  let token := plain_token variable collectionsMap v in
  let n := JS.toLowerCase (v_name variable) in
  (resolvedType variable = "FLOAT" ->
   type token = Tspacing
   /\ process_variable collectionsMap tokens variable
      = push_into
          (if negb (JS.includes n "spacing" || JS.includes n "gap"
                    || JS.includes n "margin" || JS.includes n "padding")
              && (JS.includes n "border" || JS.includes n "stroke")
           then Kcolors else Kspacing)
          token (push_variable token tokens))
  /\ (resolvedType variable = "STRING" ->
      type token = Tcontent
      /\ process_variable collectionsMap tokens variable
         = if JS.includes n "font" || JS.includes n "family"
           then push_into Ktypography token (push_variable token tokens)
           else push_variable token tokens)
  /\ (resolvedType variable = "BOOLEAN" ->
      type token = Tboolean
      /\ process_variable collectionsMap tokens variable = push_variable token tokens).
Proof.
  intros Hv Ht token n.
  assert (Hconv : String.eqb (resolvedType variable) "COLOR" = false ->
                  process_variable collectionsMap tokens variable
                  = match getCollectionFromCategory
                            (inferVariableCategory (v_name variable) (resolvedType variable)) with
                    | Some k => push_into k token (push_variable token tokens)
                    | None => push_variable token tokens
                    end).
  { intros Hty. unfold process_variable. rewrite (convert_plain _ _ _ Hv Ht Hty).
    fold token. cbn [category plain_token token].
    assert (Hne : exists c s, inferVariableCategory (v_name variable) (resolvedType variable)
                              = String c s).
    { unfold inferVariableCategory. rewrite Hty.
      repeat match goal with
             | |- context [if ?b then _ else _] => destruct b
             end; eexists _, _; reflexivity. }
    destruct Hne as (c0 & s0 & Hcat). rewrite Hcat. reflexivity. }
  split; [|split]; intros Hty.
  - split; [unfold token, plain_token; cbn; now rewrite Hty|].
    rewrite Hconv by now rewrite Hty.
    unfold inferVariableCategory. fold n. rewrite Hty.
    change (String.eqb "FLOAT" "COLOR") with false.
    change (String.eqb "FLOAT" "FLOAT") with true. cbv iota.
    destruct (JS.includes n "spacing" || JS.includes n "gap"
              || JS.includes n "margin" || JS.includes n "padding"); [reflexivity|].
    destruct (JS.includes n "border" || JS.includes n "stroke"); [reflexivity|].
    now destruct (JS.includes n "radius" || JS.includes n "corner").
  - split; [unfold token, plain_token; cbn; now rewrite Hty|].
    rewrite Hconv by now rewrite Hty.
    unfold inferVariableCategory. fold n. rewrite Hty.
    change (String.eqb "STRING" "COLOR") with false.
    change (String.eqb "STRING" "FLOAT") with false.
    change (String.eqb "STRING" "STRING") with true. cbv iota.
    now destruct (JS.includes n "font" || JS.includes n "family").
  - split; [unfold token, plain_token; cbn; now rewrite Hty|].
    rewrite Hconv by now rewrite Hty.
    unfold inferVariableCategory. rewrite Hty. reflexivity.
Qed.

(** A FLOAT variable named [border-width] lands among the colours. *)
Lemma variable_buckets_by_type_witness :
  List.map name (colors (process_variable (collections_map [theme]) empty_tokens border_width))
  = ["theme-border-width"]
  /\ spacing (process_variable (collections_map [theme]) empty_tokens border_width) = [].
Proof.
  destruct (variable_buckets_by_type border_width (collections_map [theme])
              (VNumber 2%Q) empty_tokens eq_refl eq_refl) as ((_ & H) & _).
  { reflexivity. }
  rewrite H. split; reflexivity.
Defined.

(** X18: a variable whose collection is unknown, or whose collection
    names no default mode and has no modes, is looked up under the key
    ["undefined"]; unless the variable has a value under that key it yields no
    token and the token lists stay as they are. *)
Theorem variable_without_default_mode_is_skipped variable collectionsMap tokens :
  default_mode_id (collectionsMap !! variableCollectionId variable) = None ->
  default ∅ (valuesByMode variable) !! "undefined" = None ->
  convertVariableToToken variable collectionsMap = Returned None
  /\ process_variable collectionsMap tokens variable = tokens.
Proof.
  intros Hmode Hval.
  assert (Hd : default_value variable collectionsMap = None).
  { unfold default_value. rewrite Hmode. exact Hval. }
  assert (Hc : convertVariableToToken variable collectionsMap = Returned None).
  { unfold convertVariableToToken. now rewrite Hd. }
  split; [exact Hc|]. unfold process_variable. now rewrite Hc.
Qed.

Lemma variable_without_default_mode_is_skipped_witness :
  convertVariableToToken orphan (collections_map [theme]) = Returned None
  /\ process_variable (collections_map [theme]) empty_tokens orphan = empty_tokens.
Proof.
  exact (variable_without_default_mode_is_skipped orphan (collections_map [theme])
           empty_tokens eq_refl eq_refl).
Defined.

Section Flag.

Context {FigmaStyle : Type}.
Variable convertStyleToToken : FigmaStyle -> result (option DesignToken).
Variable getFileStyles : string -> ApiError + list FigmaStyle.
Variable getLocalVariables
  : string -> ApiError + (list FigmaVariable * list VariableCollection).

Local Abbreviation extract :=
  (extractTokens convertStyleToToken getFileStyles getLocalVariables).


(** What a cache miss with a successful styles request returns and leaves:
    the collection synthesized from the styles and the variables fetched,
    under the flag, goes into the cache whole. *)
Lemma extractTokens_miss w args now cache1 styles :
  GetDesignTokensArgsSchema_parse args = Returned args ->
  Cache.get (cache w) (Cache.key_designTokens (fileId args)) now = (None, cache1) ->
  getFileStyles (fileId args) = inr styles ->
  let fetched := match getLocalVariables (fileId args) with
                 | inr r => r
                 | inl _ => ([], [])
                 end in
  let flag := match getLocalVariables (fileId args) with
              | inr _ => figmaVariablesMetadata w
              | inl error => Some (metadata_of_error error)
              end in
  let synthesized :=
    processStylesAndVariables convertStyleToToken styles (fst fetched) (snd fetched) in
  let tokens := match flag with
                | Some variablesMetadata => with_metadata (Some variablesMetadata) synthesized
                | None => synthesized
                end in
  is_Some (_metadata tokens)
  /\ extract w args now
     = (Returned (with_metadata (_metadata tokens)
                    (filterTokenTypes tokens (tokenTypes args))),
        {| cache := Cache.set cache1 (Cache.key_designTokens (fileId args)) tokens
                      (Some Cache.ttl_designTokens) now;
           figmaVariablesMetadata := flag |}).
Proof.
  intros Hv Hget Hst fetched flag synthesized tokens.
  assert (Hmd : is_Some (_metadata tokens)).
  { subst tokens. destruct flag; [cbn; eauto|]. subst synthesized.
    rewrite TokensFacts.processStylesAndVariables_metadata. eauto. }
  split; [exact Hmd|].
  unfold extractTokens. rewrite Hv. cbv zeta. rewrite Hget, Hst.
  subst tokens synthesized fetched flag.
  destruct (getLocalVariables (fileId args)) as [e|[vs cs]];
    cbn [fst snd figmaVariablesMetadata] in *;
    destruct Hmd as [md Hmd]; rewrite Hmd; reflexivity.
Qed.

Lemma all_of_valid args :
  GetDesignTokensArgsSchema_parse args = Returned args ->
  GetDesignTokensArgsSchema_parse (all_of (fileId args)) = Returned (all_of (fileId args)).
Proof.
  unfold GetDesignTokensArgsSchema_parse, all_of. cbn [fileId tokenTypes].
  destruct (fileId args); [discriminate | reflexivity].
Qed.

(** X16: a cache miss stores the whole collection, not the filtered
    answer: the collection synthesized from the styles and the variables
    fetched, under the flag, is what the cache holds afterwards, and while
    the entry lives (24 hours and the cache's default time-to-live, whichever
    is shorter) every later call for the file with arguments that pass the
    schema answers with that collection under its own filter, the whole of it
    under [all], whatever the first call's filter was and whatever the API
    would return by then. *)
Theorem cache_holds_unfiltered_collection w args now cache1 styles later :
  Cache.well_formed (cache w) ->
  GetDesignTokensArgsSchema_parse args = Returned args ->
  Cache.get (cache w) (Cache.key_designTokens (fileId args)) now = (None, cache1) ->
  getFileStyles (fileId args) = inr styles ->
  later - now <= Cache.ttl_designTokens ->
  later - now <= Cache.defaultTtl (cache w) ->
  let fetched := match getLocalVariables (fileId args) with
                 | inr r => r
                 | inl _ => ([], [])
                 end in
  let flag := match getLocalVariables (fileId args) with
              | inr _ => figmaVariablesMetadata w
              | inl error => Some (metadata_of_error error)
              end in
  let synthesized :=
    processStylesAndVariables convertStyleToToken styles (fst fetched) (snd fetched) in
  let tokens := match flag with
                | Some variablesMetadata => with_metadata (Some variablesMetadata) synthesized
                | None => synthesized
                end in
  fst (extract w args now)
  = Returned (with_metadata (_metadata tokens) (filterTokenTypes tokens (tokenTypes args)))
  /\ fst (Cache.get (cache (snd (extract w args now)))
            (Cache.key_designTokens (fileId args)) later) = Some tokens
  /\ (forall getFileStyles' getLocalVariables' tokenTypes',
        GetDesignTokensArgsSchema_parse {| fileId := fileId args; tokenTypes := tokenTypes' |}
        = Returned {| fileId := fileId args; tokenTypes := tokenTypes' |} ->
        fst (extractTokens convertStyleToToken getFileStyles' getLocalVariables'
               (snd (extract w args now))
               {| fileId := fileId args; tokenTypes := tokenTypes' |} later)
        = Returned (filterTokenTypes tokens tokenTypes'))
  /\ (forall getFileStyles' getLocalVariables',
        fst (extractTokens convertStyleToToken getFileStyles' getLocalVariables'
               (snd (extract w args now)) (all_of (fileId args)) later)
        = Returned tokens).
Proof.
  intros Hwf Hv Hget Hst Hl1 Hl2 fetched flag synthesized tokens.
  assert (Hwf1 : Cache.well_formed cache1).
  { pose proof (CacheFacts.get_well_formed (cache w)
                  (Cache.key_designTokens (fileId args)) now Hwf) as H.
    now rewrite Hget in H. }
  assert (Hd1 : Cache.defaultTtl cache1 = Cache.defaultTtl (cache w)).
  { pose proof (f_equal snd Hget) as H. cbn in H. rewrite <- H.
    unfold Cache.get. destruct (Cache.lru_get _ _ _) as [[entry|] m]; [|reflexivity].
    now destruct (Cache.isExpired entry now). }
  destruct (extractTokens_miss w args now cache1 styles Hv Hget Hst) as [_ Heq].
  fold fetched flag synthesized tokens in Heq.
  rewrite Heq. cbn [fst snd cache].
  pose proof (CacheInvalidationFacts.set_then_get cache1
                (Cache.key_designTokens (fileId args)) tokens
                (Some Cache.ttl_designTokens) now later Hwf1 Hl1) as Hserved.
  rewrite Hd1 in Hserved. specialize (Hserved Hl2).
  assert (Hhit : forall gs gv tokenTypes',
            GetDesignTokensArgsSchema_parse
              {| fileId := fileId args; tokenTypes := tokenTypes' |}
            = Returned {| fileId := fileId args; tokenTypes := tokenTypes' |} ->
            fst (extractTokens convertStyleToToken gs gv
                   {| cache := Cache.set cache1 (Cache.key_designTokens (fileId args))
                                 tokens (Some Cache.ttl_designTokens) now;
                      figmaVariablesMetadata := flag |}
                   {| fileId := fileId args; tokenTypes := tokenTypes' |} later)
            = Returned (filterTokenTypes tokens tokenTypes')).
  { intros gs gv tokenTypes' Hv'.
    destruct (Cache.get (Cache.set cache1 (Cache.key_designTokens (fileId args))
                           tokens (Some Cache.ttl_designTokens) now)
                (Cache.key_designTokens (fileId args)) later) as [got c2] eqn:Hg.
    cbn [fst] in Hserved. subst got.
    exact (TokensFacts.extractTokens_hit convertStyleToToken gs gv
             {| cache := Cache.set cache1 (Cache.key_designTokens (fileId args))
                           tokens (Some Cache.ttl_designTokens) now;
                figmaVariablesMetadata := flag |}
             {| fileId := fileId args; tokenTypes := tokenTypes' |} later tokens c2
             Hv' Hg). }
  split; [reflexivity|]. split; [exact Hserved|]. split; [exact Hhit|].
  intros gs gv. unfold all_of. rewrite Hhit; [reflexivity|].
  exact (all_of_valid args Hv).
Qed.

End Flag.


(** A first call asks for the colours of F2 and gets no variable; the call
    for everything a second later is served the variable from the cache,
    although the API refuses the file by then. *)
Lemma cache_holds_unfiltered_collection_witness :
  let call := extractTokens (fun _ : Empty_set => Returned None) no_styles
                            variables_forbidden_for_F1 in
  let later := extractTokens (fun _ : Empty_set => Returned None)
                             (fun _ => inl {| status := Some 404; message := None |})
                             variables_forbidden in
  let w1 := snd (call fresh_world {| fileId := "F2"; tokenTypes := ["colors"] |} 0) in
  (exists tokens,
     fst (call fresh_world {| fileId := "F2"; tokenTypes := ["colors"] |} 0)
     = Returned tokens /\ variables tokens = [])
  /\ (exists tokens,
        fst (later w1 (all_of "F2") 1000) = Returned tokens
        /\ List.map name (variables tokens) = ["theme-rounded"]).
Proof.
  cbv zeta.
  assert (Hwf : Cache.well_formed (cache fresh_world)) by (split; reflexivity).
  assert (H1 : 1000 - 0 <= Cache.ttl_designTokens) by (vm_compute; discriminate).
  assert (H2 : 1000 - 0 <= Cache.defaultTtl (cache fresh_world)) by (vm_compute; discriminate).
  destruct (cache_holds_unfiltered_collection (fun _ : Empty_set => Returned None)
              no_styles variables_forbidden_for_F1 fresh_world
              {| fileId := "F2"; tokenTypes := ["colors"] |} 0 _ [] 1000
              Hwf eq_refl eq_refl eq_refl H1 H2) as (Hfirst & _ & _ & Hall).
  split.
  - eexists. split; [exact Hfirst | reflexivity].
  - eexists. split;
      [exact (Hall (fun _ => inl {| status := Some 404; message := None |})
                   variables_forbidden)
      | vm_compute; reflexivity].
Defined.

End TokensRoutingFacts.

(** ** Component extractor: effects, states, accessibility, listing *)

Module EffectsMoreFacts.
Import Extractor EffectsSpec ExtractorMore.

Lemma push_truthy_app l r : push_truthy l r = l ++ push_truthy [] r.
Proof. destruct r as [[|c s]|]; cbn; now rewrite ?app_nil_r. Qed.

Lemma collect_merge acc e : collect_effect acc e = merge acc (collect_effect no_effects e).
Proof.
  unfold collect_effect, merge.
  destruct (negb (e_visible e)); [destruct acc; cbn; now rewrite !app_nil_r|].
  repeat match goal with
         | |- context [if String.eqb ?a ?b then _ else _] => destruct (String.eqb a b)
         end; cbn [shadows filters backdrop no_effects];
    rewrite ?(push_truthy_app (shadows acc)), ?(push_truthy_app (filters acc)),
      ?app_nil_r; try reflexivity.
  - destruct (convertBackgroundBlurToCSS e) as [[|c s]|]; now destruct acc.
  - now destruct acc.
Qed.

Lemma merge_assoc a b c : merge (merge a b) c = merge a (merge b c).
Proof.
  unfold merge. cbn. rewrite <- !app_assoc. f_equal. now destruct (backdrop c).
Qed.

Lemma merge_no_effects_r a : merge a no_effects = a.
Proof. destruct a. unfold merge. cbn. now rewrite !app_nil_r. Qed.

Lemma fold_collect l : forall acc,
  fold_left collect_effect l acc = merge acc (fold_left collect_effect l no_effects).
Proof.
  induction l as [|e l IH]; intros acc; [now rewrite merge_no_effects_r|].
  cbn [fold_left]. rewrite (IH (collect_effect acc e)), (IH (collect_effect no_effects e)).
  now rewrite (collect_merge acc e), merge_assoc.
Qed.

Lemma join_app sep (l1 l2 : list string) :
  l1 <> [] -> l2 <> [] ->
  JS.join sep (l1 ++ l2) = JS.join sep l1 +:+ sep +:+ JS.join sep l2.
Proof.
  intros H1 H2. induction l1 as [|x l1 IH]; [contradiction|].
  destruct l1 as [|y l1].
  - destruct l2 as [|z l2]; [contradiction|]. reflexivity.
  - change (JS.join sep ((x :: y :: l1) ++ l2))
      with (x +:+ sep +:+ JS.join sep ((y :: l1) ++ l2)).
    rewrite IH by discriminate.
    change (JS.join sep (x :: y :: l1)) with (x +:+ sep +:+ JS.join sep (y :: l1)).
    now rewrite !JSFacts.append_assoc.
Qed.

Lemma joined_app sep (l1 l2 : list string) :
  joined sep (l1 ++ l2) = glue sep (joined sep l1) (joined sep l2).
Proof.
  destruct l1 as [|x l1]; [now destruct l2|].
  destruct l2 as [|z l2]; [now rewrite app_nil_r|].
  unfold joined, glue. cbn [app]. f_equal.
  now apply (join_app sep (x :: l1) (z :: l2)).
Qed.

(** X20: converting a list of effects is converting its parts and putting
    the results together: the shadows of the first part, then a comma, then
    those of the second; the layer blurs likewise with a space; and of the
    background blurs the last one of the whole list wins. *)
Theorem effects_of_concatenation (l1 l2 : list Effect) :
  effectsToCSS (Some (l1 ++ l2))
  = combine (effectsToCSS (Some l1)) (effectsToCSS (Some l2)).
Proof.
  unfold effectsToCSS. cbn [extractEffects]. rewrite List.map_app.
  rewrite !ExtractorFacts.convertEffectsToCSS_fold, fold_left_app, fold_collect.
  unfold css_of, combine, merge. cbn [shadows filters backdrop boxShadow filter backdropFilter].
  now rewrite !joined_app.
Qed.

Lemma collect_inert acc e : inert e = true -> collect_effect acc (extractEffect e) = acc.
Proof.
  unfold inert, known_effect_type, is_shadow_type, is_blur_type, collect_effect.
  unfold convertDropShadowToCSS, convertInnerShadowToCSS, convertBlurToCSS,
    convertBackgroundBlurToCSS.
  cbn [e_visible e_type e_offset e_radius extractEffect]. intros H.
  destruct (visible e) as [[]|]; cbn [negb orb] in *; try reflexivity;
    (destruct (String.eqb_spec (type e) "DROP_SHADOW") as [Ht|_];
     [try rewrite Ht in *
     |destruct (String.eqb_spec (type e) "INNER_SHADOW") as [Ht|_];
      [try rewrite Ht in *
      |destruct (String.eqb_spec (type e) "LAYER_BLUR") as [Ht|_];
       [try rewrite Ht in *
       |destruct (String.eqb_spec (type e) "BACKGROUND_BLUR") as [Ht|_];
        [try rewrite Ht in *|]]]]);
    cbn in H |- *;
    destruct (offset e); destruct (radius e) as [q|];
    cbn [negb orb andb] in H;
    try discriminate H; try rewrite H; destruct acc; reflexivity.
Qed.

(** X19: an effect that is hidden, of an unknown type, a shadow without
    offset or radius, or a blur whose radius is missing or not positive can
    be taken out of the list without changing the converted styles. *)
Theorem inert_effect_contributes_nothing (l1 l2 : list Effect) (e : Effect) :
  inert e = true ->
  effectsToCSS (Some (l1 ++ e :: l2)) = effectsToCSS (Some (l1 ++ l2))
  /\ effectsToCSS (Some [e])
     = {| boxShadow := None; filter := None; backdropFilter := None |}.
Proof.
  intros H. unfold effectsToCSS. rewrite !ExtractorFacts.convertEffectsToCSS_fold.
  cbn [extractEffects]. rewrite !List.map_app, !fold_left_app.
  cbn [List.map fold_left]. now rewrite !collect_inert.
Qed.

Lemma inert_effect_contributes_nothing_witness :
  effectsToCSS (Some ([shadow_0_4_8] ++ blur_no_radius :: [layer_blur_4]))
  = effectsToCSS (Some ([shadow_0_4_8] ++ [layer_blur_4])).
Proof.
  exact (proj1 (inert_effect_contributes_nothing [shadow_0_4_8] [layer_blur_4]
                  blur_no_radius eq_refl)).
Defined.

End EffectsMoreFacts.

Module ExtractorMoreFacts.
Import Extractor ExtractorMore.

(** X22: accessibility follows interactivity: a component that gets an
    ARIA role is interactive; an interactive component gets the Enter and
    Space bindings and the click event; a component that is not interactive
    gets no role, no binding and no event; and the role is one of button,
    link and textbox, the first of them whose keyword the name contains. *)
Theorem accessibility_follows_interactivity (component : FigmaNode) :
  let a := extractAccessibility component in
  let n := JS.toLowerCase (name component) in
  (is_Some (role a) -> isInteractiveComponent component = true)
  /\ (isInteractiveComponent component = true ->
      keyboardNavigation a
      = [{| key := "Enter"; action := "activate" |}; {| key := "Space"; action := "activate" |}]
      /\ List.map ev_name (interface_events component) = ["click"])
  /\ (isInteractiveComponent component = false ->
      role a = None /\ keyboardNavigation a = [] /\ interface_events component = [])
  /\ (JS.includes n "button" = true -> role a = Some "button")
  /\ (JS.includes n "button" = false -> JS.includes n "link" = true -> role a = Some "link")
  /\ (role a = Some "textbox" <->
      JS.includes n "button" = false /\ JS.includes n "link" = false
      /\ JS.includes n "input" = true).
Proof.
  cbn zeta. unfold extractAccessibility, extractKeyboardNavigation, interface_events,
    inferAriaRole, isInteractiveComponent, interactiveNames.
  cbn [role keyboardNavigation existsb].
  destruct (JS.includes (JS.toLowerCase (name component)) "button");
    destruct (JS.includes (JS.toLowerCase (name component)) "link");
    destruct (JS.includes (JS.toLowerCase (name component)) "input");
    destruct (JS.includes (JS.toLowerCase (name component)) "select");
    destruct (JS.includes (JS.toLowerCase (name component)) "checkbox");
    destruct (JS.includes (JS.toLowerCase (name component)) "radio");
    cbn; repeat split; intros; try reflexivity; try discriminate;
    try (match goal with H : is_Some None |- _ => destruct H as [? H]; discriminate H end);
    try (match goal with H : _ /\ _ |- _ => destruct H as (? & ? & ?); discriminate end).
Qed.

Lemma accessibility_follows_interactivity_witness :
  keyboardNavigation (extractAccessibility a_button)
  = [{| key := "Enter"; action := "activate" |}; {| key := "Space"; action := "activate" |}]
  /\ List.map ev_name (interface_events a_button) = ["click"].
Proof.
  destruct (accessibility_follows_interactivity a_button) as (_ & H & _).
  exact (H eq_refl).
Defined.

Section Filters.

Variable RegExp : string -> option (string -> bool).

Lemma ComponentType_eqb_eq a b : ComponentType_eqb a b = true <-> a = b.
Proof. destruct a, b; cbn; split; congruence. Qed.

(** With a pattern that compiles, or none, the callback returns whether the
    component meets the criteria. *)
Lemma passes_compiled test f c :
  FiltersSpec.compiles RegExp f test ->
  passes RegExp f c = Tokens.Returned (FiltersSpec.meets test f c).
Proof.
  unfold FiltersSpec.compiles, passes, FiltersSpec.meets, FiltersSpec.type_matches.
  destruct (f_type f) as [t|]; [destruct (ComponentType_eqb (Session.type c) t)|];
    cbn [negb andb]; try reflexivity.
  all: destruct (f_name f) as [[|c0 pattern]|]; intros Hc; try rewrite Hc;
    try destruct (test (Session.name c)); cbn [negb andb]; try reflexivity.
  all: destruct (f_published f) as [b|]; try reflexivity;
    now destruct (Bool.eqb (Session.published c) b).
Qed.

(** With a malformed pattern the callback throws on every component that
    gets past the type check. *)
Lemma passes_malformed f c c0 pattern :
  f_name f = Some (String c0 pattern) -> RegExp (String c0 pattern) = None ->
  passes RegExp f c
  = if FiltersSpec.type_matches f c then Tokens.Threw else Tokens.Returned false.
Proof.
  intros Hn Hr. unfold passes, FiltersSpec.type_matches. rewrite Hn, Hr.
  destruct (f_type f) as [t|]; [|reflexivity].
  now destruct (ComponentType_eqb (Session.type c) t).
Qed.

Lemma array_filter_total {A} (callback : A -> Tokens.result bool) (p : A -> bool) l :
  (forall x, callback x = Tokens.Returned (p x)) ->
  array_filter callback l = Tokens.Returned (List.filter p l).
Proof.
  intros H. induction l as [|x l IH]; [reflexivity|].
  cbn [array_filter List.filter]. now rewrite H, IH.
Qed.

Lemma applyFilters_compiled test components f :
  FiltersSpec.compiles RegExp f test ->
  applyFilters RegExp components (Some f)
  = Tokens.Returned (List.filter (FiltersSpec.meets test f) components).
Proof.
  intros Hc. cbn [applyFilters]. apply array_filter_total.
  intros c. now apply passes_compiled.
Qed.

Lemma applyFilters_malformed components f c0 pattern :
  f_name f = Some (String c0 pattern) -> RegExp (String c0 pattern) = None ->
  applyFilters RegExp components (Some f)
  = if existsb (FiltersSpec.type_matches f) components
    then Tokens.Threw else Tokens.Returned [].
Proof.
  intros Hn Hr. cbn [applyFilters].
  induction components as [|c l IH]; [reflexivity|].
  cbn [array_filter existsb]. rewrite (passes_malformed f c c0 pattern Hn Hr).
  destruct (FiltersSpec.type_matches f c); [reflexivity|].
  cbn [orb]. rewrite IH. now destruct (existsb _ l).
Qed.

Lemma filter_filter {A} (p : A -> bool) l :
  List.filter p (List.filter p l) = List.filter p l.
Proof.
  induction l as [|x l IH]; [reflexivity|].
  cbn [List.filter]. destruct (p x) eqn:Hx; [|exact IH].
  cbn [List.filter]. now rewrite Hx, IH.
Qed.

(** X23: with a filter whose name pattern compiles, or that gives none,
    [applyFilters] returns, in their order, exactly the components that meet
    every criterion given: the type when one is given, the name pattern when
    a non-empty one is given, the published flag when one is given. With a
    malformed name pattern it throws as soon as a component has the type
    asked for, and returns the empty list when none has. Without a filter, or
    with no criterion, the list is returned as it is; filtering a result
    again changes nothing, and a result is never longer than the list. *)
Theorem applyFilters_selects (components : list Session.ComponentListItem)
    (f : ComponentFilter) :
  (forall test, FiltersSpec.compiles RegExp f test ->
     applyFilters RegExp components (Some f)
     = Tokens.Returned (List.filter (FiltersSpec.meets test f) components))
  /\ (forall c0 pattern,
        f_name f = Some (String c0 pattern) -> RegExp (String c0 pattern) = None ->
        applyFilters RegExp components (Some f)
        = if existsb (FiltersSpec.type_matches f) components
          then Tokens.Threw else Tokens.Returned [])
  /\ applyFilters RegExp components None = Tokens.Returned components
  /\ (f_type f = None -> (f_name f = None \/ f_name f = Some "") -> f_published f = None ->
      applyFilters RegExp components (Some f) = Tokens.Returned components)
  /\ (forall kept,
        applyFilters RegExp components (Some f) = Tokens.Returned kept ->
        applyFilters RegExp kept (Some f) = Tokens.Returned kept
        /\ (length kept <= length components)%nat).
Proof.
  split; [intros test Hc; now apply applyFilters_compiled|].
  split; [intros c0 pattern Hn Hr; now apply applyFilters_malformed with c0 pattern|].
  split; [reflexivity|]. split.
  - intros Ht Hn Hp.
    rewrite (applyFilters_compiled (fun _ => true)) by
      (unfold FiltersSpec.compiles; now destruct Hn as [-> | ->]).
    f_equal. induction components as [|c l IH]; [reflexivity|].
    cbn [List.filter].
    assert (Hm : FiltersSpec.meets (fun _ => true) f c = true).
    { unfold FiltersSpec.meets, FiltersSpec.type_matches. rewrite Ht, Hp.
      now destruct Hn as [-> | ->]. }
    now rewrite Hm, IH.
  - intros kept Hk.
    assert (Hcases : (exists test, FiltersSpec.compiles RegExp f test)
                     \/ exists c0 pattern, f_name f = Some (String c0 pattern)
                                           /\ RegExp (String c0 pattern) = None).
    { unfold FiltersSpec.compiles. destruct (f_name f) as [[|c0 pattern]|].
      - left. now exists (fun _ => true).
      - destruct (RegExp (String c0 pattern)) as [test|] eqn:Hr; [left|right]; eauto.
      - left. now exists (fun _ => true). }
    destruct Hcases as [[test Hc] | (c0 & pattern & Hn & Hr)].
    + rewrite (applyFilters_compiled test _ _ Hc) in Hk. injection Hk as <-.
      rewrite (applyFilters_compiled test _ _ Hc), filter_filter.
      split; [reflexivity | apply List.filter_length_le].
    + rewrite (applyFilters_malformed _ _ c0 pattern Hn Hr) in Hk.
      destruct (existsb _ components); [discriminate|]. injection Hk as <-.
      split; [reflexivity | cbn; lia].
Qed.

End Filters.

Lemma for_each_Forall (P : Session.ComponentListItem -> Prop)
    (call : ref -> Walk -> option Walk) :
  (forall r w w', call r w = Some w' -> Forall P (components w) -> Forall P (components w')) ->
  forall cs w w', for_each call cs w = Some w' ->
                  Forall P (components w) -> Forall P (components w').
Proof.
  intros Hcall. induction cs as [|c cs IH]; intros w w' H Hw.
  - cbn in H. now injection H as <-.
  - cbn [for_each] in H. destruct (call c w) as [w1|] eqn:Hc; [|discriminate].
    apply (IH w1 w' H). now apply (Hcall c w w1).
Qed.

Lemma traverse_Forall (P : Session.ComponentListItem -> Prop) (h : heap) lm :
  (forall node, P (list_item lm node)) ->
  forall fuel r w w', traverse fuel h lm r w = Some w' ->
                      Forall P (components w) -> Forall P (components w').
Proof.
  intros HP. induction fuel as [|fuel IH]; intros r w w' H Hw; [discriminate|].
  cbn [traverse] in H.
  set (w1 := {| components := _; visited := _ |}) in H.
  assert (Hw1 : Forall P (components w1)).
  { subst w1. cbn [components]. destruct (is_component (h r)); [|exact Hw].
    apply Forall_app. split; [exact Hw|]. constructor; [apply HP | constructor]. }
  destruct (children (h r)) as [cs|].
  - apply (for_each_Forall P (traverse fuel h lm) (IH) cs w1 w' H Hw1).
  - now injection H as <-.
Qed.

(** X24: whatever the document, every component [extractComponentList]
    lists is marked published, carries the file's modification time and no
    description, and has a variant count exactly when it is a component set;
    so a filter asking for unpublished components returns nothing, and one
    asking for published components changes nothing. *)
Theorem listed_components_are_published (RegExp : string -> option (string -> bool))
    (fuel : nat) (h : heap) (file : FigmaFile) (w : Walk) :
  extractComponentList fuel h file = Some w ->
  Forall (fun c => Session.published c = true
                   /\ Session.item_lastModified c = lastModified file
                   /\ Session.description c = None
                   /\ (is_Some (Session.variantCount c)
                       <-> Session.type c = Session.COMPONENT_SET))
         (components w)
  /\ applyFilters RegExp (components w)
       (Some {| f_type := None; f_name := None; f_published := Some false |})
     = Tokens.Returned []
  /\ applyFilters RegExp (components w)
       (Some {| f_type := None; f_name := None; f_published := Some true |})
     = Tokens.Returned (components w).
Proof.
  intros H. unfold extractComponentList in H.
  assert (Hall : Forall (fun c => Session.published c = true
                   /\ Session.item_lastModified c = lastModified file
                   /\ Session.description c = None
                   /\ (is_Some (Session.variantCount c)
                       <-> Session.type c = Session.COMPONENT_SET))
                  (components w)).
  { apply (traverse_Forall _ h (lastModified file)) with (fuel := fuel)
      (r := document file) (w := {| components := []; visited := [] |});
      [|exact H|constructor].
    intros node. unfold list_item. cbn.
    destruct (String.eqb (node_type node) "COMPONENT_SET").
    - repeat split; eauto.
    - repeat split; intros Hx; [destruct Hx as [x Hx]|]; discriminate. }
  split; [exact Hall|].
  cbn [applyFilters]. induction (components w) as [|c l IH]; [split; reflexivity|].
  inversion Hall as [|? ? (Hp & _) Hl]; subst. destruct (IH Hl) as [IH1 IH2].
  assert (Hf : passes RegExp
                 {| f_type := None; f_name := None; f_published := Some false |} c
               = Tokens.Returned false)
    by (unfold passes; cbn; now rewrite Hp).
  assert (Ht : passes RegExp
                 {| f_type := None; f_name := None; f_published := Some true |} c
               = Tokens.Returned true)
    by (unfold passes; cbn; now rewrite Hp).
  cbn [array_filter]. now rewrite Hf, Ht, IH1, IH2.
Qed.

Lemma listed_components_are_published_witness :
  applyFilters (fun _ => Some (fun _ => true))
    (components (default {| components := []; visited := [] |}
                         (extractComponentList 3 h_tree file0)))
    (Some only_unpublished) = Tokens.Returned [].
Proof.
  exact (proj1 (proj2 (listed_components_are_published (fun _ => Some (fun _ => true))
                         3 h_tree file0 _ eq_refl))).
Defined.

Lemma lower_ascii_idempotent c : JS.lower_ascii (JS.lower_ascii c) = JS.lower_ascii c.
Proof. destruct c as [[] [] [] [] [] [] [] []]; reflexivity. Qed.

Lemma toLowerCase_idempotent s : JS.toLowerCase (JS.toLowerCase s) = JS.toLowerCase s.
Proof.
  induction s as [|c s IH]; [reflexivity|]. cbn [JS.toLowerCase].
  now rewrite lower_ascii_idempotent, IH.
Qed.

(** X26: for any list of patterns the state classifier answers with a
    pattern of the list that occurs in the lower-cased layer name, the first
    such in list order; it answers null exactly when no pattern of the list
    occurs in the name; and it does not tell upper from lower case in the
    name. *)
Theorem parseStateFromLayerName_sound_complete (layerName : string) (pats : list string) :
  (forall p, parseStateFromLayerName layerName pats = Some p ->
             In p pats /\ JS.includes (JS.toLowerCase layerName) p = true)
  /\ (parseStateFromLayerName layerName pats = None
      <-> forall p, In p pats -> JS.includes (JS.toLowerCase layerName) p = false)
  /\ (forall p l1 l2, pats = l1 ++ p :: l2 ->
        JS.includes (JS.toLowerCase layerName) p = true ->
        (forall q, In q l1 -> JS.includes (JS.toLowerCase layerName) q = false) ->
        parseStateFromLayerName layerName pats = Some p)
  /\ parseStateFromLayerName (JS.toLowerCase layerName) pats
     = parseStateFromLayerName layerName pats.
Proof.
  rewrite !ExtractorFacts.parseStateFromLayerName_first_substring, toLowerCase_idempotent.
  split; [intros p Hp; now apply List.find_some in Hp|].
  split.
  { split.
    - intros Hn p Hp. exact (List.find_none _ _ Hn p Hp).
    - intros Hall.
      destruct (List.find (JS.includes (JS.toLowerCase layerName)) pats) as [p|] eqn:Hf;
        [|reflexivity].
      apply List.find_some in Hf as [Hin Hp]. rewrite (Hall p Hin) in Hp. discriminate. }
  split; [|reflexivity].
  intros p l1 l2 -> Hp Hl1. now apply ExtractorFacts.find_first_of_split.
Qed.

End ExtractorMoreFacts.

(** ** Request screening: the rate limiter *)

Module RateLimiterFacts.
Import Security.

Lemma checkLimit_in_window rl clientId w now :
  clients rl !! clientId = Some w ->
  now <= resetTime w ->
  checkLimit rl clientId now
  = if count w >=? maxRequestsPerHour rl
    then ({| allowed := false; limit_resetTime := Some (resetTime w) |}, rl)
    else ({| allowed := true; limit_resetTime := None |},
          with_clients rl (<[clientId := {| count := count w + 1;
                                            resetTime := resetTime w |}]> (clients rl))).
Proof.
  intros Hc Hle. unfold checkLimit. rewrite Hc.
  destruct (Z.gtb_spec now (resetTime w)); [lia | reflexivity].
Qed.

Lemma checkLimit_new_window rl clientId now :
  (clients rl !! clientId = None
   \/ exists w, clients rl !! clientId = Some w /\ now > resetTime w) ->
  checkLimit rl clientId now
  = ({| allowed := true; limit_resetTime := None |},
     with_clients rl (<[clientId := {| count := 1; resetTime := now + windowMs rl |}]>
                        (clients rl))).
Proof.
  intros [Hn | (w & Hw & Hgt)]; unfold checkLimit.
  - now rewrite Hn.
  - rewrite Hw. destruct (Z.gtb_spec now (resetTime w)); [reflexivity | lia].
Qed.

(** Within a window the calls are allowed until the count reaches the
    maximum, and denied from then on. *)
Lemma calls_in_window clientId times : forall rl w,
  clients rl !! clientId = Some w ->
  Forall (fun t => t <= resetTime w) times ->
  let k := Nat.min (length times) (Z.to_nat (maxRequestsPerHour rl - count w)) in
  count_allowed (fst (calls rl clientId times)) = k
  /\ clients (snd (calls rl clientId times)) !! clientId
     = Some {| count := count w + Z.of_nat k; resetTime := resetTime w |}
  /\ (forall other, other <> clientId ->
        clients (snd (calls rl clientId times)) !! other = clients rl !! other)
  /\ maxRequestsPerHour (snd (calls rl clientId times)) = maxRequestsPerHour rl.
Proof.
  induction times as [|now rest IH]; intros rl w Hc Hall; cbn zeta.
  - cbn. rewrite Z.add_0_r. destruct w. repeat split. exact Hc.
  - inversion Hall as [|? ? Hnow Hrest]; subst.
    cbn [calls]. rewrite (checkLimit_in_window rl clientId w now Hc Hnow).
    destruct (Z.geb_spec (count w) (maxRequestsPerHour rl)) as [Hfull | Hroom].
    + destruct (IH rl w Hc Hrest) as (Hk & Hw & Ho & Hm).
      destruct (calls rl clientId rest) as [rs rl2]. cbn [fst snd allowed] in *.
      unfold count_allowed in *. cbn [List.filter id].
      replace (Z.to_nat (maxRequestsPerHour rl - count w)) with 0%nat in * by lia.
      rewrite Nat.min_0_r in *. repeat split; assumption.
    + set (w1 := {| count := count w + 1; resetTime := resetTime w |}).
      set (rl1 := with_clients rl (<[clientId := w1]> (clients rl))).
      assert (Hc1 : clients rl1 !! clientId = Some w1) by apply lookup_insert_eq.
      destruct (IH rl1 w1 Hc1 Hrest) as (Hk & Hw & Ho & Hm).
      destruct (calls rl1 clientId rest) as [rs rl2]. cbn [fst snd allowed] in *.
      unfold count_allowed in *. cbn [List.filter id length]. rewrite Hk.
      cbn [count resetTime w1 maxRequestsPerHour rl1 with_clients] in *.
      assert (Hmin : S (Nat.min (length rest)
                          (Z.to_nat (maxRequestsPerHour rl - (count w + 1))))
                     = Nat.min (S (length rest))
                         (Z.to_nat (maxRequestsPerHour rl - count w))) by lia.
      rewrite <- Hmin. split; [reflexivity|]. split.
      { rewrite Hw. f_equal. f_equal. lia. }
      split; [|exact Hm].
      intros other Hne. rewrite (Ho other Hne). cbn. now apply lookup_insert_ne.
Qed.

(** X29: a call by a client without a window, or after its window's reset
    time, is always allowed and opens a window of [windowMs], one hour; of the
    calls that follow within this window exactly the first
    [maxRequestsPerHour - 1] are allowed, so the window admits at most
    [max(1, maxRequestsPerHour)] calls; the windows of the other clients are
    not touched. *)
Theorem window_admits_at_most_max rl clientId t0 (times : list Z) :
  (clients rl !! clientId = None
   \/ exists w, clients rl !! clientId = Some w /\ t0 > resetTime w) ->
  Forall (fun t => t <= t0 + windowMs rl) times ->
  let answers := fst (calls rl clientId (t0 :: times)) in
  let after := snd (calls rl clientId (t0 :: times)) in
  List.hd false answers = true
  /\ count_allowed answers
     = S (Nat.min (length times) (Z.to_nat (maxRequestsPerHour rl - 1)))
  /\ Z.of_nat (count_allowed answers) <= Z.max 1 (maxRequestsPerHour rl)
  /\ (exists w, clients after !! clientId = Some w
                /\ resetTime w = t0 + windowMs rl
                /\ count w = Z.of_nat (count_allowed answers))
  /\ (forall other, other <> clientId -> clients after !! other = clients rl !! other).
Proof.
  intros Hnew Hall. cbn zeta. cbn [calls].
  rewrite (checkLimit_new_window rl clientId t0 Hnew).
  set (w1 := {| count := 1; resetTime := t0 + windowMs rl |}).
  set (rl1 := with_clients rl (<[clientId := w1]> (clients rl))).
  assert (Hc1 : clients rl1 !! clientId = Some w1) by apply lookup_insert_eq.
  destruct (calls_in_window clientId times rl1 w1 Hc1 Hall) as (Hk & Hw & Ho & Hm).
  destruct (calls rl1 clientId times) as [rs rl2]. cbn [fst snd allowed] in *.
  cbn [count resetTime w1 maxRequestsPerHour rl1 with_clients] in *.
  unfold count_allowed in *. cbn [List.filter id length List.hd]. rewrite Hk.
  split; [reflexivity|]. split; [reflexivity|]. split; [lia|]. split.
  - eexists. split; [exact Hw|]. cbn. split; [reflexivity | lia].
  - intros other Hne. rewrite (Ho other Hne). cbn. now apply lookup_insert_ne.
Qed.

Lemma window_admits_at_most_max_witness :
  count_allowed (fst (calls (new_RateLimiter (Some 2)) "client" [0; 10; 20; 30])) = 2%nat.
Proof.
  assert (Hall : Forall (fun t => t <= 0 + windowMs (new_RateLimiter (Some 2))) [10; 20; 30]).
  { repeat constructor; vm_compute; discriminate. }
  exact (proj1 (proj2 (window_admits_at_most_max (new_RateLimiter (Some 2)) "client" 0
                         [10; 20; 30] (or_introl eq_refl) Hall))).
Defined.

(** X30: [getRemainingRequests] and [checkLimit] agree: whenever requests
    remain the next call is allowed; inside a client's window the call is
    allowed exactly when requests remain and then uses up one of them, and a
    denied call changes nothing and reports the window's reset time, which has
    not passed. *)
Theorem remaining_agrees_with_checkLimit rl clientId now :
  (getRemainingRequests rl clientId now > 0 ->
   allowed (fst (checkLimit rl clientId now)) = true)
  /\ (forall w, clients rl !! clientId = Some w -> now <= resetTime w ->
        (allowed (fst (checkLimit rl clientId now)) = true
         <-> getRemainingRequests rl clientId now > 0)
        /\ (allowed (fst (checkLimit rl clientId now)) = true ->
            getRemainingRequests (snd (checkLimit rl clientId now)) clientId now
            = getRemainingRequests rl clientId now - 1))
  /\ (allowed (fst (checkLimit rl clientId now)) = false ->
      snd (checkLimit rl clientId now) = rl
      /\ getRemainingRequests rl clientId now = 0
      /\ exists w, clients rl !! clientId = Some w
                   /\ limit_resetTime (fst (checkLimit rl clientId now)) = Some (resetTime w)
                   /\ now <= resetTime w).
Proof.
  unfold getRemainingRequests, checkLimit.
  destruct (clients rl !! clientId) as [w|] eqn:Hc.
  - destruct (Z.gtb_spec now (resetTime w)) as [Hgt|Hle].
    + cbn. split; [reflexivity|]. split; [intros w0 [= <-] Hle; lia | discriminate].
    + destruct (Z.geb_spec (count w) (maxRequestsPerHour rl)) as [Hfull|Hroom]; cbn.
      * split; [lia|]. split.
        { intros w0 [= <-] _. split; [split; [discriminate | lia] | discriminate]. }
        intros _. split; [reflexivity|]. split; [lia|]. exists w. now repeat split.
      * split; [reflexivity|]. split; [|discriminate].
        intros w0 [= <-] _. split; [split; [lia | reflexivity]|].
        intros _. rewrite lookup_insert_eq. cbn.
        destruct (Z.gtb_spec now (resetTime w)); lia.
  - cbn. split; [reflexivity|]. split; [discriminate | discriminate].
Qed.

Lemma remaining_agrees_with_checkLimit_witness :
  allowed (fst (checkLimit (new_RateLimiter None) "client" 0)) = true.
Proof.
  apply (proj1 (remaining_agrees_with_checkLimit (new_RateLimiter None) "client" 0)).
  vm_compute. reflexivity.
Defined.

(** X17: [cleanup] removes exactly the windows whose reset time has
    passed; at that moment neither [checkLimit] nor [getRemainingRequests]
    answers differently for any client than it would have without it. *)
Theorem limiter_cleanup_is_invisible rl now :
  (forall clientId w,
     clients (cleanup rl now) !! clientId = Some w
     <-> clients rl !! clientId = Some w /\ now <= resetTime w)
  /\ (forall clientId,
        fst (checkLimit (cleanup rl now) clientId now) = fst (checkLimit rl clientId now)
        /\ getRemainingRequests (cleanup rl now) clientId now
           = getRemainingRequests rl clientId now).
Proof.
  assert (Hlook : forall clientId w,
            clients (cleanup rl now) !! clientId = Some w
            <-> clients rl !! clientId = Some w /\ now <= resetTime w).
  { intros clientId w. unfold cleanup. cbn [clients with_clients].
    rewrite map_lookup_filter_Some. cbn.
    split; intros [H1 H2]; (split; [exact H1 | lia]). }
  split; [exact Hlook|].
  intros clientId. unfold checkLimit, getRemainingRequests.
  destruct (clients rl !! clientId) as [w|] eqn:Hc.
  - destruct (Z.gtb_spec now (resetTime w)) as [Hgt|Hle].
    + destruct (clients (cleanup rl now) !! clientId) as [w'|] eqn:Hc'; [|now split].
      apply Hlook in Hc' as [Hc1 Hc2]. rewrite Hc in Hc1. injection Hc1 as <-. lia.
    + assert (Hc' : clients (cleanup rl now) !! clientId = Some w) by (apply Hlook; now split).
      rewrite Hc'. destruct (Z.gtb_spec now (resetTime w)); [lia|].
      cbn [maxRequestsPerHour cleanup with_clients].
      now destruct (count w >=? maxRequestsPerHour rl).
  - destruct (clients (cleanup rl now) !! clientId) as [w'|] eqn:Hc'; [|now split].
    apply Hlook in Hc' as [Hc1 _]. congruence.
Qed.

End RateLimiterFacts.

(** ** Hexadecimal colours *)

Module ColourFacts.
Import Tokens ScreeningSpec.

Lemma hex2_byte n : 0 <= n <= 255 -> two_hex_digits (hex2 n) = true.
Proof.
  intros Hn.
  assert (Hall : forallb (fun k => two_hex_digits (hex2 (Z.of_nat k))) (seq 0 256) = true)
    by (vm_compute; reflexivity).
  rewrite forallb_forall in Hall.
  specialize (Hall (Z.to_nat n)). rewrite Z2Nat.id in Hall by lia.
  apply Hall. apply in_seq. lia.
Qed.

Lemma Math_round_channel (q : Q) :
  (0 <= q)%Q -> (q <= 1)%Q -> 0 <= JS.Math_round (JS.fmul (JS.double q) 255) <= 255.
Proof.
  intros H0 H1. unfold JS.fmul.
  destruct (DoubleFacts.double_unit q H0 H1) as [Hd0 Hd1].
  assert (Hsmall : (JS.pow2 (-53) < 1 # 1020)%Q) by reflexivity.
  apply DoubleFacts.Math_round_double_bound; [| |lia|reflexivity].
  - apply Qmult_le_0_compat; [exact Hd0 | discriminate].
  - change (inject_Z 255) with 255%Q. lra.
Qed.

(** X21: on a colour whose red, green and blue channels lie between 0
    and 1, [rgbaToHex] gives "#" followed by exactly six hexadecimal digits,
    a text that [validateHexColor] accepts. *)
Theorem rgbaToHex_is_hex_colour (rgba : Extractor.RGBA) :
  (0 <= Extractor.r rgba)%Q -> (Extractor.r rgba <= 1)%Q ->
  (0 <= Extractor.g rgba)%Q -> (Extractor.g rgba <= 1)%Q ->
  (0 <= Extractor.b rgba)%Q -> (Extractor.b rgba <= 1)%Q ->
  String.length (rgbaToHex rgba) = 7%nat
  /\ Validation.validateHexColor (rgbaToHex rgba) = true.
Proof.
  intros Hr0 Hr1 Hg0 Hg1 Hb0 Hb1. unfold rgbaToHex.
  pose proof (hex2_byte _ (Math_round_channel _ Hr0 Hr1)) as Hr.
  pose proof (hex2_byte _ (Math_round_channel _ Hg0 Hg1)) as Hg.
  pose proof (hex2_byte _ (Math_round_channel _ Hb0 Hb1)) as Hb.
  destruct (hex2 (JS.Math_round (JS.fmul (JS.double (Extractor.r rgba)) 255)))
    as [|r1 [|r2 [|]]]; try discriminate.
  destruct (hex2 (JS.Math_round (JS.fmul (JS.double (Extractor.g rgba)) 255)))
    as [|g1 [|g2 [|]]]; try discriminate.
  destruct (hex2 (JS.Math_round (JS.fmul (JS.double (Extractor.b rgba)) 255)))
    as [|b1 [|b2 [|]]]; try discriminate.
  cbn in Hr, Hg, Hb.
  apply andb_prop in Hr as [Hr1' Hr2'], Hg as [Hg1' Hg2'], Hb as [Hb1' Hb2'].
  rewrite !JSFacts.append_cons, !JSFacts.append_nil.
  split; [reflexivity|].
  cbn [Validation.validateHexColor Validation.all_chars String.length].
  now rewrite Hr1', Hr2', Hg1', Hg2', Hb1', Hb2'.
Qed.

Lemma rgbaToHex_is_hex_colour_witness :
  Validation.validateHexColor
    (rgbaToHex {| Extractor.r := 1; Extractor.g := 1 # 2; Extractor.b := 0;
                  Extractor.a := Some 1%Q |}) = true.
Proof.
  apply (rgbaToHex_is_hex_colour
           {| Extractor.r := 1; Extractor.g := 1 # 2; Extractor.b := 0;
              Extractor.a := Some 1%Q |});
    vm_compute; discriminate.
Defined.

End ColourFacts.

(** ** Request screening: identifiers and texts *)

Module SanitizeFacts.
Import Security ScreeningSpec.

Lemma all_chars_weaken (p q : ascii -> bool) s :
  (forall c, p c = true -> q c = true) ->
  Validation.all_chars p s = true -> Validation.all_chars q s = true.
Proof.
  intros Hpq. induction s as [|c s IH]; cbn; [reflexivity|].
  intros [Hc Hs]%andb_prop. now rewrite (Hpq c Hc), IH.
Qed.

Lemma all_chars_app p s t :
  Validation.all_chars p (s +:+ t) = Validation.all_chars p s && Validation.all_chars p t.
Proof.
  induction s as [|c s IH].
  - now rewrite JSFacts.append_nil.
  - rewrite JSFacts.append_cons. cbn. now rewrite IH, andb_assoc.
Qed.

Lemma all_chars_toLowerCase p s :
  Validation.all_chars p (JS.toLowerCase s)
  = Validation.all_chars (fun c => p (JS.lower_ascii c)) s.
Proof. induction s as [|c s IH]; cbn; [reflexivity | now rewrite IH]. Qed.

Lemma strip_angle_id s : Validation.all_chars no_angle s = true -> strip_angle s = s.
Proof.
  induction s as [|c s IH]; cbn; [reflexivity|].
  intros [Hc Hs]%andb_prop. unfold no_angle in Hc.
  apply negb_true_iff in Hc. now rewrite Hc, IH.
Qed.

(** A text none of whose characters, in lower case, is in a class that the
    pattern leaves, holds no match of the pattern. *)
Lemma remove_ci_id (q : ascii -> bool) pattern s :
  Validation.all_chars q pattern = false ->
  Validation.all_chars (fun c => q (JS.lower_ascii c)) s = true ->
  remove_ci pattern 0 s = s.
Proof.
  intros Hpat. induction s as [|c s IH]; [reflexivity|].
  intros Hs. cbn [remove_ci].
  destruct (JS.startsWith (JS.toLowerCase (String c s)) pattern) eqn:Hst.
  - apply JSFacts.startsWith_spec in Hst as [t Ht].
    rewrite <- all_chars_toLowerCase, Ht, all_chars_app, Hpat in Hs. discriminate.
  - cbn in Hs. apply andb_prop in Hs as [_ Hs]. now rewrite IH.
Qed.

Lemma trimEnd_id s : Validation.all_chars no_space s = true -> trimEnd s = s.
Proof.
  induction s as [|c s IH]; cbn; [reflexivity|].
  intros [Hc Hs]%andb_prop. rewrite (IH Hs).
  unfold no_space in Hc. apply negb_true_iff in Hc.
  destruct s; [now rewrite Hc | reflexivity].
Qed.

Lemma trim_id s : Validation.all_chars no_space s = true -> trim s = s.
Proof.
  intros Hs. unfold trim.
  assert (Hst : trimStart s = s).
  { destruct s as [|c s]; [reflexivity|]. cbn in *.
    apply andb_prop in Hs as [Hc _]. unfold no_space in Hc.
    apply negb_true_iff in Hc. now rewrite Hc. }
  rewrite Hst. now apply trimEnd_id.
Qed.

Lemma sanitizeString_plain s :
  (String.length s <= MAX_STRING_LENGTH)%nat ->
  Validation.all_chars (fun c => Validation.is_digit c || Ascii.eqb c ":") s = true
  \/ Validation.all_chars Validation.is_id_char s = true ->
  sanitizeString s = Tokens.Returned s.
Proof.
  intros Hlen Hs. unfold sanitizeString.
  destruct (Nat.ltb_spec MAX_STRING_LENGTH (String.length s)); [lia|].
  assert (Hplain : Validation.all_chars plain_char s = true).
  { destruct Hs as [Hs|Hs]; revert Hs; apply all_chars_weaken; intros c;
      unfold plain_char; destruct c as [[] [] [] [] [] [] [] []]; vm_compute; congruence. }
  rewrite strip_angle_id.
  2:{ revert Hplain. apply all_chars_weaken. intros c.
      destruct c as [[] [] [] [] [] [] [] []]; vm_compute; congruence. }
  assert (Hjs : remove_ci "javascript:" 0 s = s).
  { destruct Hs as [Hs|Hs].
    - apply (remove_ci_id (fun c => Validation.is_digit c || Ascii.eqb c ":"));
        [reflexivity|].
      revert Hs. apply all_chars_weaken. intros c.
      destruct c as [[] [] [] [] [] [] [] []]; vm_compute; congruence.
    - apply (remove_ci_id Validation.is_id_char); [reflexivity|].
      revert Hs. apply all_chars_weaken. intros c.
      destruct c as [[] [] [] [] [] [] [] []]; vm_compute; congruence. }
  assert (Hdata : remove_ci "data:" 0 s = s).
  { destruct Hs as [Hs|Hs].
    - apply (remove_ci_id (fun c => Validation.is_digit c || Ascii.eqb c ":"));
        [reflexivity|].
      revert Hs. apply all_chars_weaken. intros c.
      destruct c as [[] [] [] [] [] [] [] []]; vm_compute; congruence.
    - apply (remove_ci_id Validation.is_id_char); [reflexivity|].
      revert Hs. apply all_chars_weaken. intros c.
      destruct c as [[] [] [] [] [] [] [] []]; vm_compute; congruence. }
  rewrite Hjs, Hdata, trim_id; [reflexivity|].
  revert Hplain. apply all_chars_weaken. intros c.
  destruct c as [[] [] [] [] [] [] [] []]; vm_compute; congruence.
Qed.

Lemma span_digits_spec s :
  s = fst (Validation.span_digits s) +:+ snd (Validation.span_digits s)
  /\ Validation.all_chars Validation.is_digit (fst (Validation.span_digits s)) = true.
Proof.
  induction s as [|c s [IH1 IH2]]; cbn; [now split|].
  destruct (Validation.is_digit c) eqn:Hc.
  - destruct (Validation.span_digits s) as [a b]. cbn in *.
    rewrite JSFacts.append_cons, <- IH1, Hc. now split.
  - cbn. now split.
Qed.

Lemma length_app s t : String.length (s +:+ t) = (String.length s + String.length t)%nat.
Proof.
  induction s as [|c s IH].
  - now rewrite JSFacts.append_nil.
  - rewrite JSFacts.append_cons. cbn. now rewrite IH.
Qed.

(** X27: the security validators are stricter than the validators of
    the validation utilities: a file id or node id that [SecurityValidator]
    accepts is also accepted by [validateFileId] or [validateNodeId] of the
    utilities, is short (at most 50 or 21 characters), and passes through
    [sanitizeString] unchanged. *)
Theorem accepted_ids_survive_sanitizing (s : string) :
  (Security.validateFileId s = true ->
   Validation.validateFileId s = true
   /\ (1 <= String.length s <= 50)%nat
   /\ sanitizeString s = Tokens.Returned s)
  /\ (Security.validateNodeId s = true ->
      Validation.validateNodeId s = true
      /\ (3 <= String.length s <= 21)%nat
      /\ sanitizeString s = Tokens.Returned s).
Proof.
  split.
  - unfold Security.validateFileId, Validation.validateFileId.
    destruct s as [|c s]; [discriminate|].
    intros [Hlen Hall]%andb_prop. apply Nat.leb_le in Hlen.
    split; [exact Hall|]. split; [cbn in *; lia|].
    apply sanitizeString_plain; [unfold MAX_STRING_LENGTH; lia | now right].
  - unfold Security.validateNodeId, Validation.validateNodeId.
    destruct (span_digits_spec s) as [Hs Ha].
    destruct (Validation.span_digits s) as [a r]. cbn [fst snd] in *.
    destruct a as [|a1 a]; [discriminate|].
    destruct r as [|sep [|b1 b]]; try discriminate.
    intros [[[Hsep Hb]%andb_prop Hla]%andb_prop Hlb]%andb_prop.
    apply Nat.leb_le in Hla, Hlb. apply Ascii.eqb_eq in Hsep. subst sep.
    rewrite Hb. split; [reflexivity|].
    assert (Hlen : String.length s
                   = (String.length (String a1 a) + S (String.length (String b1 b)))%nat).
    { rewrite Hs at 1. now rewrite length_app. }
    split; [cbn in *; lia|].
    apply sanitizeString_plain; [unfold MAX_STRING_LENGTH; cbn in *; lia|].
    left. rewrite Hs, all_chars_app.
    set (p := fun c => Validation.is_digit c || Ascii.eqb c ":").
    assert (Hw : forall t, Validation.all_chars Validation.is_digit t = true ->
                           Validation.all_chars p t = true).
    { intros t. apply all_chars_weaken. intros c H. unfold p. now rewrite H. }
    rewrite (Hw _ Ha).
    change (true && (p ":"%char && Validation.all_chars p (String b1 b)) = true).
    now rewrite (Hw _ Hb).
Qed.

Lemma accepted_ids_survive_sanitizing_witness :
  sanitizeString "hK9_x-42" = Tokens.Returned "hK9_x-42"
  /\ sanitizeString "12:345" = Tokens.Returned "12:345".
Proof.
  split.
  - apply (proj1 (accepted_ids_survive_sanitizing "hK9_x-42")). reflexivity.
  - apply (proj2 (accepted_ids_survive_sanitizing "12:345")). reflexivity.
Defined.

Lemma all_chars_strip_angle s : Validation.all_chars no_angle (strip_angle s) = true.
Proof.
  induction s as [|c s IH]; cbn; [reflexivity|].
  destruct (Ascii.eqb c "<" || Ascii.eqb c ">") eqn:Hc; [exact IH|].
  cbn. unfold no_angle at 1. now rewrite Hc, IH.
Qed.

Lemma length_strip_angle s : (String.length (strip_angle s) <= String.length s)%nat.
Proof.
  induction s as [|c s IH]; cbn; [lia|].
  destruct (Ascii.eqb c "<" || Ascii.eqb c ">"); cbn; lia.
Qed.

Lemma remove_ci_keeps p pattern s : forall skip,
  Validation.all_chars p s = true ->
  Validation.all_chars p (remove_ci pattern skip s) = true
  /\ (String.length (remove_ci pattern skip s) <= String.length s)%nat.
Proof.
  induction s as [|c s IH]; intros skip Hs; [cbn; split; [reflexivity | lia]|].
  cbn in Hs. apply andb_prop in Hs as [Hc Hs]. cbn [remove_ci].
  destruct skip as [|k].
  - destruct (JS.startsWith (JS.toLowerCase (String c s)) pattern).
    + destruct (IH (String.length pattern - 1)%nat Hs). split; [assumption | cbn; lia].
    + destruct (IH 0%nat Hs) as [H1 H2]. cbn. rewrite Hc, H1. split; [reflexivity | lia].
  - destruct (IH k Hs). split; [assumption | cbn; lia].
Qed.

Lemma trimStart_keeps p s :
  Validation.all_chars p s = true ->
  Validation.all_chars p (trimStart s) = true
  /\ (String.length (trimStart s) <= String.length s)%nat.
Proof.
  induction s as [|c s IH]; intros Hs; [cbn; split; [reflexivity | lia]|].
  cbn [trimStart]. destruct (JS.is_space c).
  - cbn in Hs. apply andb_prop in Hs as [_ Hs]. destruct (IH Hs). split; [assumption | cbn; lia].
  - split; [exact Hs | lia].
Qed.

Lemma trimEnd_keeps p s :
  Validation.all_chars p s = true ->
  Validation.all_chars p (trimEnd s) = true
  /\ (String.length (trimEnd s) <= String.length s)%nat.
Proof.
  induction s as [|c s IH]; intros Hs; [cbn; split; [reflexivity | lia]|].
  cbn in Hs. apply andb_prop in Hs as [Hc Hs]. destruct (IH Hs) as [H1 H2].
  cbn [trimEnd]. destruct (trimEnd s) as [|d t] eqn:Ht.
  - destruct (JS.is_space c); cbn; [split; [reflexivity | lia]|].
    rewrite Hc. split; [reflexivity | lia].
  - split; [|cbn in *; lia].
    change (p c && Validation.all_chars p (String d t) = true). now rewrite Hc, H1.
Qed.

Lemma trimEnd_last_not_space s :
  match trimEnd s with
  | EmptyString => True
  | t => exists u c, t = u +:+ String c EmptyString /\ JS.is_space c = false
  end.
Proof.
  induction s as [|c s IH]; cbn [trimEnd]; [exact I|].
  destruct (trimEnd s) as [|d t].
  - destruct (JS.is_space c) eqn:Hc; [exact I|].
    exists EmptyString, c. now rewrite JSFacts.append_nil.
  - destruct IH as (u & e & Hu & He). exists (String c u), e.
    now rewrite JSFacts.append_cons, <- Hu.
Qed.

Lemma trimStart_first_not_space s :
  match trimStart s with
  | EmptyString => True
  | String c _ => JS.is_space c = false
  end.
Proof.
  induction s as [|c s IH]; cbn [trimStart]; [exact I|].
  destruct (JS.is_space c) eqn:Hc; [exact IH | exact Hc].
Qed.

Lemma trimEnd_keeps_first c t :
  JS.is_space c = false -> exists t', trimEnd (String c t) = String c t'.
Proof.
  intros Hc. cbn [trimEnd]. destruct (trimEnd t); [|eauto].
  rewrite Hc. eauto.
Qed.

(** X28: [sanitizeString] throws exactly on a text of more than 1000
    characters; otherwise its result holds no "<" and no ">", is no longer
    than the text, and neither starts nor ends with white space. *)
Theorem sanitizeString_result (input : string) :
  (sanitizeString input = Tokens.Threw <-> (1000 < String.length input)%nat)
  /\ (forall out, sanitizeString input = Tokens.Returned out ->
        Validation.all_chars no_angle out = true
        /\ (String.length out <= String.length input)%nat
        /\ match out with
           | EmptyString => True
           | String c _ =>
               JS.is_space c = false
               /\ exists u d, out = u +:+ String d EmptyString /\ JS.is_space d = false
           end).
Proof.
  unfold sanitizeString, MAX_STRING_LENGTH.
  destruct (Nat.ltb_spec 1000 (String.length input)) as [Hlong|Hshort].
  - split; [tauto | discriminate].
  - split; [split; [discriminate | lia]|].
    intros out [= <-].
    pose proof (all_chars_strip_angle input) as H0.
    pose proof (length_strip_angle input) as L0.
    destruct (remove_ci_keeps no_angle "javascript:" _ 0%nat H0) as [H1 L1].
    destruct (remove_ci_keeps no_angle "data:" _ 0%nat H1) as [H2 L2].
    set (s2 := remove_ci "data:" 0 (remove_ci "javascript:" 0 (strip_angle input))) in *.
    destruct (trimStart_keeps no_angle s2 H2) as [H3 L3].
    destruct (trimEnd_keeps no_angle (trimStart s2) H3) as [H4 L4].
    unfold trim. split; [exact H4|]. split; [lia|].
    pose proof (trimStart_first_not_space s2) as Hfirst.
    pose proof (trimEnd_last_not_space (trimStart s2)) as Hlast.
    destruct (trimStart s2) as [|c t]; [exact I|].
    destruct (trimEnd_keeps_first c t Hfirst) as [t' Ht'].
    rewrite Ht' in *. split; [exact Hfirst | exact Hlast].
Qed.

End SanitizeFacts.

(** ** The cached component list *)

Module ListingFacts.
Import Extractor ExtractorMore.

Section Cached.

Variable RegExp : string -> option (string -> bool).

Lemma listComponents_hit getFile fuel cache fileId filter now components cache1 :
  Cache.get cache (Cache.key_componentList fileId) now = (Some components, cache1) ->
  listComponents RegExp getFile fuel cache fileId filter now
  = Some (answer RegExp components filter, cache1).
Proof.
  intros Hget. unfold listComponents, answer. rewrite Hget.
  now destruct (applyFilters RegExp components filter).
Qed.

(** X25: a call that misses the cache, fetches the file and lists its
    components stores the whole list, not the filtered answer, and stores it
    also when its own filter makes it throw: while the entry lives (30 minutes
    and the cache's default time-to-live, whichever is shorter) the cache
    holds the list and every later call for the file answers from it under
    its own filter, without need of the API: it throws where the filter
    throws on that list, and answers otherwise with the filtered list,
    [totalCount] its length and [hasMore] false. *)
Theorem listComponents_serves_stored_list getFile fuel cache fileId filter now
    cache1 h file w later :
  Cache.well_formed cache ->
  Cache.get cache (Cache.key_componentList fileId) now = (None, cache1) ->
  getFile fileId = inr (h, file) ->
  extractComponentList fuel h file = Some w ->
  later - now <= Cache.ttl_componentList ->
  later - now <= Cache.defaultTtl cache ->
  exists cache2,
    listComponents RegExp getFile fuel cache fileId filter now
    = Some (match applyFilters RegExp (components w) filter with
            | Tokens.Threw => Tokens.Threw
            | Tokens.Returned kept =>
                Tokens.Returned {| listed := kept; totalCount := length kept;
                                   hasMore := false |}
            end, cache2)
    /\ fst (Cache.get cache2 (Cache.key_componentList fileId) later) = Some (components w)
    /\ forall getFile' fuel' filter', exists cache3,
         listComponents RegExp getFile' fuel' cache2 fileId filter' later
         = Some (match applyFilters RegExp (components w) filter' with
                 | Tokens.Threw => Tokens.Threw
                 | Tokens.Returned kept =>
                     Tokens.Returned {| listed := kept; totalCount := length kept;
                                        hasMore := false |}
                 end, cache3).
Proof.
  intros Hwf Hget Hfile Hw Hl1 Hl2.
  assert (Hwf1 : Cache.well_formed cache1).
  { pose proof (CacheFacts.get_well_formed cache (Cache.key_componentList fileId) now Hwf) as H.
    now rewrite Hget in H. }
  assert (Hd1 : Cache.defaultTtl cache1 = Cache.defaultTtl cache).
  { pose proof (f_equal snd Hget) as H. cbn in H. rewrite <- H.
    unfold Cache.get. destruct (Cache.lru_get _ _ _) as [[entry|] m]; [|reflexivity].
    now destruct (Cache.isExpired entry now). }
  pose proof (CacheInvalidationFacts.set_then_get cache1
                (Cache.key_componentList fileId) (components w)
                (Some Cache.ttl_componentList) now later Hwf1 Hl1) as Hserved.
  rewrite Hd1 in Hserved. specialize (Hserved Hl2).
  exists (Cache.set cache1 (Cache.key_componentList fileId) (components w)
            (Some Cache.ttl_componentList) now).
  split; [|split].
  - unfold listComponents. rewrite Hget, Hfile, Hw.
    now destruct (applyFilters RegExp (components w) filter).
  - exact Hserved.
  - intros getFile' fuel' filter'.
    destruct (Cache.get (Cache.set cache1 (Cache.key_componentList fileId) (components w)
                           (Some Cache.ttl_componentList) now)
                (Cache.key_componentList fileId) later) as [got c3] eqn:Hg.
    cbn [fst] in Hserved. subst got. exists c3.
    exact (listComponents_hit getFile' fuel' _ fileId filter' later (components w) c3 Hg).
Qed.

End Cached.

(** The first call lists the published button of the document under a name
    pattern that does not compile, and throws; half an hour later the API
    refuses the file, and the unpublished components asked for then are taken
    from the list the first call stored: there are none. *)
Lemma listComponents_serves_stored_list_witness :
  let malformed := fun _ : string => @None (string -> bool) in
  let by_name := Some {| f_type := None; f_name := Some "("; f_published := None |} in
  exists cache2,
    listComponents malformed serve_tree 3
      (Cache.default_cache (list Session.ComponentListItem)) "F" by_name 0
    = Some (Tokens.Threw, cache2)
    /\ exists cache3,
         listComponents malformed refuse_file 0 cache2 "F" (Some only_unpublished) 1800000
         = Some (Tokens.Returned {| listed := []; totalCount := 0; hasMore := false |},
                 cache3).
Proof.
  cbv zeta.
  assert (Hwf : Cache.well_formed (Cache.default_cache (list Session.ComponentListItem)))
    by (split; reflexivity).
  destruct (listComponents_serves_stored_list (fun _ => None) serve_tree 3
              (Cache.default_cache (list Session.ComponentListItem)) "F"
              (Some {| f_type := None; f_name := Some "("; f_published := None |}) 0
              _ h_tree file0 _ 1800000 Hwf eq_refl eq_refl eq_refl)
    as (cache2 & H1 & _ & H2); [vm_compute; discriminate | vm_compute; discriminate|].
  exists cache2. split; [exact H1|].
  exact (H2 refuse_file 0%nat (Some only_unpublished)).
Defined.

End ListingFacts.
